(** * The pensieve record decoder and its Python front-end

    A shallow embedding of [record_reader.cpp] (the [RecordReader] class that
    decodes the binary record stream written by the tracker) and of the
    parts of [_pensieve.pyx] that render stack traces and iterate over
    allocation snapshots, followed by the properties proved about them.

    Conventions.
    - A byte stream is a [list byte]; fixed-width objects are read from it
      through a [codec], which stands for
      [d_input->read(reinterpret_cast<char*>(&x), sizeof(x))].
    - Unsigned C++ integers are [N], signed ones are [Z].
    - [std::unordered_map] is a [gmap]; [std::vector] is a [list] whose
      last element is [back()].
    - A C++ call ends in a [result]: it returns, throws, fails an
      [assert], or has undefined behaviour. *)

From Stdlib Require Import ZArith NArith Lia.
From Stdlib.Strings Require Import Byte String Ascii.
From stdpp Require Import gmap list strings.

Local Open Scope string_scope.
Local Open Scope list_scope.

(** ** Records (records.h) *)

Definition thread_id_t := N.
Definition frame_id_t := N.
Definition index_t := N.

Inductive RecordType :=
| ALLOCATION
| FRAME_INDEX
| FRAME_PUSH
| FRAME_POP
| NATIVE_TRACE_INDEX
| MEMORY_MAP_START
| SEGMENT_HEADER
| SEGMENT
| THREAD_RECORD
| RecordType_other (raw : N).

Record TrackerStats := {
  n_allocations : N;
  n_frames : N;
  start_time : Z;
  end_time : Z
}.

Record HeaderRecord := {
  magic : list byte;
  version : Z;
  native_traces : bool;
  stats : TrackerStats;
  command_line : string;
  pid : Z
}.

Record AllocationRecord := {
  tid : thread_id_t;
  address : N;
  size : N;
  allocator : N;
  py_lineno : Z;
  native_frame_id : N
}.

Record Allocation := {
  record : AllocationRecord;
  frame_index : N;
  native_segment_generation : N
}.

Record Frame := {
  function_name : string;
  filename : string;
  parent_lineno : Z;
  lineno : Z
}.

Record FramePush := {
  push_frame_id : frame_id_t;
  push_tid : thread_id_t
}.

Record FramePop := {
  pop_tid : thread_id_t;
  pop_count : N
}.

Record UnresolvedNativeFrame := {
  ip : N;
  index : index_t
}.

Record Segment := {
  vaddr : N;
  memsz : N
}.

#[global] Instance Frame_eq_dec : EqDecision Frame.
Proof. solve_decision. Defined.

#[global] Instance RecordType_eq_dec : EqDecision RecordType.
Proof. solve_decision. Defined.

(** ** Outcomes of a C++ call *)

(** What propagates up the stack: a C++ exception, or a Python exception
    raised in the Cython layer. *)
Inductive exn :=
| ios_failure (what : string)      (* std::ios_base::failure *)
| runtime_error (what : string)    (* std::runtime_error *)
| out_of_range                     (* std::out_of_range, from map::at *)
| length_error                     (* std::length_error, from a vector *)
| bad_alloc                        (* std::bad_alloc, from a vector *)
| ValueError (what : string)
| AssertionError (what : string)
| TypeError
| StopIteration.                   (* raised by next() on an exhausted iterator *)

Inductive result (A : Type) :=
| Ret (a : A)
| Throw (e : exn)
| AssertFail          (* a failed assert(): the process aborts *)
| Undefined.          (* undefined behaviour *)

Arguments Ret {A} a.
Arguments Throw {A} e.
Arguments AssertFail {A}.
Arguments Undefined {A}.

Definition result_bind {A B} (r : result A) (k : A -> result B) : result B :=
  match r with
  | Ret a => k a
  | Throw e => Throw e
  | AssertFail => AssertFail
  | Undefined => Undefined
  end.

Notation "'let*' x ':=' c1 'in' c2" := (result_bind c1 (fun x => c2))
  (at level 10, x name, c1 at level 100, c2 at level 200).
Notation "'let*' ' pat ':=' c1 'in' c2" :=
  (result_bind c1 (fun x => match x with pat => c2 end))
  (at level 10, pat pattern, c1 at level 100, c2 at level 200).

(** A computation with a bound on its loops: [None] when the bound is
    reached. *)
Definition bounded (A : Type) := option (result A).

Definition bounded_bind {A B} (c : bounded A) (k : A -> bounded B) : bounded B :=
  match c with
  | None => None
  | Some (Ret a) => k a
  | Some (Throw e) => Some (Throw e)
  | Some AssertFail => Some AssertFail
  | Some Undefined => Some Undefined
  end.

Notation "'let+' x ':=' c1 'in' c2" := (bounded_bind c1 (fun x => c2))
  (at level 10, x name, c1 at level 100, c2 at level 200).
Notation "'let+' ' pat ':=' c1 'in' c2" :=
  (bounded_bind c1 (fun x => match x with pat => c2 end))
  (at level 10, pat pattern, c1 at level 100, c2 at level 200).

(** [assert(c)]: checked unless the translation unit is compiled with
    [NDEBUG]. *)
Definition c_assert (ndebug : bool) (c : bool) : result unit :=
  if ndebug then Ret tt else if c then Ret tt else AssertFail.

(** ** The input source *)

(** Modelled from the spec: the [Source] transport of source.h, a header
    outside the two files embedded here.  [read(buf, n)] is
    all-or-nothing, [getline(sep)] reads up to the delimiter, consumes it
    and excludes it from the result, [is_open()] reports whether the
    source is still open and [close()] closes it.  A read from a closed source fails; a failed read leaves the
    model's position where it was.  [src_data] is what can still be read
    before the source runs dry. *)
Record Source := {
  src_data : list byte;
  src_open : bool
}.

(** How making a vector can fail: [std::length_error] above [max_size()],
    [std::bad_alloc] when the memory is not to be had. *)
Inductive alloc_failure :=
| too_long
| out_of_memory.

Definition alloc_exn (f : alloc_failure) : exn :=
  match f with
  | too_long => length_error
  | out_of_memory => bad_alloc
  end.

(** What the process the reader runs in does to it.

    Modelled from the spec: [closed_from_outside] tells why a source runs
    dry.  When it is [true] the source is closed from outside while a read
    waits for bytes that do not come (the teardown of a socket reader):
    the read fails and leaves the source closed.  When it is [false] the
    source is at its end, as a file is: the read fails and the source
    stays open.

    [Segment_vector_new n] and [Allocation_vector_reserve n] are what
    [std::vector<Segment>(n)] and [std::vector<Allocation>::reserve(n)]
    throw, [None] when they succeed. *)
Class Environment := {
  closed_from_outside : bool;
  Segment_vector_new : N -> option alloc_failure;
  Allocation_vector_reserve : N -> option alloc_failure
}.

(** A read either yields a value or fails; either way it leaves a source
    behind. *)
Definition parser (A : Type) := Source -> option A * Source.

Definition pret {A} (a : A) : parser A := fun s => (Some a, s).

Definition pbind {A B} (p : parser A) (k : A -> parser B) : parser B :=
  fun s => match p s with
           | (Some a, s') => k a s'
           | (None, s') => (None, s')
           end.

Notation "'let?' x ':=' p 'in' q" := (pbind p (fun x => q))
  (at level 10, x name, p at level 100, q at level 200).

(** Modelled from the spec: [Source::is_open()] and [Source::close()]. *)
Definition Source_is_open (s : Source) : bool := src_open s.

Definition Source_close (s : Source) : Source :=
  {| src_data := src_data s; src_open := false |}.

(** Modelled from the spec: an open source after a read that found it
    dry. *)
Definition Source_dry {env : Environment} (s : Source) : Source :=
  if closed_from_outside then Source_close s else s.

(** Modelled from the spec: [Source::read(buf, n)], all or nothing. *)
Definition Source_read {env : Environment} (n : nat) : parser (list byte) :=
  fun s =>
    if src_open s then
      if (n <=? length (src_data s))%nat
      then (Some (take n (src_data s)),
            {| src_data := drop n (src_data s); src_open := src_open s |})
      else (None, Source_dry s)
    else (None, s).

Fixpoint split_at_sep (sep : byte) (l : list byte) : option (list byte * list byte) :=
  match l with
  | [] => None
  | b :: l' =>
      if Byte.eqb b sep then Some ([], l')
      else match split_at_sep sep l' with
           | Some (line, rest) => Some (b :: line, rest)
           | None => None
           end
  end.

(** Modelled from the spec: [Source::getline(result, sep)]; it fails when
    the source ends before the delimiter. *)
Definition Source_getline {env : Environment} (sep : byte) : parser string :=
  fun s =>
    if src_open s
    then match split_at_sep sep (src_data s) with
         | Some (line, rest) =>
             (Some (string_of_list_byte line),
              {| src_data := rest; src_open := src_open s |})
         | None => (None, Source_dry s)
         end
    else (None, s).

(** ** Object layout *)

(** How an object of type [A] sits in the stream: its [sizeof] and the
    value its bytes denote (host byte order, host padding). *)
Record codec (A : Type) := {
  sizeof : nat;
  decode : list byte -> A
}.
Arguments sizeof {A} c.
Arguments decode {A} c.

(** [d_input->read(reinterpret_cast<char*>(&x), sizeof(x))] *)
Definition read_obj {env : Environment} {A} (c : codec A) : parser A :=
  let? buf := Source_read (sizeof c) in pret (decode c buf).

(** Modelled from the spec: the frame interner [FrameCollection] behind
    [d_allocation_frames], declared in a header outside the two files
    embedded here.  It
    hands every distinct [Frame] an id of its own and the same [Frame] the
    same id; [getIndex] reports whether the frame was new.  Fresh ids are
    handed out from a counter advanced by a fixed stride, which lets an
    implementation partition the id space. *)
Record FrameCollection := {
  fc_frames : list (Frame * frame_id_t);
  fc_current_frame_id : frame_id_t;
  fc_index_increment : N
}.

(** The constants and struct layouts of records.h and the member
    initialisers of record_reader.h, headers outside the two files embedded
    here, are parameters of the development: [Frame_lineno_unset] is the [lineno] of a
    [Frame] no code has assigned, [allocation_frames_init] the initial
    [d_allocation_frames], [SIZE_MAX] the largest [size_t]. *)
Class WireLayout := {
  MAGIC : list byte;
  CURRENT_HEADER_VERSION : Z;
  version_codec : codec Z;
  native_traces_codec : codec bool;
  stats_codec : codec TrackerStats;
  pid_codec : codec Z;
  RecordType_codec : codec RecordType;
  RecordType_sizeof_pos : (0 < sizeof RecordType_codec)%nat;
  AllocationRecord_codec : codec AllocationRecord;
  FramePush_codec : codec FramePush;
  FramePop_codec : codec FramePop;
  frame_id_codec : codec frame_id_t;
  int_codec : codec Z;
  Frame_lineno_unset : Z;
  allocation_frames_init : FrameCollection;
  SIZE_MAX : N;
  UnresolvedNativeFrame_codec : codec UnresolvedNativeFrame;
  size_t_codec : codec N;
  uintptr_t_codec : codec N;
  Segment_codec : codec Segment;
  thread_id_codec : codec thread_id_t
}.

Fixpoint bytes_eqb (a b : list byte) : bool :=
  match a, b with
  | [], [] => true
  | x :: a', y :: b' => Byte.eqb x y && bytes_eqb a' b'
  | _, _ => false
  end.

(** ** record_reader.cpp: the header *)

Section Header.
Context `{WireLayout} {env : Environment}.

(** [RecordReader::readHeader].  [header] is the object the reference
    parameter designates; the result of reading the version is not tested
    by the code, so after a short read [header.version] is what it was. *)
Definition readHeader (header : HeaderRecord) (input : Source)
  : result (HeaderRecord * Source) :=
  let '(m, input1) := Source_read (length MAGIC) input in
  if negb (from_option (fun m => bytes_eqb m MAGIC) false m) then
    Throw (ios_failure
      "The provided input file does not look like a binary generated by pensieve.")
  else
    let '(v, input2) := read_obj version_codec input1 in
    let header_version := default (version header) v in
    if negb (header_version =? CURRENT_HEADER_VERSION)%Z then
      Throw (ios_failure
        "The provided input file is incompatible with this version of pensieve.")
    else
      let '(fields, input3) :=
        (let? nt := read_obj native_traces_codec in
         let? st := read_obj stats_codec in
         let? cl := Source_getline x00 in
         pret (nt, st, cl)) input2 in
      match fields with
      | None => Throw (ios_failure "Failed to read input file.")
      | Some (nt, st, cl) =>
          let '(p, input4) := read_obj pid_codec input3 in
          match p with
          | None => Throw (ios_failure "Failed to read tPID from input file.")
          | Some p =>
              Ret ({| magic := default (magic header) m;
                      version := header_version; native_traces := nt;
                      stats := st; command_line := cl; pid := p |}, input4)
          end
      end.

End Header.

(** ** Interning and the stack tree (frame_tree.h, records.h) *)

Fixpoint fc_find (frame : Frame) (l : list (Frame * frame_id_t)) : option frame_id_t :=
  match l with
  | [] => None
  | (f, i) :: l' => if decide (f = frame) then Some i else fc_find frame l'
  end.

(** Modelled from the spec: [FrameCollection::getIndex], the id of the
    frame and whether the frame was new to the interner. *)
Definition getIndex (frame : Frame) (c : FrameCollection)
  : (frame_id_t * bool) * FrameCollection :=
  match fc_find frame (fc_frames c) with
  | Some i => ((i, false), c)
  | None =>
      ((fc_current_frame_id c, true),
       {| fc_frames := fc_frames c ++ [(frame, fc_current_frame_id c)];
          fc_current_frame_id := (fc_current_frame_id c + fc_index_increment c)%N;
          fc_index_increment := fc_index_increment c |})
  end.

Record StackTreeNode := {
  node_frame_id : frame_id_t;
  node_parent_index : index_t
}.

(** Modelled from the spec: the stack tree [FrameTree] behind [d_tree],
    declared in frame_tree.h, outside the two files embedded here: an
    append-only vector of
    nodes whose index 0 is the root sentinel.  A child of a node is looked up
    by (parent index, frame id), the first-inserted child wins, and a missing
    child is appended. *)
Definition FrameTree := list StackTreeNode.

Definition FrameTree_init : FrameTree :=
  [ {| node_frame_id := 0%N; node_parent_index := 0%N |} ].

Fixpoint find_child (parent : index_t) (frame : frame_id_t)
    (nodes : list StackTreeNode) (i : index_t) : option index_t :=
  match nodes with
  | [] => None
  | n :: nodes' =>
      if (node_parent_index n =? parent)%N && (node_frame_id n =? frame)%N
      then Some i
      else find_child parent frame nodes' (N.succ i)
  end.

(** Modelled from the spec: one step of [FrameTree::getTraceIndex], from a
    node to its child for [frame]. *)
Definition getTraceIndexUnsafe (parent : index_t) (frame : frame_id_t)
    (t : FrameTree) : index_t * FrameTree :=
  match find_child parent frame (drop 1 t) 1%N with
  | Some i => (i, t)
  | None =>
      (N.of_nat (length t),
       t ++ [ {| node_frame_id := frame; node_parent_index := parent |} ])
  end.

(** Modelled from the spec: [FrameTree::getTraceIndex], the index of the
    node that ends the path [stack_trace] from the root, the tree grown as
    needed; the empty path ends at the root, index 0. *)
Definition getTraceIndex (stack_trace : list frame_id_t) (t : FrameTree)
  : index_t * FrameTree :=
  fold_left (fun '(index, t) frame => getTraceIndexUnsafe index frame t)
            stack_trace (0%N, t).

(** Modelled from the spec: [FrameTree::nextNode], the node at [index];
    an index outside the tree is outside the vector. *)
Definition nextNode (index : index_t) (t : FrameTree) : result StackTreeNode :=
  match t !! N.to_nat index with
  | Some n => Ret n
  | None => Undefined
  end.

(** ** The symbol resolver *)

Record LoadedObject := {
  lo_filename : string;
  lo_base : N;
  lo_segments : list Segment;
  lo_generation : N
}.

(** Modelled from the spec: the state of the symbol resolver behind
    [d_symbol_resolver], defined outside the two files embedded here: a
    generation
    counter and the objects loaded in the current generation.  Clearing
    drops the objects and bumps the generation. *)
Record SymbolResolver := {
  sr_generation : N;
  sr_objects : list LoadedObject
}.

(** Modelled from the spec: [clearSegments] drops the loaded objects and
    bumps the generation. *)
Definition clearSegments (r : SymbolResolver) : SymbolResolver :=
  {| sr_generation := (sr_generation r + 1)%N; sr_objects := [] |}.

(** Modelled from the spec: [addSegments] registers an object at the
    current generation. *)
Definition addSegments (filename : string) (addr : N) (segments : list Segment)
    (r : SymbolResolver) : SymbolResolver :=
  {| sr_generation := sr_generation r;
     sr_objects := sr_objects r ++
       [ {| lo_filename := filename; lo_base := addr;
            lo_segments := segments; lo_generation := sr_generation r |} ] |}.

(** Modelled from the spec: [currentSegmentGeneration]. *)
Definition currentSegmentGeneration (r : SymbolResolver) : N := sr_generation r.

(** ** record_reader.cpp: the reader *)

(** The members of [RecordReader], and the error log [LOG(ERROR)] writes to. *)
Record RecordReader := {
  d_input : Source;
  d_header : HeaderRecord;
  d_frame_map : gmap frame_id_t Frame;
  d_allocation_frames : FrameCollection;
  d_stack_traces : gmap thread_id_t (list frame_id_t);
  d_tree : FrameTree;
  d_native_frames : list UnresolvedNativeFrame;
  d_symbol_resolver : SymbolResolver;
  d_thread_names : gmap thread_id_t string;
  d_log : list string
}.

Definition set_input (x : Source) (r : RecordReader) : RecordReader :=
  {| d_input := x; d_header := d_header r; d_frame_map := d_frame_map r;
     d_allocation_frames := d_allocation_frames r;
     d_stack_traces := d_stack_traces r; d_tree := d_tree r;
     d_native_frames := d_native_frames r;
     d_symbol_resolver := d_symbol_resolver r;
     d_thread_names := d_thread_names r; d_log := d_log r |}.

Definition set_frame_map (x : gmap frame_id_t Frame) (r : RecordReader) : RecordReader :=
  {| d_input := d_input r; d_header := d_header r; d_frame_map := x;
     d_allocation_frames := d_allocation_frames r;
     d_stack_traces := d_stack_traces r; d_tree := d_tree r;
     d_native_frames := d_native_frames r;
     d_symbol_resolver := d_symbol_resolver r;
     d_thread_names := d_thread_names r; d_log := d_log r |}.

Definition set_allocation_frames (x : FrameCollection) (r : RecordReader) : RecordReader :=
  {| d_input := d_input r; d_header := d_header r; d_frame_map := d_frame_map r;
     d_allocation_frames := x;
     d_stack_traces := d_stack_traces r; d_tree := d_tree r;
     d_native_frames := d_native_frames r;
     d_symbol_resolver := d_symbol_resolver r;
     d_thread_names := d_thread_names r; d_log := d_log r |}.

Definition set_stack_traces (x : gmap thread_id_t (list frame_id_t)) (r : RecordReader)
  : RecordReader :=
  {| d_input := d_input r; d_header := d_header r; d_frame_map := d_frame_map r;
     d_allocation_frames := d_allocation_frames r;
     d_stack_traces := x; d_tree := d_tree r;
     d_native_frames := d_native_frames r;
     d_symbol_resolver := d_symbol_resolver r;
     d_thread_names := d_thread_names r; d_log := d_log r |}.

Definition set_tree (x : FrameTree) (r : RecordReader) : RecordReader :=
  {| d_input := d_input r; d_header := d_header r; d_frame_map := d_frame_map r;
     d_allocation_frames := d_allocation_frames r;
     d_stack_traces := d_stack_traces r; d_tree := x;
     d_native_frames := d_native_frames r;
     d_symbol_resolver := d_symbol_resolver r;
     d_thread_names := d_thread_names r; d_log := d_log r |}.

Definition set_native_frames (x : list UnresolvedNativeFrame) (r : RecordReader)
  : RecordReader :=
  {| d_input := d_input r; d_header := d_header r; d_frame_map := d_frame_map r;
     d_allocation_frames := d_allocation_frames r;
     d_stack_traces := d_stack_traces r; d_tree := d_tree r;
     d_native_frames := x;
     d_symbol_resolver := d_symbol_resolver r;
     d_thread_names := d_thread_names r; d_log := d_log r |}.

Definition set_symbol_resolver (x : SymbolResolver) (r : RecordReader) : RecordReader :=
  {| d_input := d_input r; d_header := d_header r; d_frame_map := d_frame_map r;
     d_allocation_frames := d_allocation_frames r;
     d_stack_traces := d_stack_traces r; d_tree := d_tree r;
     d_native_frames := d_native_frames r;
     d_symbol_resolver := x;
     d_thread_names := d_thread_names r; d_log := d_log r |}.

Definition set_thread_names (x : gmap thread_id_t string) (r : RecordReader) : RecordReader :=
  {| d_input := d_input r; d_header := d_header r; d_frame_map := d_frame_map r;
     d_allocation_frames := d_allocation_frames r;
     d_stack_traces := d_stack_traces r; d_tree := d_tree r;
     d_native_frames := d_native_frames r;
     d_symbol_resolver := d_symbol_resolver r;
     d_thread_names := x; d_log := d_log r |}.

Definition set_log (x : list string) (r : RecordReader) : RecordReader :=
  {| d_input := d_input r; d_header := d_header r; d_frame_map := d_frame_map r;
     d_allocation_frames := d_allocation_frames r;
     d_stack_traces := d_stack_traces r; d_tree := d_tree r;
     d_native_frames := d_native_frames r;
     d_symbol_resolver := d_symbol_resolver r;
     d_thread_names := d_thread_names r; d_log := x |}.

(** [if (d_input->is_open()) LOG(ERROR) << msg;] *)
Definition log_error_if_open (msg : string) (r : RecordReader) : RecordReader :=
  if Source_is_open (d_input r) then set_log (d_log r ++ [msg]) r else r.

(** [std::unordered_map::emplace]: no effect when the key is present. *)
Definition map_emplace {V} (k : N) (v : V) (m : gmap N V) : gmap N V :=
  match m !! k with
  | Some _ => m
  | None => <[k := v]> m
  end.

(** The loop [while (count) { --count; d_stack_traces[tid].pop_back(); }]:
    [operator[]] default-constructs a missing entry, and popping an empty
    vector is undefined. *)
Fixpoint pop_back_n (count : nat) (tid : thread_id_t)
    (traces : gmap thread_id_t (list frame_id_t))
  : result (gmap thread_id_t (list frame_id_t)) :=
  match count with
  | O => Ret traces
  | S count' =>
      match default [] (traces !! tid) with
      | [] => Undefined
      | (_ :: _) as stack => pop_back_n count' tid (<[tid := removelast stack]> traces)
      end
  end.

Section Reader.
Context `{WireLayout} {env : Environment}.

(** Whether the translation unit is compiled with [NDEBUG]. *)
Variable ndebug : bool.

Definition SymbolResolver_init : SymbolResolver :=
  {| sr_generation := 0%N; sr_objects := [] |}.

(** [RecordReader::RecordReader].  [header0] stands for the contents of the
    member [d_header] before [readHeader] fills it. *)
Definition RecordReader_new (header0 : HeaderRecord) (source : Source)
  : result RecordReader :=
  let* '(header, input) := readHeader header0 source in
  Ret {| d_input := input; d_header := header; d_frame_map := ∅;
         d_allocation_frames := allocation_frames_init;
         d_stack_traces := ∅; d_tree := FrameTree_init;
         d_native_frames := [];
         d_symbol_resolver := SymbolResolver_init;
         d_thread_names := ∅; d_log := [] |}.

Definition RecordReader_close (r : RecordReader) : RecordReader :=
  set_input (Source_close (d_input r)) r.

Definition isOpen (r : RecordReader) : bool := Source_is_open (d_input r).

Definition parseFramePush (r : RecordReader) : result (bool * RecordReader) :=
  let '(o, input) := read_obj FramePush_codec (d_input r) in
  match o with
  | None => Ret (false, set_input input r)
  | Some record =>
      let tid := push_tid record in
      let stack := default [] (d_stack_traces r !! tid) in
      Ret (true,
           set_stack_traces
             (<[tid := stack ++ [push_frame_id record]]> (d_stack_traces r))
             (set_input input r))
  end.

Definition parseFramePop (r : RecordReader) : result (bool * RecordReader) :=
  let '(o, input) := read_obj FramePop_codec (d_input r) in
  match o with
  | None => Ret (false, set_input input r)
  | Some record =>
      let tid := pop_tid record in
      let* _ := c_assert ndebug
                (negb (bool_decide (default [] (d_stack_traces r !! tid) = []))) in
      let* traces := pop_back_n (N.to_nat (pop_count record)) tid (d_stack_traces r) in
      Ret (true, set_stack_traces traces (set_input input r))
  end.

Definition parseFrameIndex (r : RecordReader) : result (bool * RecordReader) :=
  let '(o, input) :=
    (let? id := read_obj frame_id_codec in
     let? fn := Source_getline x00 in
     let? file := Source_getline x00 in
     let? pl := read_obj int_codec in
     pret (id, {| function_name := fn; filename := file;
                  parent_lineno := pl; lineno := Frame_lineno_unset |}))
      (d_input r) in
  match o with
  | None => Ret (false, set_input input r)
  | Some (id, frame) =>
      match d_frame_map r !! id with
      | Some _ => Throw (runtime_error "Two entries with the same ID found!")
      | None =>
          Ret (true, set_frame_map (<[id := frame]> (d_frame_map r))
                       (set_input input r))
      end
  end.

Definition parseNativeFrameIndex (r : RecordReader) : result (bool * RecordReader) :=
  let '(o, input) := read_obj UnresolvedNativeFrame_codec (d_input r) in
  match o with
  | None => Ret (false, set_input input r)
  | Some frame =>
      Ret (true, set_native_frames (d_native_frames r ++ [frame])
                   (set_input input r))
  end.

Definition parseAllocationRecord (record : AllocationRecord) (r : RecordReader)
  : bool * AllocationRecord * RecordReader :=
  let '(o, input) := read_obj AllocationRecord_codec (d_input r) in
  match o with
  | None => (false, record, set_input input r)
  | Some record' => (true, record', set_input input r)
  end.

Definition Segment_zero : Segment := {| vaddr := 0%N; memsz := 0%N |}.

Definition parseSegment (segment : Segment) (r : RecordReader)
  : result (bool * Segment * RecordReader) :=
  let '(o, input) := read_obj RecordType_codec (d_input r) in
  match o with
  | None => Ret (false, segment, set_input input r)
  | Some record_type =>
      let* _ := c_assert ndebug (bool_decide (record_type = SEGMENT)) in
      let '(o', input') := read_obj Segment_codec input in
      match o' with
      | None => Ret (false, segment, set_input input' r)
      | Some segment' => Ret (true, segment', set_input input' r)
      end
  end.

(** The [for] loop of [parseSegmentHeader]; [None] is its [return false]. *)
Fixpoint parseSegments (n : nat) (segments : list Segment) (r : RecordReader)
  : result (option (list Segment) * RecordReader) :=
  match n with
  | O => Ret (Some segments, r)
  | S n' =>
      let* '(ok, segment, r') := parseSegment Segment_zero r in
      if ok then parseSegments n' (segments ++ [segment]) r'
      else Ret (None, r')
  end.

Definition parseSegmentHeader (r : RecordReader) : result (bool * RecordReader) :=
  let '(o, input) :=
    (let? filename := Source_getline x00 in
     let? num_segments := read_obj size_t_codec in
     let? addr := read_obj uintptr_t_codec in
     pret (filename, num_segments, addr)) (d_input r) in
  match o with
  | None => Ret (false, set_input input r)
  | Some (filename, num_segments, addr) =>
      match Segment_vector_new num_segments with
      | Some failure => Throw (alloc_exn failure)
      | None =>
          let segments := replicate (N.to_nat num_segments) Segment_zero in
          let* '(o', r') := parseSegments (N.to_nat num_segments) segments
                            (set_input input r) in
          match o' with
          | None => Ret (false, r')
          | Some segments' =>
              Ret (true,
                   set_symbol_resolver
                     (addSegments filename addr segments' (d_symbol_resolver r')) r')
          end
      end
  end.

Definition parseThreadRecord (r : RecordReader) : result (bool * RecordReader) :=
  let '(o, input) :=
    (let? tid := read_obj thread_id_codec in
     let? name := Source_getline x00 in
     pret (tid, name)) (d_input r) in
  match o with
  | None => Ret (false, set_input input r)
  | Some (tid, name) =>
      Ret (true, set_thread_names (<[tid := name]> (d_thread_names r))
                   (set_input input r))
  end.

(** [RecordReader::correctAllocationFrame]; the corrected [stack] is
    returned, the caller stores it back where the reference points. *)
Definition correctAllocationFrame (stack : list frame_id_t) (lineno : Z)
    (r : RecordReader) : result (list frame_id_t * RecordReader) :=
  match last stack with
  | None => Ret (stack, r)
  | Some top =>
      match d_frame_map r !! top with
      | None => Throw out_of_range
      | Some partial_frame =>
          let allocation_frame :=
            {| function_name := function_name partial_frame;
               filename := filename partial_frame;
               parent_lineno := parent_lineno partial_frame;
               lineno := lineno |} in
          let '((allocation_index, is_new_frame), frames) :=
            getIndex allocation_frame (d_allocation_frames r) in
          let r1 := set_allocation_frames frames r in
          let r2 :=
            if is_new_frame
            then set_frame_map
                   (map_emplace allocation_index allocation_frame (d_frame_map r1)) r1
            else r1 in
          Ret (removelast stack ++ [allocation_index], r2)
      end
  end.

Definition getAllocationFrameIndex (record : AllocationRecord) (r : RecordReader)
  : result (N * RecordReader) :=
  match d_stack_traces r !! tid record with
  | None => Ret (0%N, r)
  | Some stack =>
      let* '(stack', r1) := correctAllocationFrame stack (py_lineno record) r in
      let r2 := set_stack_traces (<[tid record := stack']> (d_stack_traces r1)) r1 in
      let '(index, tree) := getTraceIndex stack' (d_tree r2) in
      Ret (index, set_tree tree r2)
  end.

Definition AllocationRecord_zero : AllocationRecord :=
  {| tid := 0%N; address := 0%N; size := 0%N; allocator := 0%N;
     py_lineno := 0%Z; native_frame_id := 0%N |}.

(** One turn of the [while (true)] loop of [nextAllocationRecord]: the loop
    either goes round again or the function returns. *)
Inductive iteration :=
| Continue (r : RecordReader)
| Return (ret : bool) (allocation : Allocation) (r : RecordReader).

(** [if (!parse()) { if (is_open()) LOG(ERROR) << msg; return false; } break;] *)
Definition or_fail (msg : string) (allocation : Allocation)
    (parsed : result (bool * RecordReader)) : result iteration :=
  let* '(ok, r) := parsed in
  if ok then Ret (Continue r)
  else Ret (Return false allocation (log_error_if_open msg r)).

Definition nextAllocationRecord_body (allocation : Allocation) (r : RecordReader)
  : result iteration :=
  let '(o, input) := read_obj RecordType_codec (d_input r) in
  match o with
  | None => Ret (Return false allocation (set_input input r))
  | Some record_type =>
      let r := set_input input r in
      match record_type with
      | ALLOCATION =>
          let '(ok, record, r1) := parseAllocationRecord AllocationRecord_zero r in
          if negb ok then
            Ret (Return false allocation
                   (log_error_if_open "Failed to parse allocation record" r1))
          else
            let* '(f_index, r2) := getAllocationFrameIndex record r1 in
            Ret (Return true
                   {| record := record; frame_index := f_index;
                      native_segment_generation :=
                        currentSegmentGeneration (d_symbol_resolver r2) |}
                   r2)
      | FRAME_PUSH =>
          or_fail "Failed to parse frame push" allocation (parseFramePush r)
      | FRAME_POP =>
          or_fail "Failed to parse frame pop" allocation (parseFramePop r)
      | FRAME_INDEX =>
          or_fail "Failed to parse frame index" allocation (parseFrameIndex r)
      | NATIVE_TRACE_INDEX =>
          or_fail "Failed to parse native frame index" allocation
            (parseNativeFrameIndex r)
      | MEMORY_MAP_START =>
          Ret (Continue
                 (set_symbol_resolver (clearSegments (d_symbol_resolver r)) r))
      | SEGMENT_HEADER =>
          or_fail "Failed to parse segment header" allocation (parseSegmentHeader r)
      | THREAD_RECORD =>
          or_fail "Failed to parse thread record" allocation (parseThreadRecord r)
      | SEGMENT | RecordType_other _ =>
          Ret (Return false allocation (log_error_if_open "Invalid record type" r))
      end
  end.

(** The loop, with a bound on the number of turns; [None] when the bound is
    reached before the function returns. *)
Fixpoint nextAllocationRecord_loop (fuel : nat) (allocation : Allocation)
    (r : RecordReader) : bounded (bool * Allocation * RecordReader) :=
  match fuel with
  | O => None
  | S fuel' =>
      match nextAllocationRecord_body allocation r with
      | Ret (Continue r') => nextAllocationRecord_loop fuel' allocation r'
      | Ret (Return ret allocation' r') => Some (Ret (ret, allocation', r'))
      | Throw e => Some (Throw e)
      | AssertFail => Some AssertFail
      | Undefined => Some Undefined
      end
  end.

(** [RecordReader::nextAllocationRecord].  Every turn that goes round again
    has consumed a type tag, so one turn more than there are bytes left is
    enough ([nextAllocationRecord_returns] below). *)
Definition nextAllocationRecord (allocation : Allocation) (r : RecordReader)
  : bounded (bool * Allocation * RecordReader) :=
  nextAllocationRecord_loop (S (length (src_data (d_input r)))) allocation r.

(** ** Python stack traces *)

Section StackFrames.
(** [Frame::toPythonObject(d_pystring_cache, lineno)], defined in
    records.cpp, outside the two files embedded here: the Python object
    for a
    frame shown at a line, or [nullptr] ([None]). *)
Context {PyObject : Type}.
Variable toPythonObject : Frame -> Z -> option PyObject.

(** The loop of [Py_GetStackFrame]; [remaining] is
    [max_stacks - stacks_obtained], so that [stacks_obtained++ != max_stacks]
    reads [remaining <> 0].  [None] is the [nullptr] of the error exit;
    creating the list and appending to it are taken to succeed. *)
Fixpoint Py_GetStackFrame_loop (remaining : nat) (current_index : index_t)
    (current_lineno : Z) (pylist : list PyObject) (r : RecordReader)
  : result (option (list PyObject)) :=
  if (current_index =? 0)%N then Ret (Some pylist)
  else
    match remaining with
    | O => Ret (Some pylist)
    | S remaining' =>
        let* node := nextNode current_index (d_tree r) in
        match d_frame_map r !! node_frame_id node with
        | None => Throw out_of_range
        | Some frame =>
            match toPythonObject frame current_lineno with
            | None => Ret None
            | Some pyframe =>
                Py_GetStackFrame_loop remaining' (node_parent_index node)
                  (parent_lineno frame) (pylist ++ [pyframe]) r
            end
        end
    end.

Definition Py_GetStackFrame (index : N) (max_stacks : nat) (r : RecordReader)
  : result (option (list PyObject)) :=
  Py_GetStackFrame_loop max_stacks index (-1)%Z [] r.

End StackFrames.

End Reader.

(** ** _pensieve.pyx: AllocationRecord *)

(** The tuple an [AllocationRecord] wraps: [self._tuple[0]] to
    [self._tuple[7]]. *)
Record AllocationTuple := {
  t_tid : N;
  t_address : N;
  t_size : N;
  t_allocator : N;
  t_stack_id : N;
  t_n_allocations : N;
  t_native_stack_id : N;
  t_native_segment_generation : N
}.

(** A frame as Python sees it: [(function or symbol, file, lineno)]. *)
Definition pyframe := (string * string * Z)%type.

(** [s.endswith(suffix)] *)
Definition endswith (s suffix : string) : bool :=
  let n := String.length s in
  let m := String.length suffix in
  (m <=? n)%nat && String.eqb (substring (n - m) m s) suffix.

(** [needle in s] *)
Fixpoint contains (needle s : string) : bool :=
  String.prefix needle s ||
  match s with
  | EmptyString => false
  | String _ s' => contains needle s'
  end.

(** A generator run to its end: what it yielded, in order, and how it
    ended ([Ret tt] when it ran off its end). *)
Definition generated (A : Type) := (list A * result unit)%type.

Definition yield {A} (a : A) (g : generated A) : generated A :=
  (a :: fst g, snd g).

(** A call in a generator body: what it raises ends the generator. *)
Definition gen_call {A B} (r : result A) (k : A -> generated B) : generated B :=
  match r with
  | Ret a => k a
  | Throw e => ([], Throw e)
  | AssertFail => ([], AssertFail)
  | Undefined => ([], Undefined)
  end.

Section AllocationRecord.

(** [self._reader.get().Py_GetStackFrame(index[, max_stacks])] and
    [self._reader.get().Py_GetNativeStackFrame(index, generation[, max_stacks])],
    as lists of Python tuples. *)
Variable reader_Py_GetStackFrame : N -> option nat -> list pyframe.
Variable reader_Py_GetNativeStackFrame : N -> N -> option nat -> list pyframe.

(** The Python object: [_reader] is kept as whether the pointer is set. *)
Record PyAllocationRecord := {
  _tuple : AllocationTuple;
  _stack_trace : option (list pyframe);
  _native_stack_trace : option (list pyframe);
  _has_reader : bool
}.

Definition stack_trace (self : PyAllocationRecord) (max_stacks : option nat)
  : result (list pyframe * PyAllocationRecord) :=
  if negb (_has_reader self) then
    Throw (AssertionError "Cannot get stack trace without reader.")
  else
    match _stack_trace self with
    | Some t => Ret (t, self)
    | None =>
        let t := reader_Py_GetStackFrame (t_stack_id (_tuple self)) max_stacks in
        Ret (t, {| _tuple := _tuple self; _stack_trace := Some t;
                   _native_stack_trace := _native_stack_trace self;
                   _has_reader := _has_reader self |})
    end.

Definition native_stack_trace (self : PyAllocationRecord) (max_stacks : option nat)
  : result (list pyframe * PyAllocationRecord) :=
  if negb (_has_reader self) then
    Throw (AssertionError "Cannot get stack trace without reader.")
  else
    match _native_stack_trace self with
    | Some t => Ret (t, self)
    | None =>
        let t := reader_Py_GetNativeStackFrame
                   (t_native_stack_id (_tuple self))
                   (t_native_segment_generation (_tuple self)) max_stacks in
        Ret (t, {| _tuple := _tuple self; _stack_trace := _stack_trace self;
                   _native_stack_trace := Some t;
                   _has_reader := _has_reader self |})
    end.

Definition _is_eval_frame (symbol : string) : bool :=
  contains "_PyEval_EvalFrameDefault" symbol.

(** The body of [_pure_python_stack_trace] over the frames of
    [self.stack_trace(max_stacks)]. *)
Fixpoint pure_python_frames (frames : list pyframe) : list pyframe :=
  match frames with
  | [] => []
  | frame :: frames' =>
      let '(_, file, _) := frame in
      if endswith file ".pyx" then pure_python_frames frames'
      else frame :: pure_python_frames frames'
  end.

Definition _pure_python_stack_trace (self : PyAllocationRecord)
    (max_stacks : option nat) : result (list pyframe * PyAllocationRecord) :=
  let* '(frames, self') := stack_trace self max_stacks in
  Ret (pure_python_frames frames, self').

(** The [for] loop of [hybrid_stack_trace].  [python_stack] is what the
    iterator has left, [n_python_frames_left] is [None] for Python's
    [None]. *)
Fixpoint hybrid_loop (native_frames : list pyframe) (python_stack : list pyframe)
    (n_python_frames_left : option Z) : generated pyframe :=
  match native_frames with
  | [] => ([], Ret tt)
  | native_frame :: native_frames' =>
      if bool_decide (n_python_frames_left = Some 0%Z) then ([], Ret tt)
      else
        let '(symbol, _, _) := native_frame in
        if _is_eval_frame symbol then
          match python_stack with
          | [] => ([], Throw StopIteration)
          | python_frame :: python_stack' =>
              match n_python_frames_left with
              | None => ([], Throw TypeError)
              | Some n =>
                  yield python_frame
                    (hybrid_loop native_frames' python_stack' (Some (n - 1)%Z))
              end
          end
        else
          yield native_frame
            (hybrid_loop native_frames' python_stack n_python_frames_left)
  end.

Definition hybrid_stack_trace (self : PyAllocationRecord) (max_stacks : option nat)
  : generated pyframe :=
  gen_call (_pure_python_stack_trace self max_stacks) (fun '(python_stack, self1) =>
  let n_python_frames_left :=
    match python_stack with
    | [] => None
    | _ :: _ => Some (Z.of_nat (length python_stack))
    end in
  gen_call (native_stack_trace self1 max_stacks) (fun '(native_frames, _) =>
  hybrid_loop native_frames python_stack n_python_frames_left)).

End AllocationRecord.

(** ** _pensieve.pyx: FileReader *)

Record HighWatermark := {
  hw_index : N;
  hw_peak_memory : N
}.

(** The members of [FileReader] the queries use; [_reader] is [None] when
    the shared pointer is null, [_header] is what [getHeader()] gave
    [__init__]. *)
Record FileReader := {
  _reader : option RecordReader;
  _native_allocations : list Allocation;
  _high_watermark : option HighWatermark;
  _header : HeaderRecord
}.

(** What a generator does when it is resumed. *)
Inductive resumed (A S : Type) :=
| Yield (a : A) (suspended : S)
| Exhausted.
Arguments Yield {A S} a suspended.
Arguments Exhausted {A S}.

(** Where [_yield_allocations] is suspended: before its first statement, or
    at its [yield] with the rest of the snapshot still to go. *)
Inductive yield_allocations_state :=
| ya_created (index : N) (merge_threads : bool)
| ya_at_yield (rest : list AllocationTuple).

(** Where the two snapshot queries are suspended: before their first
    statement, or inside [yield from]. *)
Inductive snapshot_query_state :=
| sq_created (merge_threads : bool)
| sq_yield_from (inner : yield_allocations_state).

Section FileReader.
Context `{WireLayout} {env : Environment}.
Variable ndebug : bool.

(** [getHighWatermark] and [Py_GetSnapshotAllocationRecords] of snapshot.cpp,
    outside the two files embedded here. *)
Variable getHighWatermark : list Allocation -> HighWatermark.
Variable Py_GetSnapshotAllocationRecords :
  list Allocation -> N -> bool -> list AllocationTuple.

Definition Allocation_zero : Allocation :=
  {| record := AllocationRecord_zero; frame_index := 0%N;
     native_segment_generation := 0%N |}.

Definition _get_reader (self : FileReader) : result RecordReader :=
  match _reader self with
  | None => Throw (ValueError "Operation on a closed FileReader")
  | Some reader => Ret reader
  end.

Definition FileReader_close (self : FileReader) : result FileReader :=
  let* reader := _get_reader self in
  Ret {| _reader := Some (RecordReader_close reader);
         _native_allocations := _native_allocations self;
         _high_watermark := _high_watermark self;
         _header := _header self |}.

Definition _ensure_reader_is_open (self : FileReader) : result unit :=
  let* reader := _get_reader self in
  if negb (isOpen reader) then Throw (ValueError "Operation on a closed FileReader")
  else Ret tt.


(** The [while] loop of [_populate_allocations], with a bound on its
    turns. *)
Fixpoint populate_loop (fuel : nat) (native_allocation : Allocation)
    (allocations : list Allocation) (reader : RecordReader)
  : bounded (list Allocation * RecordReader) :=
  match fuel with
  | O => None
  | S fuel' =>
      match nextAllocationRecord ndebug native_allocation reader with
      | None => None
      | Some (Ret (true, native_allocation', reader')) =>
          populate_loop fuel' native_allocation'
            (allocations ++ [native_allocation']) reader'
      | Some (Ret (false, _, reader')) => Some (Ret (allocations, reader'))
      | Some (Throw e) => Some (Throw e)
      | Some AssertFail => Some AssertFail
      | Some Undefined => Some Undefined
      end
  end.

Definition _populate_allocations (self : FileReader) : bounded FileReader :=
  if negb (bool_decide (_native_allocations self = [])) then Some (Ret self)
  else
    let+ reader := Some (_get_reader self) in
    let total_allocations := n_allocations (stats (_header self)) in
    match Allocation_vector_reserve total_allocations with
    | Some failure => Some (Throw (alloc_exn failure))
    | None =>
        let+ '(allocations, reader') :=
          populate_loop (S (length (src_data (d_input reader))))
            Allocation_zero (_native_allocations self) reader in
        Some (Ret {| _reader := Some reader';
                     _native_allocations := allocations;
                     _high_watermark := _high_watermark self;
                     _header := _header self |})
    end.

(** The [for] loop of [_yield_allocations] arriving at its next element. *)
Definition yield_next (elems : list AllocationTuple)
  : resumed AllocationTuple yield_allocations_state :=
  match elems with
  | [] => Exhausted
  | elem :: rest => Yield elem (ya_at_yield rest)
  end.

(** Resuming [_yield_allocations]: from its [yield], the next statement is
    [self._ensure_reader_is_open()]. *)
Definition _yield_allocations (self : FileReader) (st : yield_allocations_state)
  : result (resumed AllocationTuple yield_allocations_state) :=
  match st with
  | ya_created index merge_threads =>
      Ret (yield_next
             (Py_GetSnapshotAllocationRecords (_native_allocations self)
                index merge_threads))
  | ya_at_yield rest =>
      let* _ := _ensure_reader_is_open self in
      Ret (yield_next rest)
  end.

(** [yield from self._yield_allocations(...)]: the query yields what the
    inner generator yields and ends when it ends. *)
Definition yield_from (self : FileReader)
    (inner : result (resumed AllocationTuple yield_allocations_state))
  : result (resumed AllocationTuple snapshot_query_state * FileReader) :=
  let* step := inner in
  match step with
  | Yield a st => Ret (Yield a (sq_yield_from st), self)
  | Exhausted => Ret (Exhausted, self)
  end.

Definition _get_high_watermark (self : FileReader)
  : bounded (HighWatermark * FileReader) :=
  match _high_watermark self with
  | Some watermark => Some (Ret (watermark, self))
  | None =>
      let+ self1 := _populate_allocations self in
      let watermark := getHighWatermark (_native_allocations self1) in
      Some (Ret (watermark,
                 {| _reader := _reader self1;
                    _native_allocations := _native_allocations self1;
                    _high_watermark := Some watermark;
                    _header := _header self1 |}))
  end.

(** Resuming [get_high_watermark_allocation_records]. *)
Definition get_high_watermark_allocation_records (self : FileReader)
    (st : snapshot_query_state)
  : bounded (resumed AllocationTuple snapshot_query_state * FileReader) :=
  match st with
  | sq_created merge_threads =>
      let+ _ := Some (_ensure_reader_is_open self) in
      let+ self1 := _populate_allocations self in
      let+ '(watermark, self2) := _get_high_watermark self1 in
      Some (yield_from self2
              (_yield_allocations self2
                 (ya_created (hw_index watermark) merge_threads)))
  | sq_yield_from inner => Some (yield_from self (_yield_allocations self inner))
  end.

(** [self._native_allocations.size() - 1] in [size_t]. *)
Definition size_minus_one (n : N) : N :=
  if (n =? 0)%N then SIZE_MAX else (n - 1)%N.

(** Resuming [get_leaked_allocation_records]. *)
Definition get_leaked_allocation_records (self : FileReader)
    (st : snapshot_query_state)
  : bounded (resumed AllocationTuple snapshot_query_state * FileReader) :=
  match st with
  | sq_created merge_threads =>
      let+ _ := Some (_ensure_reader_is_open self) in
      let+ self1 := _populate_allocations self in
      let snapshot_index :=
        size_minus_one (N.of_nat (length (_native_allocations self1))) in
      Some (yield_from self1
              (_yield_allocations self1
                 (ya_created snapshot_index merge_threads)))
  | sq_yield_from inner => Some (yield_from self (_yield_allocations self inner))
  end.

End FileReader.

(** ** A layout to run the model on *)

(** Little-endian integers, structs without padding, one-byte type tags
    after the letters of the record table. *)
Definition le_N (bytes : list byte) : N :=
  fold_right (fun b acc => (Byte.to_N b + 256 * acc)%N) 0%N bytes.

Definition le_Z (bytes : list byte) : Z :=
  let n := Z.of_N (le_N bytes) in
  let bits := (8 * Z.of_nat (length bytes))%Z in
  if (n <? 2 ^ (bits - 1))%Z then n else (n - 2 ^ bits)%Z.

Definition byte_of_N (n : N) : byte :=
  default x00 (Byte.of_N (n mod 256)%N).

Fixpoint N_le (width : nat) (n : N) : list byte :=
  match width with
  | O => []
  | S width' => byte_of_N n :: N_le width' (n / 256)%N
  end.

Definition Z_le (width : nat) (z : Z) : list byte :=
  N_le width (Z.to_N (z mod 2 ^ (8 * Z.of_nat width))%Z).

Definition sample_RecordType (bytes : list byte) : RecordType :=
  match bytes with
  | ["A"%byte] => ALLOCATION
  | ["I"%byte] => FRAME_INDEX
  | ["P"%byte] => FRAME_PUSH
  | ["O"%byte] => FRAME_POP
  | ["N"%byte] => NATIVE_TRACE_INDEX
  | ["M"%byte] => MEMORY_MAP_START
  | ["H"%byte] => SEGMENT_HEADER
  | ["S"%byte] => SEGMENT
  | ["T"%byte] => THREAD_RECORD
  | _ => RecordType_other (le_N bytes)
  end.

Definition sample_layout : WireLayout :=
  {| MAGIC := list_byte_of_string "pensiev" ++ [x00];
     CURRENT_HEADER_VERSION := 1%Z;
     version_codec := {| sizeof := 2; decode := le_Z |};
     native_traces_codec :=
       {| sizeof := 1; decode := fun b => negb (le_N b =? 0)%N |};
     stats_codec :=
       {| sizeof := 32;
          decode := fun b =>
            {| n_allocations := le_N (take 8 b);
               n_frames := le_N (take 8 (drop 8 b));
               start_time := le_Z (take 8 (drop 16 b));
               end_time := le_Z (take 8 (drop 24 b)) |} |};
     pid_codec := {| sizeof := 4; decode := le_Z |};
     RecordType_codec := {| sizeof := 1; decode := sample_RecordType |};
     RecordType_sizeof_pos := Nat.lt_0_1;
     AllocationRecord_codec :=
       {| sizeof := 33;
          decode := fun b =>
            {| tid := le_N (take 8 b);
               address := le_N (take 8 (drop 8 b));
               size := le_N (take 8 (drop 16 b));
               allocator := le_N (take 1 (drop 24 b));
               py_lineno := le_Z (take 4 (drop 25 b));
               native_frame_id := le_N (take 4 (drop 29 b)) |} |};
     FramePush_codec :=
       {| sizeof := 16;
          decode := fun b =>
            {| push_frame_id := le_N (take 8 b);
               push_tid := le_N (take 8 (drop 8 b)) |} |};
     FramePop_codec :=
       {| sizeof := 10;
          decode := fun b =>
            {| pop_tid := le_N (take 8 b);
               pop_count := le_N (take 2 (drop 8 b)) |} |};
     frame_id_codec := {| sizeof := 8; decode := le_N |};
     int_codec := {| sizeof := 4; decode := le_Z |};
     Frame_lineno_unset := 0%Z;
     allocation_frames_init :=
       {| fc_frames := []; fc_current_frame_id := 1%N;
          fc_index_increment := 2%N |};
     SIZE_MAX := (2 ^ 64 - 1)%N;
     UnresolvedNativeFrame_codec :=
       {| sizeof := 12;
          decode := fun b =>
            {| ip := le_N (take 8 b); index := le_N (take 4 (drop 8 b)) |} |};
     size_t_codec := {| sizeof := 8; decode := le_N |};
     uintptr_t_codec := {| sizeof := 8; decode := le_N |};
     Segment_codec :=
       {| sizeof := 16;
          decode := fun b =>
            {| vaddr := le_N (take 8 b); memsz := le_N (take 8 (drop 8 b)) |} |};
     thread_id_codec := {| sizeof := 8; decode := le_N |} |}.

(** A process with memory for vectors of up to [2^32] elements, reading a
    file ([sample_env]) or a socket that is torn down
    ([sample_teardown]). *)
Definition sample_env : Environment :=
  {| closed_from_outside := false;
     Segment_vector_new := fun n => if (n <? 2 ^ 32)%N then None else Some too_long;
     Allocation_vector_reserve :=
       fun n => if (n <? 2 ^ 32)%N then None else Some too_long |}.

Definition sample_teardown : Environment :=
  {| closed_from_outside := true;
     Segment_vector_new := fun n => if (n <? 2 ^ 32)%N then None else Some too_long;
     Allocation_vector_reserve :=
       fun n => if (n <? 2 ^ 32)%N then None else Some too_long |}.

(** Streams in that layout. *)
Definition sample_header (version : Z) : list byte :=
  list_byte_of_string "pensiev" ++ [x00] ++ Z_le 2 version ++ [x01]
  ++ N_le 8 1%N ++ N_le 8 1%N ++ Z_le 8 0%Z ++ Z_le 8 0%Z
  ++ list_byte_of_string "python" ++ [x00] ++ Z_le 4 42%Z.

Definition sample_FRAME_INDEX (id : N) (fn file : string) (pl : Z) : list byte :=
  ["I"%byte] ++ N_le 8 id ++ list_byte_of_string fn ++ [x00]
  ++ list_byte_of_string file ++ [x00] ++ Z_le 4 pl.

Definition sample_FRAME_PUSH (tid id : N) : list byte :=
  ["P"%byte] ++ N_le 8 id ++ N_le 8 tid.

Definition sample_FRAME_POP (tid count : N) : list byte :=
  ["O"%byte] ++ N_le 8 tid ++ N_le 2 count.

Definition sample_ALLOCATION (tid addr sz : N) (line : Z) : list byte :=
  ["A"%byte] ++ N_le 8 tid ++ N_le 8 addr ++ N_le 8 sz ++ [x01]
  ++ Z_le 4 line ++ N_le 4 0%N.

Definition sample_source (bytes : list byte) : Source :=
  {| src_data := bytes; src_open := true |}.

Definition HeaderRecord_zero : HeaderRecord :=
  {| magic := []; version := 0%Z; native_traces := false;
     stats := {| n_allocations := 0%N; n_frames := 0%N;
                 start_time := 0%Z; end_time := 0%Z |};
     command_line := ""; pid := 0%Z |}.

(** A reader in its initial state over [bytes], the header already read. *)
Definition sample_reader (bytes : list byte) : RecordReader :=
  {| d_input := sample_source bytes; d_header := HeaderRecord_zero;
     d_frame_map := ∅;
     d_allocation_frames := @allocation_frames_init sample_layout;
     d_stack_traces := ∅; d_tree := FrameTree_init; d_native_frames := [];
     d_symbol_resolver := SymbolResolver_init;
     d_thread_names := ∅; d_log := [] |}.

(** ** Notions the properties are stated with *)

(** A read never lengthens what is left to read and never opens the
    source. *)
Definition steady {A} (p : parser A) : Prop :=
  forall s o s', p s = (o, s') ->
    (length (src_data s') <= length (src_data s))%nat /\
    (src_open s' = true -> src_open s = true).

(** [r'] differs from [r] by reads only: nothing was logged, the source was
    not opened, and no bytes came back. *)
Definition quiet (r r' : RecordReader) : Prop :=
  d_log r' = d_log r /\
  (src_open (d_input r') = true -> src_open (d_input r) = true) /\
  (length (src_data (d_input r')) <= length (src_data (d_input r)))%nat.

Section Notions.
Context `{WireLayout} {env : Environment}.
Variable ndebug : bool.

(** The loop of [nextAllocationRecord] goes round from [r] to [r'] without
    returning in between. *)
Inductive turns (a : Allocation) : RecordReader -> RecordReader -> Prop :=
| turns_here r : turns a r r
| turns_round r r1 r2 :
    nextAllocationRecord_body ndebug a r = Ret (Continue r1) ->
    turns a r1 r2 -> turns a r r2.

(** [data] ends before an object of the layout [c] does. *)
Definition short_of {A} (c : codec A) (data : list byte) : bool :=
  (length data <? sizeof c)%nat.

(** [data] ends before the NUL of a line, or in what [k] looks for after
    it. *)
Definition line_then (data : list byte) (k : list byte -> bool) : bool :=
  match split_at_sep x00 data with
  | None => true
  | Some (_, rest) => k rest
  end.

(** [data] ends inside a run of [n] SEGMENT records, each a tag and a
    [Segment]: before the end of a tag or of a [Segment].  The tags before
    the end are the ones [parseSegment] asserts. *)
Fixpoint segments_cut_short (n : nat) (data : list byte) : bool :=
  match n with
  | O => false
  | S n' =>
      short_of RecordType_codec data ||
      ((ndebug ||
        bool_decide (decode RecordType_codec
                       (take (sizeof RecordType_codec) data) = SEGMENT)) &&
       (short_of Segment_codec (drop (sizeof RecordType_codec) data) ||
        segments_cut_short n'
          (drop (sizeof Segment_codec) (drop (sizeof RecordType_codec) data))))
  end.

(** [data], what follows the tag of a record of type [ty], ends inside the
    record: in its payload as the format lays it out or, for a
    SEGMENT_HEADER whose vector of segments can be made, in the run of
    SEGMENT records it announces.  MEMORY_MAP_START has no payload, and no
    record begins with another tag. *)
Definition cut_short (ty : RecordType) (data : list byte) : bool :=
  match ty with
  | ALLOCATION => short_of AllocationRecord_codec data
  | FRAME_PUSH => short_of FramePush_codec data
  | FRAME_POP => short_of FramePop_codec data
  | NATIVE_TRACE_INDEX => short_of UnresolvedNativeFrame_codec data
  | FRAME_INDEX =>
      short_of frame_id_codec data ||
      line_then (drop (sizeof frame_id_codec) data)
        (fun rest => line_then rest (short_of int_codec))
  | THREAD_RECORD =>
      short_of thread_id_codec data ||
      line_then (drop (sizeof thread_id_codec) data) (fun _ => false)
  | SEGMENT_HEADER =>
      line_then data (fun rest =>
        short_of size_t_codec rest ||
        short_of uintptr_t_codec (drop (sizeof size_t_codec) rest) ||
        let num_segments :=
          decode size_t_codec (take (sizeof size_t_codec) rest) in
        match Segment_vector_new num_segments with
        | Some _ => false
        | None =>
            segments_cut_short (N.to_nat num_segments)
              (drop (sizeof uintptr_t_codec) (drop (sizeof size_t_codec) rest))
        end)
  | MEMORY_MAP_START | SEGMENT | RecordType_other _ => false
  end.

(** [r2] is [r] after a read that found the open source dry: nothing was
    logged. *)
Definition dry (r r2 : RecordReader) : Prop :=
  d_log r2 = d_log r /\
  exists s0, src_open s0 = true /\ d_input r2 = Source_dry s0.

(** What [nextAllocationRecord] logs when the parser of a record of type
    [ty] returns [false]. *)
Definition parse_failure (ty : RecordType) : string :=
  match ty with
  | ALLOCATION => "Failed to parse allocation record"
  | FRAME_PUSH => "Failed to parse frame push"
  | FRAME_POP => "Failed to parse frame pop"
  | FRAME_INDEX => "Failed to parse frame index"
  | NATIVE_TRACE_INDEX => "Failed to parse native frame index"
  | SEGMENT_HEADER => "Failed to parse segment header"
  | THREAD_RECORD => "Failed to parse thread record"
  | MEMORY_MAP_START | SEGMENT | RecordType_other _ => ""
  end.

(** The decoded stack of thread [t]; a thread never seen has none. *)
Definition stack_of (t : thread_id_t) (r : RecordReader) : list frame_id_t :=
  default [] (d_stack_traces r !! t).

(** The record [nextAllocationRecord] is about to decode from [r]: how many
    frames it pushes on thread [t], and how many it pops off it. *)
Definition frames_pushed (t : thread_id_t) (r : RecordReader) : nat :=
  match read_obj RecordType_codec (d_input r) with
  | (Some FRAME_PUSH, input) =>
      match read_obj FramePush_codec input with
      | (Some rec, _) => if decide (push_tid rec = t) then 1 else 0
      | (None, _) => 0
      end
  | _ => 0
  end.

Definition frames_popped (t : thread_id_t) (r : RecordReader) : nat :=
  match read_obj RecordType_codec (d_input r) with
  | (Some FRAME_POP, input) =>
      match read_obj FramePop_codec input with
      | (Some rec, _) =>
          if decide (pop_tid rec = t) then N.to_nat (pop_count rec) else 0
      | (None, _) => 0
      end
  | _ => 0
  end.

(** The decoder decodes a run of records from [r] to [r'] -- every turn of
    the loop goes round or delivers an allocation, none fails an assertion,
    pops an empty stack, throws or hits the end of the stream -- and the
    FRAME_PUSH records of the run for thread [t] number [n], the counts of
    its FRAME_POP records for [t] sum to [m]. *)
Inductive decodes (t : thread_id_t) : RecordReader -> nat -> nat -> RecordReader -> Prop :=
| decodes_none r : decodes t r 0 0 r
| decodes_round r n m r1 r2 a :
    decodes t r n m r1 ->
    nextAllocationRecord_body ndebug a r1 = Ret (Continue r2) ->
    decodes t r (n + frames_pushed t r1) (m + frames_popped t r1) r2
| decodes_delivered r n m r1 r2 a a' :
    decodes t r n m r1 ->
    nextAllocationRecord_body ndebug a r1 = Ret (Return true a' r2) ->
    decodes t r n m r2.

End Notions.

(** An interner is injective when no id stands for two frames, and its
    counter is fresh when it is ahead of every id handed out and moves. *)
Definition fc_injective (c : FrameCollection) : Prop :=
  forall f1 f2 i,
    fc_find f1 (fc_frames c) = Some i -> fc_find f2 (fc_frames c) = Some i ->
    f1 = f2.

Definition fc_fresh (c : FrameCollection) : Prop :=
  (0 < fc_index_increment c)%N /\
  forall f i, fc_find f (fc_frames c) = Some i -> (i < fc_current_frame_id c)%N.

(** The index [k] steps from [index] toward the root of the stack tree. *)
Fixpoint ancestor (t : FrameTree) (k : nat) (index : index_t) : option index_t :=
  match k with
  | O => Some index
  | S k' =>
      match t !! N.to_nat index with
      | Some n => ancestor t k' (node_parent_index n)
      | None => None
      end
  end.

(** A reader whose tree holds the one stack [outer] > [middle] > [inner],
    at nodes 1, 2 and 3. *)
Definition frame_outer : Frame :=
  {| function_name := "outer"; filename := "a.py";
     parent_lineno := 10; lineno := 0 |}.
Definition frame_middle : Frame :=
  {| function_name := "middle"; filename := "a.py";
     parent_lineno := 20; lineno := 0 |}.
Definition frame_inner : Frame :=
  {| function_name := "inner"; filename := "a.py";
     parent_lineno := 30; lineno := 0 |}.

Definition sample_tree_reader : RecordReader :=
  set_tree
    (FrameTree_init ++
     [ {| node_frame_id := 2%N; node_parent_index := 0%N |};
       {| node_frame_id := 4%N; node_parent_index := 1%N |};
       {| node_frame_id := 6%N; node_parent_index := 2%N |} ])
    (set_frame_map
       (<[2%N := frame_outer]> (<[4%N := frame_middle]> (<[6%N := frame_inner]> ∅)))
       (sample_reader [])).

(** A [toPythonObject] that keeps what it was called with. *)
Definition frame_at_line (frame : Frame) (lineno : Z) : option (Frame * Z) :=
  Some (frame, lineno).

(** How many frames of a native trace are the interpreter's eval-frame
    trampoline. *)
Definition eval_frames (native_frames : list pyframe) : nat :=
  length (filter (fun frame : pyframe => _is_eval_frame frame.1.1 = true) native_frames).

(** A snapshot that reports every allocation it is given, to run the
    queries on. *)
Definition sample_tuple (a : Allocation) : AllocationTuple :=
  {| t_tid := tid (record a); t_address := address (record a);
     t_size := size (record a); t_allocator := allocator (record a);
     t_stack_id := frame_index a; t_n_allocations := 1%N;
     t_native_stack_id := native_frame_id (record a);
     t_native_segment_generation := native_segment_generation a |}.

Definition sample_snapshot (allocations : list Allocation) (index : N)
    (merge_threads : bool) : list AllocationTuple :=
  map sample_tuple allocations.

Definition sample_watermark (allocations : list Allocation) : HighWatermark :=
  {| hw_index := 0%N; hw_peak_memory := 0%N |}.

Definition sample_FileReader (bytes : list byte) : FileReader :=
  {| _reader := Some (sample_reader bytes);
     _native_allocations := [];
     _high_watermark := None;
     _header := HeaderRecord_zero |}.

(** * More of the two files *)

(** ** record_reader.cpp: accessors and native stack traces *)

(** [RecordReader::getHeader] *)
Definition getHeader (r : RecordReader) : HeaderRecord := d_header r.

(** [RecordReader::getThreadName] *)
Definition getThreadName (tid : thread_id_t) (r : RecordReader) : string :=
  match d_thread_names r !! tid with
  | Some name => name
  | None => ""
  end.

Section NativeStackFrames.
(** [d_symbol_resolver.resolve(ip, generation)] with the [frames()] of what
    it finds, and the [toPythonObject] of a resolved native frame: both
    defined outside the two files embedded here. *)
Context {NativeFrame PyObject : Type}.
Variable resolve : SymbolResolver -> N -> N -> option (list NativeFrame).
Variable native_toPythonObject : NativeFrame -> option PyObject.

(** The inner [for] loop of [Py_GetNativeStackFrame]; [None] is its
    [return nullptr]. *)
Fixpoint append_native_frames (frames : list NativeFrame) (pylist : list PyObject)
  : option (list PyObject) :=
  match frames with
  | [] => Some pylist
  | native_frame :: frames' =>
      match native_toPythonObject native_frame with
      | None => None
      | Some pyframe => append_native_frames frames' (pylist ++ [pyframe])
      end
  end.

(** The loop of [Py_GetNativeStackFrame]; [remaining] is
    [max_stacks - stacks_obtained].  [d_native_frames[current_index - 1]] is
    an unchecked access. *)
Fixpoint Py_GetNativeStackFrame_loop (remaining : nat) (current_index : index_t)
    (generation : N) (pylist : list PyObject) (r : RecordReader)
  : result (option (list PyObject)) :=
  if (current_index =? 0)%N then Ret (Some pylist)
  else
    match remaining with
    | O => Ret (Some pylist)
    | S remaining' =>
        match d_native_frames r !! N.to_nat (current_index - 1) with
        | None => Undefined
        | Some frame =>
            match resolve (d_symbol_resolver r) (ip frame) generation with
            | None =>
                Py_GetNativeStackFrame_loop remaining' (index frame)
                  generation pylist r
            | Some resolved_frames =>
                match append_native_frames resolved_frames pylist with
                | None => Ret None
                | Some pylist' =>
                    Py_GetNativeStackFrame_loop remaining' (index frame)
                      generation pylist' r
                end
            end
        end
    end.

Definition Py_GetNativeStackFrame (index : index_t) (generation : N)
    (max_stacks : nat) (r : RecordReader) : result (option (list PyObject)) :=
  Py_GetNativeStackFrame_loop max_stacks index generation [] r.

End NativeStackFrames.

(** ** _pensieve.pyx: FileReader.get_allocation_records *)

(** Where [get_allocation_records] is suspended: before its first
    statement, or at its [yield], holding the reader it made and the
    [native_allocation] it passes to [nextAllocationRecord]. *)
Inductive allocation_records_state :=
| ar_created
| ar_at_yield (reader : RecordReader) (native_allocation : Allocation).

Section GetAllocationRecords.
Context `{WireLayout} {env : Environment}.
Variable ndebug : bool.

(** [Allocation::toPythonObject] of records.cpp, outside the two files
    embedded here; it is taken to succeed. *)
Variable Allocation_toPythonObject : Allocation -> AllocationTuple.

(** The test of the [while] loop and what follows it: a [yield] in the
    body, [reader_ptr.close()] after the loop.  The reader comes with the
    answer: the records yielded share it. *)
Definition allocation_records_step (native_allocation : Allocation)
    (reader : RecordReader)
  : bounded (resumed AllocationTuple allocation_records_state * RecordReader) :=
  let+ '(more, native_allocation', reader') :=
    nextAllocationRecord ndebug native_allocation reader in
  if more : bool then
    Some (Ret (Yield (Allocation_toPythonObject native_allocation')
                 (ar_at_yield reader' native_allocation'),
               reader'))
  else Some (Ret (Exhausted, RecordReader_close reader')).

(** Resuming [get_allocation_records]; [file] is what [FileSource(self._path)]
    opens. *)
Definition get_allocation_records (header0 : HeaderRecord) (file : Source)
    (st : allocation_records_state)
  : bounded (resumed AllocationTuple allocation_records_state * RecordReader) :=
  match st with
  | ar_created =>
      let+ reader := Some (RecordReader_new header0 file) in
      allocation_records_step Allocation_zero reader
  | ar_at_yield reader native_allocation =>
      allocation_records_step native_allocation reader
  end.

(** The generator resumed until it is exhausted, at most [fuel] times:
    what it yielded after [yielded], and the reader it leaves. *)
Fixpoint allocation_records_all (fuel : nat) (header0 : HeaderRecord)
    (file : Source) (st : allocation_records_state)
    (yielded : list AllocationTuple)
  : bounded (list AllocationTuple * RecordReader) :=
  match fuel with
  | O => None
  | S fuel' =>
      let+ '(step, reader) := get_allocation_records header0 file st in
      match step with
      | Yield elem st' =>
          allocation_records_all fuel' header0 file st' (yielded ++ [elem])
      | Exhausted => Some (Ret (yielded, reader))
      end
  end.

End GetAllocationRecords.

(** ** _pensieve.pyx: Tracker *)

(** The exceptions [Tracker] raises. *)
Inductive tracker_error :=
| RuntimeError (msg : string)
| Tracker_TypeError (msg : string).

Section Tracker.
(** [RecordWriter] and the native [Tracker] of tracking_api, and what
    [sys.getprofile()] and [threading._profile_hook] hold, [None]
    included. *)
Context {RecordWriter NativeTracker ProfileFunc : Type}.

(** The profile hooks of the interpreter. *)
Record hooks := {
  sys_profile : ProfileFunc;
  threading_profile_hook : ProfileFunc
}.

(** The module's [_TRACKER] and the hooks. *)
Record process := {
  _TRACKER : option NativeTracker;
  process_hooks : hooks
}.

(** [sys.setprofile(f)] and [threading.setprofile(f)] *)
Definition sys_setprofile (f : ProfileFunc) (h : hooks) : hooks :=
  {| sys_profile := f; threading_profile_hook := threading_profile_hook h |}.

Definition threading_setprofile (f : ProfileFunc) (h : hooks) : hooks :=
  {| sys_profile := sys_profile h; threading_profile_hook := f |}.

(** [start_thread_trace] as a profile function; [new NativeTracker(writer,
    native_traces)], taken to succeed, and what it and the destructor do to
    the hooks: all defined outside the two files embedded here. *)
Variable start_thread_trace : ProfileFunc.
Variable NativeTracker_new : RecordWriter -> bool -> NativeTracker.
Variable NativeTracker_created : NativeTracker -> hooks -> hooks.
Variable NativeTracker_deleted : NativeTracker -> hooks -> hooks.

Record Tracker := {
  _native_traces : bool;
  _previous_profile_func : ProfileFunc;
  _previous_thread_profile_func : ProfileFunc;
  _writer : option RecordWriter
}.

(** What [destination] can be: one of the two classes of [_destination],
    or anything else. *)
Inductive destination :=
| FileDestination (path : string)
| SocketDestination (host : string) (port : N)
| other_destination.

(** [FileSink], [SocketSink] and [RecordWriter] are made outside the two
    files embedded here; making them is taken to succeed.  [py_None] is
    what a profile-function attribute holds before it is assigned, and
    [command_line] is [" ".join(sys.argv)]. *)
Context {Sink : Type}.
Variable FileSink : string -> Sink.
Variable SocketSink : string -> N -> Sink.
Variable RecordWriter_new : Sink -> string -> bool -> RecordWriter.
Variable py_None : ProfileFunc.
Variable command_line : string.

(** [Tracker._make_writer] *)
Definition _make_writer (d : destination) : tracker_error + Sink :=
  match d with
  | FileDestination path => inr (FileSink path)
  | SocketDestination host port => inr (SocketSink host port)
  | other_destination =>
      inl (Tracker_TypeError
             "destination must be a SocketDestination or FileDestination")
  end.

(** [Tracker.__cinit__]: with [file_name] given, [destination] becomes a
    [FileDestination] for it. *)
Definition Tracker__cinit__ (file_name : option string)
    (dest : option destination) (native_traces : bool)
  : tracker_error + Tracker :=
  let with_writer (d : destination) : tracker_error + Tracker :=
    match _make_writer d with
    | inl e => inl e
    | inr sink =>
        inr {| _native_traces := native_traces;
               _previous_profile_func := py_None;
               _previous_thread_profile_func := py_None;
               _writer := Some (RecordWriter_new sink command_line native_traces) |}
    end in
  match file_name, dest with
  | Some path, None => with_writer (FileDestination path)
  | None, Some d => with_writer d
  | None, None | Some _, Some _ =>
      inl (Tracker_TypeError
             "Exactly one of 'file_name' or 'destination' argument must be specified")
  end.

(** [Tracker.__enter__] *)
Definition Tracker__enter__ (self : Tracker) (p : process)
  : tracker_error + Tracker * process :=
  match _TRACKER p with
  | Some _ =>
      inl (RuntimeError
             "No more than one Tracker instance can be active at the same time")
  | None =>
      match _writer self with
      | None => inl (RuntimeError "Attempting to use stale output handle")
      | Some writer =>
          let self1 :=
            {| _native_traces := _native_traces self;
               _previous_profile_func := sys_profile (process_hooks p);
               _previous_thread_profile_func :=
                 threading_profile_hook (process_hooks p);
               _writer := None |} in
          let hooks1 := threading_setprofile start_thread_trace (process_hooks p) in
          let tracker := NativeTracker_new writer (_native_traces self) in
          inr (self1,
               {| _TRACKER := Some tracker;
                  process_hooks := NativeTracker_created tracker hooks1 |})
      end
  end.

(** [Tracker.__exit__] *)
Definition Tracker__exit__ (self : Tracker) (p : process) : process :=
  let hooks1 :=
    match _TRACKER p with
    | Some tracker => NativeTracker_deleted tracker (process_hooks p)
    | None => process_hooks p
    end in
  let hooks2 := sys_setprofile (_previous_profile_func self) hooks1 in
  let hooks3 := threading_setprofile (_previous_thread_profile_func self) hooks2 in
  {| _TRACKER := None; process_hooks := hooks3 |}.

End Tracker.

(** ** _pensieve.pyx: SocketReader *)

Section SocketReader.
Context `{WireLayout} {env : Environment}.

(** The members of [SocketReader]: [_impl] is kept as whether the pointer
    is set, [socket_reader] and [socket_header] are its [_reader] and
    [_header], the latter [None] for the empty dict of [__init__]. *)
Record SocketReader := {
  _impl : bool;
  socket_reader : option RecordReader;
  socket_header : option HeaderRecord
}.

(** [SocketReader.__init__] after [__cinit__] *)
Definition SocketReader__init__ : SocketReader :=
  {| _impl := false; socket_reader := None; socket_header := None |}.

(** [SocketReader.__enter__]; [source] is what [_make_source] connects
    to. *)
Definition SocketReader__enter__ (header0 : HeaderRecord) (source : Source)
    (self : SocketReader) : result SocketReader :=
  if _impl self then
    Throw (ValueError
      "Can not enter the context of a SocketReader object more than once, at the same time.")
  else
    let* reader := RecordReader_new header0 source in
    Ret {| _impl := true; socket_reader := Some reader;
           socket_header := Some (getHeader reader) |}.

(** [SocketReader.__exit__]; the [assert] is Python's. *)
Definition SocketReader__exit__ (self : SocketReader) : result SocketReader :=
  if negb (_impl self) then Throw (AssertionError "")
  else
    match socket_reader self with
    | None => Undefined
    | Some reader =>
        Ret {| _impl := false;
               socket_reader := Some (RecordReader_close reader);
               socket_header := socket_header self |}
    end.

(** [SocketReader.command_line] and [SocketReader.pid] *)
Definition SocketReader_command_line (self : SocketReader) : option string :=
  match socket_header self with
  | None => None
  | Some header => Some (command_line header)
  end.

Definition SocketReader_pid (self : SocketReader) : option Z :=
  match socket_header self with
  | None => None
  | Some header => Some (pid header)
  end.

(** [SocketReader.get_current_snapshot] when it is first resumed, up to
    the snapshot it iterates over; [snapshot] is what
    [self._impl.Py_GetSnapshotAllocationRecords(merge_threads)] gives. *)
Definition get_current_snapshot (snapshot : bool -> list AllocationTuple)
    (self : SocketReader) (merge_threads : bool)
  : result (list AllocationTuple) :=
  if negb (_impl self) then Throw (ValueError "No active thread to get snapshot from.")
  else Ret (snapshot merge_threads).

End SocketReader.

(** ** Notions the further properties are stated with *)

(** A read takes bytes off the front of the source; it never opens the
    source, and it leaves the source as open as it was unless the source
    is closed from outside. *)
Definition consuming {env : Environment} {A} (p : parser A) : Prop :=
  forall s o s', p s = (o, s') ->
    src_data s' `suffix_of` src_data s /\
    (src_open s' = true -> src_open s = true) /\
    (closed_from_outside = false -> src_open s' = src_open s).

(** [r'] is [r] further along its source: the header is the same, what is
    left to read is the end of what was left, the source has not been
    opened, and it is as open as it was unless it is closed from
    outside. *)
Definition further {env : Environment} (r r' : RecordReader) : Prop :=
  d_header r' = d_header r /\
  src_data (d_input r') `suffix_of` src_data (d_input r) /\
  (src_open (d_input r') = true -> src_open (d_input r) = true) /\
  (closed_from_outside = false ->
   src_open (d_input r') = src_open (d_input r)).

(** The unresolved frames [Py_GetNativeStackFrame] visits from [index]:
    each is found one below the index the one before it gives. *)
Fixpoint native_chain (frames : list UnresolvedNativeFrame) (n : nat)
    (from : index_t) : list UnresolvedNativeFrame :=
  match n with
  | O => []
  | S n' =>
      if (from =? 0)%N then []
      else match frames !! N.to_nat (from - 1) with
           | Some frame => frame :: native_chain frames n' (index frame)
           | None => []
           end
  end.

(** What one unresolved frame contributes to a native trace: nothing when
    the resolver does not know its address, else the Python objects of the
    frames it resolves to, in order. *)
Definition contributes {NativeFrame PyObject : Type}
    (resolve : SymbolResolver -> N -> N -> option (list NativeFrame))
    (native_toPythonObject : NativeFrame -> option PyObject)
    (r : RecordReader) (generation : N)
    (frame : UnresolvedNativeFrame) (group : list PyObject) : Prop :=
  match resolve (d_symbol_resolver r) (ip frame) generation with
  | None => group = []
  | Some resolved =>
      Forall2 (fun native_frame obj => native_toPythonObject native_frame = Some obj)
        resolved group
  end.

(** [r'] still has every frame and every native frame of [r], under the
    same ids. *)
Definition keeps (r r' : RecordReader) : Prop :=
  d_frame_map r ⊆ d_frame_map r' /\
  d_native_frames r `prefix_of` d_native_frames r'.

(** What a turn of the loop leaves, by the way it ends. *)
Definition turn_ok {env : Environment} (a : Allocation) (r : RecordReader)
    (it : iteration) : Prop :=
  match it with
  | Continue r' => further r r' /\ keeps r r' /\ d_log r' = d_log r
  | Return true a' r' =>
      further r r' /\ keeps r r' /\ d_log r' = d_log r /\
      src_open (d_input r') = true /\
      native_segment_generation a' =
        currentSegmentGeneration (d_symbol_resolver r')
  | Return false a' r' =>
      further r r' /\ keeps r r' /\ a' = a /\
      (d_log r' = d_log r \/
       isOpen r = true /\ exists msg, d_log r' = d_log r ++ [msg])
  end.


(** A reader with frames 2 and 4 on the stack of thread 7, ahead of
    [bytes]. *)
Definition sample_stack_reader (bytes : list byte) : RecordReader :=
  set_stack_traces (<[7%N := [2%N; 4%N]]> ∅)
    (set_frame_map (<[2%N := frame_outer]> (<[4%N := frame_middle]> ∅))
       (sample_reader bytes)).

(** A resolver that knows every address but 0, and gives two frames, the
    inlined one first, for the addresses above 100. *)
Definition sample_resolve (_ : SymbolResolver) (ip generation : N)
  : option (list (N * N)) :=
  if (ip =? 0)%N then None
  else if (100 <? ip)%N then Some [(ip, generation); (ip - 100, generation)%N]
  else Some [(ip, generation)].

(** A reader with three native frames: 3 called from 2 called from 1. *)
Definition sample_native_reader : RecordReader :=
  set_native_frames
    [ {| ip := 11%N; index := 0%N |};
      {| ip := 0%N; index := 1%N |};
      {| ip := 133%N; index := 2%N |} ]
    (sample_reader []).

(** The allocation [nextAllocationRecord] delivers for an ALLOCATION
    record with payload [payload] on a thread without Python frames, while
    the resolver is at [generation]. *)
Definition plain_allocation `{WireLayout} (generation : N) (payload : list byte)
  : Allocation :=
  {| record := decode AllocationRecord_codec payload;
     frame_index := 0%N;
     native_segment_generation := generation |}.
(** * Properties *)

(** ** Reading from a source *)

Lemma bytes_eqb_refl (l : list byte) : bytes_eqb l l = true.
Proof.
  induction l as [|b l IH]; simpl; [reflexivity|].
  rewrite IH, andb_true_r. now apply byte_dec_lb.
Qed.

Section ReadFacts.
Context {env : Environment}.

Lemma Source_read_app (s : Source) (a b : list byte) :
  src_open s = true -> src_data s = a ++ b ->
  Source_read (length a) s = (Some a, {| src_data := b; src_open := true |}).
Proof.
  intros Hopen Hdata. unfold Source_read. rewrite Hopen, Hdata. simpl.
  rewrite length_app.
  destruct (Nat.leb_spec (length a) (length a + length b)) as [_|Hlt]; [|lia].
  now rewrite take_app_length, drop_app_length.
Qed.

Lemma read_obj_app {A} (c : codec A) (s : Source) (a b : list byte) :
  src_open s = true -> src_data s = a ++ b -> length a = sizeof c ->
  read_obj c s = (Some (decode c a), {| src_data := b; src_open := true |}).
Proof.
  intros Hopen Hdata Hlen. unfold read_obj, pbind. rewrite <- Hlen.
  now rewrite (Source_read_app s a b Hopen Hdata).
Qed.

Lemma steady_pret {A} (a : A) : steady (pret a).
Proof. intros s o s' [= <- <-]. split; [lia | auto]. Qed.

Lemma steady_pbind {A B} (p : parser A) (k : A -> parser B) :
  steady p -> (forall a, steady (k a)) -> steady (pbind p k).
Proof.
  intros Hp Hk s o s'. unfold pbind.
  destruct (p s) as [[a|] s1] eqn:E; intros Hq.
  - destruct (Hp _ _ _ E) as [H1 H2]. destruct (Hk a _ _ _ Hq) as [H3 H4].
    split; [lia | auto].
  - injection Hq as <- <-. exact (Hp _ _ _ E).
Qed.

Lemma Source_dry_data (s : Source) : src_data (Source_dry s) = src_data s.
Proof. unfold Source_dry. now destruct closed_from_outside. Qed.

Lemma Source_dry_open (s : Source) :
  src_open s = true -> src_open (Source_dry s) = negb closed_from_outside.
Proof. unfold Source_dry. now destruct closed_from_outside. Qed.

Lemma Source_dry_same (s : Source) :
  closed_from_outside = false -> Source_dry s = s.
Proof. unfold Source_dry. now intros ->. Qed.

(** What a read leaves: after a value, an open source past the bytes of
    the value; after a failure, the same bytes, in the source as it was
    unless it was open and has been closed from outside. *)
Lemma Source_read_inv (n : nat) (s s' : Source) (o : option (list byte)) :
  Source_read n s = (o, s') ->
  (src_open s' = true -> src_open s = true) /\
  match o with
  | Some buf =>
      src_open s = true /\ src_open s' = true /\
      src_data s = buf ++ src_data s' /\ length buf = n
  | None =>
      src_data s' = src_data s /\
      (src_open s = false \/ closed_from_outside = false -> s' = s) /\
      (src_open s = true -> s' = Source_dry s /\ (length (src_data s) < n)%nat)
  end.
Proof.
  unfold Source_read.
  destruct (src_open s) eqn:Hopen; simpl.
  - destruct (Nat.leb_spec n (length (src_data s))) as [Hle|Hlt].
    + intros [= <- <-]. simpl. repeat split; auto.
      * now rewrite take_drop.
      * rewrite length_take. lia.
    + intros [= <- <-]. split; [auto|]. split; [apply Source_dry_data|].
      split; [|auto]. intros [Hc|Hc]; [discriminate | now apply Source_dry_same].
  - intros [= <- <-]. split; [congruence|]. split; [reflexivity|].
    split; [reflexivity | discriminate].
Qed.

Lemma steady_Source_read (n : nat) : steady (Source_read n).
Proof.
  intros s o s' E. destruct (Source_read_inv _ _ _ _ E) as [Hopen Ho].
  split; [|exact Hopen]. destruct o as [buf|].
  - destruct Ho as (_ & _ & -> & _). rewrite length_app. lia.
  - destruct Ho as (-> & _). lia.
Qed.

Lemma split_at_sep_length (sep : byte) (l line rest : list byte) :
  split_at_sep sep l = Some (line, rest) -> (length rest < length l)%nat.
Proof.
  revert line rest. induction l as [|b l IH]; simpl; intros line rest; [discriminate|].
  destruct (Byte.eqb b sep).
  - intros [= <- <-]. lia.
  - destruct (split_at_sep sep l) as [[line' rest']|]; [|discriminate].
    intros [= <- <-]. specialize (IH _ _ eq_refl). lia.
Qed.

Lemma steady_Source_getline (sep : byte) : steady (Source_getline sep).
Proof.
  intros s o s'. unfold Source_getline.
  destruct (src_open s) eqn:Hopen.
  - destruct (split_at_sep sep (src_data s)) as [[line rest]|] eqn:E.
    + intros [= <- <-]. simpl. apply split_at_sep_length in E. split; [lia|auto].
    + intros [= <- <-]. rewrite Source_dry_data. split; [lia|auto].
  - intros [= <- <-]. split; [lia|congruence].
Qed.

Lemma steady_read_obj {A} (c : codec A) : steady (read_obj c).
Proof.
  unfold read_obj. apply steady_pbind; [apply steady_Source_read|].
  intros buf. apply steady_pret.
Qed.

Lemma read_obj_inv {A} (c : codec A) (s s' : Source) (o : option A) :
  read_obj c s = (o, s') ->
  (src_open s' = true -> src_open s = true) /\
  match o with
  | Some a =>
      exists buf, a = decode c buf /\ src_open s = true /\ src_open s' = true /\
        src_data s = buf ++ src_data s' /\ length buf = sizeof c
  | None =>
      src_data s' = src_data s /\
      (src_open s = false \/ closed_from_outside = false -> s' = s) /\
      (src_open s = true ->
       s' = Source_dry s /\ (length (src_data s) < sizeof c)%nat)
  end.
Proof.
  unfold read_obj, pbind, pret.
  destruct (Source_read (sizeof c) s) as [[buf|] s1] eqn:E;
    intros [= <- <-]; destruct (Source_read_inv _ _ _ _ E) as [Hopen Ho];
    split; auto.
  destruct Ho as (H1 & H2 & H3 & H4). eauto 10.
Qed.

Lemma read_obj_short {A} (c : codec A) (s : Source) :
  src_open s = true -> short_of c (src_data s) = true ->
  read_obj c s = (None, Source_dry s).
Proof.
  intros Hopen Hshort. unfold short_of in Hshort. apply Nat.ltb_lt in Hshort.
  unfold read_obj, pbind, Source_read. rewrite Hopen.
  destruct (Nat.leb_spec (sizeof c) (length (src_data s))); [lia | reflexivity].
Qed.

Lemma read_obj_enough {A} (c : codec A) (s : Source) :
  src_open s = true -> short_of c (src_data s) = false ->
  read_obj c s =
    (Some (decode c (take (sizeof c) (src_data s))),
     {| src_data := drop (sizeof c) (src_data s); src_open := true |}).
Proof.
  intros Hopen Hshort. unfold short_of in Hshort. apply Nat.ltb_ge in Hshort.
  unfold read_obj, pbind, pret, Source_read. rewrite Hopen.
  destruct (Nat.leb_spec (sizeof c) (length (src_data s))); [reflexivity | lia].
Qed.

Lemma Source_getline_split (s : Source) :
  src_open s = true ->
  Source_getline x00 s =
    match split_at_sep x00 (src_data s) with
    | Some (line, rest) =>
        (Some (string_of_list_byte line), {| src_data := rest; src_open := true |})
    | None => (None, Source_dry s)
    end.
Proof. intros Hopen. unfold Source_getline. now rewrite Hopen. Qed.

End ReadFacts.

(** ** The header *)

Section HeaderFacts.
Context `{WireLayout} {env : Environment}.

(** C1.  Constructing a reader over a stream that carries the magic bytes
    and then a version other than the current one fails with an
    [ios_base::failure]: [readHeader], called from the constructor, throws,
    whatever follows the version field, and no reader comes into being. *)
Theorem RecordReader_new_version_mismatch
    (header0 : HeaderRecord) (source : Source) (vbytes rest : list byte) :
  src_open source = true ->
  src_data source = MAGIC ++ vbytes ++ rest ->
  length vbytes = sizeof version_codec ->
  decode version_codec vbytes <> CURRENT_HEADER_VERSION ->
  readHeader header0 source =
    Throw (ios_failure
      "The provided input file is incompatible with this version of pensieve.")
  /\ RecordReader_new header0 source =
    Throw (ios_failure
      "The provided input file is incompatible with this version of pensieve.").
Proof.
  intros Hopen Hdata Hlen Hver.
  assert (Hread : readHeader header0 source =
    Throw (ios_failure
      "The provided input file is incompatible with this version of pensieve.")).
  { unfold readHeader.
    rewrite (Source_read_app source MAGIC (vbytes ++ rest) Hopen Hdata).
    simpl. rewrite bytes_eqb_refl. simpl.
    rewrite (read_obj_app version_codec
               {| src_data := vbytes ++ rest; src_open := true |}
               vbytes rest eq_refl eq_refl Hlen).
    simpl.
    destruct (Z.eqb_spec (decode version_codec vbytes) CURRENT_HEADER_VERSION)
      as [Heq|Hne]; [contradiction|reflexivity]. }
  split; [exact Hread|].
  unfold RecordReader_new. now rewrite Hread.
Qed.

End HeaderFacts.

Lemma RecordReader_new_version_mismatch_witness :
  RecordReader_new (H := sample_layout) (env := sample_env) HeaderRecord_zero
    (sample_source (sample_header 2)) =
  Throw (ios_failure
    "The provided input file is incompatible with this version of pensieve.").
Proof.
  refine (proj2 (RecordReader_new_version_mismatch (H := sample_layout) (env := sample_env)
            HeaderRecord_zero (sample_source (sample_header 2))
            (Z_le 2 2) (drop 10 (sample_header 2)) _ _ _ _)).
  - reflexivity.
  - reflexivity.
  - reflexivity.
  - vm_compute. discriminate.
Defined.

(** ** The decode loop *)

Ltac steady :=
  repeat first
    [ apply steady_pret | apply steady_Source_read | apply steady_Source_getline
    | apply steady_read_obj | (apply steady_pbind; [|intros ?]) ].

Lemma quiet_refl (r : RecordReader) : quiet r r.
Proof. repeat split; auto; lia. Qed.

Lemma quiet_trans (r1 r2 r3 : RecordReader) : quiet r1 r2 -> quiet r2 r3 -> quiet r1 r3.
Proof. intros (A & B & C) (D & E & F). repeat split; [congruence | auto | lia]. Qed.

Lemma quiet_steady {A} (p : parser A) (r r' : RecordReader) (o : option A) (input : Source) :
  steady p -> p (d_input r) = (o, input) ->
  d_log r' = d_log r -> d_input r' = input -> quiet r r'.
Proof.
  intros Hp E Hlog Hin. destruct (Hp _ _ _ E) as [H1 H2].
  subst input. repeat split; auto.
Qed.

Lemma set_input_same (r : RecordReader) : set_input (d_input r) r = r.
Proof. now destruct r. Qed.

Section ReaderFacts.
Context `{WireLayout} {env : Environment}.
Variable ndebug : bool.

Lemma parseFramePush_quiet (r r' : RecordReader) (b : bool) :
  parseFramePush r = Ret (b, r') -> quiet r r'.
Proof.
  unfold parseFramePush.
  destruct (read_obj FramePush_codec (d_input r)) as [[rec|] input] eqn:E;
    intros [= <- <-]; eapply quiet_steady; eauto; steady.
Qed.

Lemma parseFramePop_quiet (r r' : RecordReader) (b : bool) :
  parseFramePop ndebug r = Ret (b, r') -> quiet r r'.
Proof.
  unfold parseFramePop.
  destruct (read_obj FramePop_codec (d_input r)) as [[rec|] input] eqn:E.
  - destruct (c_assert _ _); simpl; try discriminate.
    destruct (pop_back_n _ _ _); simpl; try discriminate.
    intros [= <- <-]; eapply quiet_steady; eauto; steady.
  - intros [= <- <-]; eapply quiet_steady; eauto; steady.
Qed.

Lemma parseFrameIndex_quiet (r r' : RecordReader) (b : bool) :
  parseFrameIndex r = Ret (b, r') -> quiet r r'.
Proof.
  unfold parseFrameIndex.
  match goal with |- context [pbind ?p ?k (d_input r)] =>
    destruct (pbind p k (d_input r)) as [[[id frame]|] input] eqn:E end.
  - destruct (d_frame_map r !! id); [discriminate|].
    intros [= <- <-]; eapply quiet_steady; eauto; steady.
  - intros [= <- <-]; eapply quiet_steady; eauto; steady.
Qed.

Lemma parseNativeFrameIndex_quiet (r r' : RecordReader) (b : bool) :
  parseNativeFrameIndex r = Ret (b, r') -> quiet r r'.
Proof.
  unfold parseNativeFrameIndex.
  destruct (read_obj UnresolvedNativeFrame_codec (d_input r)) as [[rec|] input] eqn:E;
    intros [= <- <-]; eapply quiet_steady; eauto; steady.
Qed.

Lemma parseAllocationRecord_quiet (r r' : RecordReader) (b : bool)
    (rec rec' : AllocationRecord) :
  parseAllocationRecord rec r = (b, rec', r') -> quiet r r'.
Proof.
  unfold parseAllocationRecord.
  destruct (read_obj AllocationRecord_codec (d_input r)) as [[x|] input] eqn:E;
    intros [= <- <- <-]; eapply quiet_steady; eauto; steady.
Qed.

Lemma parseSegment_quiet (r r' : RecordReader) (b : bool) (seg seg' : Segment) :
  parseSegment ndebug seg r = Ret (b, seg', r') -> quiet r r'.
Proof.
  unfold parseSegment.
  destruct (read_obj RecordType_codec (d_input r)) as [[ty|] input] eqn:E.
  - destruct (c_assert _ _); simpl; try discriminate.
    destruct (read_obj Segment_codec input) as [[x|] input'] eqn:E';
      intros [= <- <- <-];
      (eapply (quiet_steady (let? _ := read_obj RecordType_codec in read_obj Segment_codec));
       [steady | unfold pbind; rewrite E; exact E' | reflexivity | reflexivity]).
  - intros [= <- <- <-]; eapply quiet_steady; eauto; steady.
Qed.

Lemma parseSegments_quiet (n : nat) (segs : list Segment) (r r' : RecordReader)
    (o : option (list Segment)) :
  parseSegments ndebug n segs r = Ret (o, r') -> quiet r r'.
Proof.
  revert segs r. induction n as [|n IH]; simpl; intros segs r.
  - intros [= <- <-]. apply quiet_refl.
  - destruct (parseSegment ndebug Segment_zero r) as [[[ok seg] r1]| | |] eqn:E;
      simpl; try discriminate.
    apply parseSegment_quiet in E. destruct ok.
    + intros E2. apply IH in E2. eapply quiet_trans; eauto.
    + intros [= <- <-]. exact E.
Qed.

Lemma parseSegmentHeader_quiet (r r' : RecordReader) (b : bool) :
  parseSegmentHeader ndebug r = Ret (b, r') -> quiet r r'.
Proof.
  unfold parseSegmentHeader.
  match goal with |- context [pbind ?p ?k (d_input r)] =>
    destruct (pbind p k (d_input r)) as [[[[fn num] addr]|] input] eqn:E end.
  - destruct (Segment_vector_new num); [discriminate|].
    destruct (parseSegments _ _ _ _) as [[o r1]| | |] eqn:E2; simpl; try discriminate.
    apply parseSegments_quiet in E2.
    assert (Q : quiet r (set_input input r))
      by (eapply quiet_steady; eauto; steady).
    destruct o; intros [= <- <-]; eapply quiet_trans; eauto;
      eapply quiet_trans; eauto; repeat split; simpl; auto; lia.
  - intros [= <- <-]; eapply quiet_steady; eauto; steady.
Qed.

Lemma parseThreadRecord_quiet (r r' : RecordReader) (b : bool) :
  parseThreadRecord r = Ret (b, r') -> quiet r r'.
Proof.
  unfold parseThreadRecord.
  match goal with |- context [pbind ?p ?k (d_input r)] =>
    destruct (pbind p k (d_input r)) as [[[t name]|] input] eqn:E end;
    intros [= <- <-]; eapply quiet_steady; eauto; steady.
Qed.

Lemma correctAllocationFrame_quiet (stack stack' : list frame_id_t) (l : Z)
    (r r' : RecordReader) :
  correctAllocationFrame stack l r = Ret (stack', r') -> quiet r r'.
Proof.
  unfold correctAllocationFrame.
  destruct (last stack); [|intros [= <- <-]; apply quiet_refl].
  destruct (d_frame_map r !! f); [|discriminate].
  destruct (getIndex _ _) as [[i new] frames].
  destruct new; intros [= <- <-]; repeat split; simpl; auto; lia.
Qed.

Lemma getAllocationFrameIndex_quiet (rec : AllocationRecord) (r r' : RecordReader) (i : N) :
  getAllocationFrameIndex rec r = Ret (i, r') -> quiet r r'.
Proof.
  unfold getAllocationFrameIndex.
  destruct (d_stack_traces r !! tid rec); [|intros [= <- <-]; apply quiet_refl].
  destruct (correctAllocationFrame _ _ _) as [[stack' r1]| | |] eqn:E; simpl;
    try discriminate.
  apply correctAllocationFrame_quiet in E.
  destruct (getTraceIndex _ _) as [idx tree].
  intros [= <- <-]. eapply quiet_trans; eauto. repeat split; simpl; auto; lia.
Qed.

Lemma or_fail_Continue (msg : string) (a : Allocation)
    (parsed : result (bool * RecordReader)) (r' : RecordReader) :
  or_fail msg a parsed = Ret (Continue r') -> parsed = Ret (true, r').
Proof.
  unfold or_fail. destruct parsed as [[ok r1]| | |]; simpl; try discriminate.
  destruct ok; [|discriminate]. now intros [= <-].
Qed.

Lemma or_fail_false (msg : string) (a : Allocation)
    (parsed : result (bool * RecordReader)) (r1 : RecordReader) :
  parsed = Ret (false, r1) ->
  or_fail msg a parsed = Ret (Return false a (log_error_if_open msg r1)).
Proof. intros ->. reflexivity. Qed.

(** A turn that goes round again has logged nothing and has consumed the
    type tag at least. *)
Lemma body_Continue (a : Allocation) (r r' : RecordReader) :
  nextAllocationRecord_body ndebug a r = Ret (Continue r') ->
  d_log r' = d_log r /\
  (src_open (d_input r') = true -> src_open (d_input r) = true) /\
  (length (src_data (d_input r')) < length (src_data (d_input r)))%nat.
Proof.
  unfold nextAllocationRecord_body.
  destruct (read_obj RecordType_codec (d_input r)) as [[ty|] input] eqn:E;
    [|discriminate].
  destruct (read_obj_inv _ _ _ _ E) as (Hopen & buf & _ & Ho & _ & Hdata & Hlen).
  pose proof RecordType_sizeof_pos as Hpos.
  assert (Hlt : (length (src_data input) < length (src_data (d_input r)))%nat)
    by (rewrite Hdata, length_app; lia).
  assert (Hfin : forall r1, quiet (set_input input r) r1 ->
            d_log r1 = d_log r /\
            (src_open (d_input r1) = true -> src_open (d_input r) = true) /\
            (length (src_data (d_input r1)) < length (src_data (d_input r)))%nat).
  { intros r1 (Q1 & Q2 & Q3). simpl in *. repeat split; auto; lia. }
  destruct ty; intros Hbody.
  - destruct (parseAllocationRecord _ _) as [[ok rec] r1]; destruct ok;
      simpl in Hbody; [|discriminate].
    destruct (getAllocationFrameIndex _ _) as [[i r2]| | |]; discriminate.
  - apply or_fail_Continue, parseFrameIndex_quiet in Hbody. auto.
  - apply or_fail_Continue, parseFramePush_quiet in Hbody. auto.
  - apply or_fail_Continue, parseFramePop_quiet in Hbody. auto.
  - apply or_fail_Continue, parseNativeFrameIndex_quiet in Hbody. auto.
  - injection Hbody as <-. apply Hfin. repeat split; simpl; auto; lia.
  - apply or_fail_Continue, parseSegmentHeader_quiet in Hbody. auto.
  - discriminate.
  - apply or_fail_Continue, parseThreadRecord_quiet in Hbody. auto.
  - discriminate.
Qed.

Lemma loop_more_fuel (fuel fuel' : nat) (a : Allocation) (r : RecordReader)
    (x : result (bool * Allocation * RecordReader)) :
  nextAllocationRecord_loop ndebug fuel a r = Some x -> (fuel <= fuel')%nat ->
  nextAllocationRecord_loop ndebug fuel' a r = Some x.
Proof.
  revert fuel' r. induction fuel as [|fuel IH]; intros fuel' r; [discriminate|].
  intros Hloop Hle. destruct fuel' as [|fuel']; [lia|].
  simpl in *. destruct (nextAllocationRecord_body ndebug a r) as [[r1|ret a' r1]| | |];
    auto. apply IH; [assumption|lia].
Qed.

Lemma loop_enough_fuel (fuel : nat) (a : Allocation) (r : RecordReader) :
  (length (src_data (d_input r)) < fuel)%nat ->
  exists x, nextAllocationRecord_loop ndebug fuel a r = Some x.
Proof.
  revert r. induction fuel as [|fuel IH]; intros r Hlt; [lia|].
  simpl. destruct (nextAllocationRecord_body ndebug a r) as [[r1|ret a' r1]| | |] eqn:E;
    eauto.
  apply IH. apply body_Continue in E. lia.
Qed.

(** [nextAllocationRecord] returns: the bound on the turns of its loop is
    never reached. *)
Lemma nextAllocationRecord_returns (a : Allocation) (r : RecordReader) :
  exists x, nextAllocationRecord ndebug a r = Some x.
Proof. apply loop_enough_fuel. lia. Qed.

(** The loop equation: after a turn that goes round again the function
    does what it does from the state that turn leaves. *)
Lemma nextAllocationRecord_Continue (a : Allocation) (r r' : RecordReader) :
  nextAllocationRecord_body ndebug a r = Ret (Continue r') ->
  nextAllocationRecord ndebug a r = nextAllocationRecord ndebug a r'.
Proof.
  intros E. unfold nextAllocationRecord at 1. simpl. rewrite E.
  destruct (nextAllocationRecord_returns a r') as [x Hx]. rewrite Hx.
  eapply loop_more_fuel; [exact Hx|]. apply body_Continue in E. lia.
Qed.

Lemma nextAllocationRecord_Return (a a' : Allocation) (r r' : RecordReader) (ret : bool) :
  nextAllocationRecord_body ndebug a r = Ret (Return ret a' r') ->
  nextAllocationRecord ndebug a r = Some (Ret (ret, a', r')).
Proof. intros E. unfold nextAllocationRecord. simpl. now rewrite E. Qed.

End ReaderFacts.

Section EndOfStream.
Context `{WireLayout} {env : Environment}.
Variable ndebug : bool.

Lemma turns_log (a : Allocation) (r r1 : RecordReader) :
  turns ndebug a r r1 -> d_log r1 = d_log r.
Proof.
  induction 1 as [|r r1 r2 E _ IH]; [reflexivity|].
  apply body_Continue in E. destruct E as (E & _). congruence.
Qed.

Lemma turns_nextAllocationRecord (a : Allocation) (r r1 : RecordReader) :
  turns ndebug a r r1 ->
  nextAllocationRecord ndebug a r = nextAllocationRecord ndebug a r1.
Proof.
  induction 1 as [|r r1 r2 E _ IH]; [reflexivity|].
  rewrite <- IH. now apply nextAllocationRecord_Continue.
Qed.

(** A read of [p] from [s] finds an open source dry. *)
Lemma read_obj_starves {A} (c : codec A) (s : Source) :
  src_open s = true -> short_of c (src_data s) = true ->
  exists s0, src_open s0 = true /\ read_obj c s = (None, Source_dry s0).
Proof. intros Hopen Hshort. exists s. split; [exact Hopen|]. now apply read_obj_short. Qed.

Lemma log_error_if_dry (msg : string) (r : RecordReader) (s0 : Source) :
  src_open s0 = true -> d_input r = Source_dry s0 ->
  isOpen (log_error_if_open msg r) = negb closed_from_outside /\
  d_log (log_error_if_open msg r) =
    if negb closed_from_outside then d_log r ++ [msg] else d_log r.
Proof.
  intros Hopen Hin. unfold log_error_if_open, isOpen, Source_is_open.
  rewrite Hin, (Source_dry_open s0 Hopen).
  destruct (negb closed_from_outside) eqn:Hc; cbn [d_input d_log set_log];
    now rewrite Hin, (Source_dry_open s0 Hopen).
Qed.

Lemma parseAllocationRecord_cut_short (rec : AllocationRecord) (r : RecordReader) :
  src_open (d_input r) = true ->
  short_of AllocationRecord_codec (src_data (d_input r)) = true ->
  exists r2, parseAllocationRecord rec r = (false, rec, r2) /\ dry r r2.
Proof.
  intros Hopen Hcut. unfold parseAllocationRecord.
  rewrite (read_obj_short _ _ Hopen Hcut).
  eexists. split; [reflexivity|]. split; [reflexivity|]. eauto.
Qed.

Lemma parseFramePush_cut_short (r : RecordReader) :
  src_open (d_input r) = true ->
  short_of FramePush_codec (src_data (d_input r)) = true ->
  exists r2, parseFramePush r = Ret (false, r2) /\ dry r r2.
Proof.
  intros Hopen Hcut. unfold parseFramePush.
  rewrite (read_obj_short _ _ Hopen Hcut).
  eexists. split; [reflexivity|]. split; [reflexivity|]. eauto.
Qed.

Lemma parseFramePop_cut_short (r : RecordReader) :
  src_open (d_input r) = true ->
  short_of FramePop_codec (src_data (d_input r)) = true ->
  exists r2, parseFramePop ndebug r = Ret (false, r2) /\ dry r r2.
Proof.
  intros Hopen Hcut. unfold parseFramePop.
  rewrite (read_obj_short _ _ Hopen Hcut).
  eexists. split; [reflexivity|]. split; [reflexivity|]. eauto.
Qed.

Lemma parseNativeFrameIndex_cut_short (r : RecordReader) :
  src_open (d_input r) = true ->
  short_of UnresolvedNativeFrame_codec (src_data (d_input r)) = true ->
  exists r2, parseNativeFrameIndex r = Ret (false, r2) /\ dry r r2.
Proof.
  intros Hopen Hcut. unfold parseNativeFrameIndex.
  rewrite (read_obj_short _ _ Hopen Hcut).
  eexists. split; [reflexivity|]. split; [reflexivity|]. eauto.
Qed.

Lemma parseFrameIndex_cut_short (r : RecordReader) :
  src_open (d_input r) = true ->
  cut_short ndebug FRAME_INDEX (src_data (d_input r)) = true ->
  exists r2, parseFrameIndex r = Ret (false, r2) /\ dry r r2.
Proof.
  intros Hopen Hcut. cbn [cut_short] in Hcut. unfold parseFrameIndex.
  assert (Hdry : forall input, src_open input = true ->
            exists r2, Ret (false, set_input (Source_dry input) r) = Ret (false, r2) /\
                       dry r r2).
  { intros input Hin. eexists. split; [reflexivity|]. split; [reflexivity|].
    exists input. split; [exact Hin | reflexivity]. }
  unfold pbind at 1.
  destruct (short_of frame_id_codec (src_data (d_input r))) eqn:Hid.
  { rewrite (read_obj_short _ _ Hopen Hid). now apply Hdry. }
  rewrite (read_obj_enough _ _ Hopen Hid). cbn [orb] in Hcut.
  unfold line_then in Hcut. unfold pbind at 1.
  rewrite Source_getline_split by reflexivity. cbn [src_data].
  destruct (split_at_sep x00 (drop _ (src_data (d_input r)))) as [[fn rest1]|];
    [|now apply Hdry].
  unfold pbind at 1. rewrite Source_getline_split by reflexivity. cbn [src_data].
  destruct (split_at_sep x00 rest1) as [[file rest2]|]; [|now apply Hdry].
  unfold pbind at 1.
  rewrite (read_obj_short int_codec {| src_data := rest2; src_open := true |}
             eq_refl Hcut).
  now apply Hdry.
Qed.

Lemma parseThreadRecord_cut_short (r : RecordReader) :
  src_open (d_input r) = true ->
  cut_short ndebug THREAD_RECORD (src_data (d_input r)) = true ->
  exists r2, parseThreadRecord r = Ret (false, r2) /\ dry r r2.
Proof.
  intros Hopen Hcut. cbn [cut_short] in Hcut. unfold parseThreadRecord.
  assert (Hdry : forall input, src_open input = true ->
            exists r2, Ret (false, set_input (Source_dry input) r) = Ret (false, r2) /\
                       dry r r2).
  { intros input Hin. eexists. split; [reflexivity|]. split; [reflexivity|].
    exists input. split; [exact Hin | reflexivity]. }
  unfold pbind at 1.
  destruct (short_of thread_id_codec (src_data (d_input r))) eqn:Htid.
  { rewrite (read_obj_short _ _ Hopen Htid). now apply Hdry. }
  rewrite (read_obj_enough _ _ Hopen Htid). cbn [orb] in Hcut.
  unfold line_then in Hcut. unfold pbind at 1.
  rewrite Source_getline_split by reflexivity. cbn [src_data].
  destruct (split_at_sep x00 (drop _ (src_data (d_input r)))) as [[name rest1]|];
    [discriminate|]. now apply Hdry.
Qed.

Lemma parseSegments_cut_short (n : nat) (segments : list Segment) (r : RecordReader) :
  src_open (d_input r) = true ->
  segments_cut_short ndebug n (src_data (d_input r)) = true ->
  exists r2, parseSegments ndebug n segments r = Ret (None, r2) /\ dry r r2.
Proof.
  revert segments r. induction n as [|n IH]; intros segments r Hopen Hcut;
    [discriminate|].
  cbn [segments_cut_short] in Hcut. cbn [parseSegments]. unfold parseSegment.
  destruct (short_of RecordType_codec (src_data (d_input r))) eqn:Htag.
  { rewrite (read_obj_short _ _ Hopen Htag). cbn [result_bind].
    eexists. split; [reflexivity|]. split; [reflexivity|]. eauto. }
  rewrite (read_obj_enough _ _ Hopen Htag). cbn [orb] in Hcut.
  apply andb_true_iff in Hcut. destruct Hcut as [Hassert Hcut].
  assert (Hc : c_assert ndebug
                 (bool_decide (decode RecordType_codec
                                 (take (sizeof RecordType_codec)
                                    (src_data (d_input r))) = SEGMENT)) = Ret tt).
  { unfold c_assert. destruct ndebug; [reflexivity|]. cbn [orb] in Hassert.
    now rewrite Hassert. }
  rewrite Hc. cbn [result_bind].
  destruct (short_of Segment_codec (drop (sizeof RecordType_codec)
                                      (src_data (d_input r)))) eqn:Hseg.
  { rewrite (read_obj_short Segment_codec {| src_data := _; src_open := true |}
               eq_refl Hseg). cbn [result_bind].
    eexists. split; [reflexivity|]. split; [reflexivity|].
    eexists. split; [|reflexivity]. reflexivity. }
  rewrite (read_obj_enough Segment_codec {| src_data := _; src_open := true |}
             eq_refl Hseg). cbn [result_bind src_data orb] in *.
  destruct (IH (segments ++
                [decode Segment_codec
                   (take (sizeof Segment_codec)
                      (drop (sizeof RecordType_codec) (src_data (d_input r))))])
              (set_input
                 {| src_data := drop (sizeof Segment_codec)
                                  (drop (sizeof RecordType_codec)
                                     (src_data (d_input r)));
                    src_open := true |} r) eq_refl Hcut)
    as (r2 & Hrun & Hlog & Hdry).
  exists r2. split; [exact Hrun|]. split; [exact Hlog | exact Hdry].
Qed.

Lemma parseSegmentHeader_cut_short (r : RecordReader) :
  src_open (d_input r) = true ->
  cut_short ndebug SEGMENT_HEADER (src_data (d_input r)) = true ->
  exists r2, parseSegmentHeader ndebug r = Ret (false, r2) /\ dry r r2.
Proof.
  intros Hopen Hcut. cbn [cut_short] in Hcut. unfold line_then in Hcut.
  unfold parseSegmentHeader.
  assert (Hdry : forall input, src_open input = true ->
            exists r2, Ret (false, set_input (Source_dry input) r) = Ret (false, r2) /\
                       dry r r2).
  { intros input Hin. eexists. split; [reflexivity|]. split; [reflexivity|].
    exists input. split; [exact Hin | reflexivity]. }
  unfold pbind at 1. rewrite (Source_getline_split _ Hopen).
  destruct (split_at_sep x00 (src_data (d_input r))) as [[fn rest]|];
    [|now apply Hdry].
  unfold pbind at 1.
  destruct (short_of size_t_codec rest) eqn:Hnum.
  { rewrite (read_obj_short size_t_codec {| src_data := rest; src_open := true |}
               eq_refl Hnum). now apply Hdry. }
  rewrite (read_obj_enough size_t_codec {| src_data := rest; src_open := true |}
             eq_refl Hnum). cbn [src_data orb] in *.
  unfold pbind at 1.
  destruct (short_of uintptr_t_codec (drop (sizeof size_t_codec) rest)) eqn:Haddr.
  { rewrite (read_obj_short uintptr_t_codec {| src_data := _; src_open := true |}
               eq_refl Haddr). now apply Hdry. }
  rewrite (read_obj_enough uintptr_t_codec {| src_data := _; src_open := true |}
             eq_refl Haddr). cbn [src_data orb pret] in *.
  destruct (Segment_vector_new _); [discriminate|].
  destruct (parseSegments_cut_short _
              (replicate (N.to_nat (decode size_t_codec
                                      (take (sizeof size_t_codec) rest)))
                 Segment_zero)
              (set_input
                 {| src_data := drop (sizeof uintptr_t_codec)
                                  (drop (sizeof size_t_codec) rest);
                    src_open := true |} r) eq_refl Hcut)
    as (r2 & Hrun & Hlog & Hdry2).
  rewrite Hrun. cbn [result_bind].
  exists r2. split; [reflexivity|]. split; [exact Hlog | exact Hdry2].
Qed.

(** C7, amended.  Wherever in the stream the loop of
    [nextAllocationRecord] has got to.  If the read of the tag of the next
    record fails there -- the source is closed, or ends before the tag
    does -- the function returns [false] with the caller's allocation as
    it was and has logged nothing.  If the tag is read and the stream ends
    inside the record -- in its payload or, for a SEGMENT_HEADER, in the
    run of SEGMENT records it announces, at the tag of a SEGMENT too --
    the function returns [false] with the caller's allocation as it was,
    and it has logged the error of that record type if the source is
    still open then and nothing if the source has been closed from
    outside. *)
Theorem nextAllocationRecord_end_of_stream
    (a : Allocation) (r r1 : RecordReader) :
  turns ndebug a r r1 ->
  (src_open (d_input r1) = false \/
   short_of RecordType_codec (src_data (d_input r1)) = true ->
   exists r',
     nextAllocationRecord ndebug a r = Some (Ret (false, a, r')) /\
     d_log r' = d_log r)
  /\
  (forall tagb rest,
     src_open (d_input r1) = true ->
     src_data (d_input r1) = tagb ++ rest ->
     length tagb = sizeof RecordType_codec ->
     cut_short ndebug (decode RecordType_codec tagb) rest = true ->
     exists r',
       nextAllocationRecord ndebug a r = Some (Ret (false, a, r')) /\
       isOpen r' = negb closed_from_outside /\
       d_log r' =
         if isOpen r'
         then d_log r ++ [parse_failure (decode RecordType_codec tagb)]
         else d_log r).
Proof.
  intros Hturns. pose proof (turns_log _ _ _ Hturns) as Hlog.
  rewrite (turns_nextAllocationRecord _ _ _ Hturns). split.
  - intros Hend.
    destruct (read_obj RecordType_codec (d_input r1)) as [[ty|] input] eqn:E.
    + destruct (read_obj_inv _ _ _ _ E) as (_ & buf & _ & Ho & _ & Hdata & Hlen).
      destruct Hend as [Hc|Hshort]; [congruence|].
      unfold short_of in Hshort. apply Nat.ltb_lt in Hshort.
      rewrite Hdata, length_app in Hshort. lia.
    + exists (set_input input r1). split; [|exact Hlog].
      apply nextAllocationRecord_Return. unfold nextAllocationRecord_body.
      now rewrite E.
  - intros tagb rest Hopen Hdata Htag Hcut.
    assert (Hfin : forall msg r2,
              dry (set_input {| src_data := rest; src_open := true |} r1) r2 ->
              isOpen (log_error_if_open msg r2) = negb closed_from_outside /\
              d_log (log_error_if_open msg r2) =
                if isOpen (log_error_if_open msg r2)
                then d_log r ++ [msg] else d_log r).
    { intros msg r2 (Hl & s0 & Hs0 & Hin).
      destruct (log_error_if_dry msg r2 s0 Hs0 Hin) as [Ho Hd].
      split; [exact Ho|]. rewrite Ho, Hd. cbn [d_log set_input] in Hl.
      now rewrite Hl, Hlog. }
    assert (Hbody : exists r2,
              nextAllocationRecord_body ndebug a r1 =
                Ret (Return false a
                       (log_error_if_open
                          (parse_failure (decode RecordType_codec tagb)) r2)) /\
              dry (set_input {| src_data := rest; src_open := true |} r1) r2).
    { unfold nextAllocationRecord_body.
      rewrite (read_obj_app RecordType_codec _ tagb rest Hopen Hdata Htag).
      destruct (decode RecordType_codec tagb); try discriminate Hcut.
      - destruct (parseAllocationRecord_cut_short AllocationRecord_zero
                    (set_input {| src_data := rest; src_open := true |} r1)
                    eq_refl Hcut) as (r2 & -> & Hdry).
        exists r2. split; [reflexivity | exact Hdry].
      - destruct (parseFrameIndex_cut_short
                    (set_input {| src_data := rest; src_open := true |} r1)
                    eq_refl Hcut) as (r2 & -> & Hdry).
        exists r2. split; [reflexivity | exact Hdry].
      - destruct (parseFramePush_cut_short
                    (set_input {| src_data := rest; src_open := true |} r1)
                    eq_refl Hcut) as (r2 & -> & Hdry).
        exists r2. split; [reflexivity | exact Hdry].
      - destruct (parseFramePop_cut_short
                    (set_input {| src_data := rest; src_open := true |} r1)
                    eq_refl Hcut) as (r2 & -> & Hdry).
        exists r2. split; [reflexivity | exact Hdry].
      - destruct (parseNativeFrameIndex_cut_short
                    (set_input {| src_data := rest; src_open := true |} r1)
                    eq_refl Hcut) as (r2 & -> & Hdry).
        exists r2. split; [reflexivity | exact Hdry].
      - destruct (parseSegmentHeader_cut_short
                    (set_input {| src_data := rest; src_open := true |} r1)
                    eq_refl Hcut) as (r2 & -> & Hdry).
        exists r2. split; [reflexivity | exact Hdry].
      - destruct (parseThreadRecord_cut_short
                    (set_input {| src_data := rest; src_open := true |} r1)
                    eq_refl Hcut) as (r2 & -> & Hdry).
        exists r2. split; [reflexivity | exact Hdry]. }
    destruct Hbody as (r2 & Hbody & Hdry).
    eexists. split; [apply nextAllocationRecord_Return; exact Hbody|].
    apply Hfin. exact Hdry.
Qed.

(** The amended C6.  A type tag the [switch] has no case for -- SEGMENT
    outside a segment header, or a value that names no record type -- ends
    the loop: [nextAllocationRecord] returns [false], as it does at the end
    of the stream, leaves the caller's allocation as it was, throws nothing
    and logs "Invalid record type" if the source is open. *)
Theorem nextAllocationRecord_invalid_record_type
    (a : Allocation) (r r1 : RecordReader) (ty : RecordType) (input : Source) :
  turns ndebug a r r1 ->
  read_obj RecordType_codec (d_input r1) = (Some ty, input) ->
  (ty = SEGMENT \/ exists raw, ty = RecordType_other raw) ->
  exists r',
    nextAllocationRecord ndebug a r = Some (Ret (false, a, r')) /\
    d_input r' = input /\
    d_log r' =
      if Source_is_open input then d_log r ++ ["Invalid record type"]
      else d_log r.
Proof.
  intros Hturns E Hty. pose proof (turns_log _ _ _ Hturns) as Hlog.
  rewrite (turns_nextAllocationRecord _ _ _ Hturns).
  exists (log_error_if_open "Invalid record type" (set_input input r1)).
  split; [|split].
  - apply nextAllocationRecord_Return. unfold nextAllocationRecord_body.
    rewrite E. destruct Hty as [->|[raw ->]]; reflexivity.
  - unfold log_error_if_open. simpl. now destruct (Source_is_open input).
  - unfold log_error_if_open. simpl.
    destruct (Source_is_open input); simpl; congruence.
Qed.

End EndOfStream.

Lemma nextAllocationRecord_end_of_stream_witness :
  (exists r',
     nextAllocationRecord (H := sample_layout) (env := sample_env) false
       Allocation_zero (sample_reader (sample_FRAME_PUSH 7 2)) =
       Some (Ret (false, Allocation_zero, r')) /\
     d_log r' = [])
  /\
  (exists r',
     nextAllocationRecord (H := sample_layout) (env := sample_env) false
       Allocation_zero
       (sample_reader (sample_FRAME_PUSH 7 2
                       ++ take 6 (sample_ALLOCATION 7 256 64 12))) =
       Some (Ret (false, Allocation_zero, r')) /\
     isOpen r' = true /\
     d_log r' = ["Failed to parse allocation record"])
  /\
  (exists r',
     nextAllocationRecord (H := sample_layout) (env := sample_teardown) false
       Allocation_zero
       (sample_reader (sample_FRAME_PUSH 7 2
                       ++ take 6 (sample_ALLOCATION 7 256 64 12))) =
       Some (Ret (false, Allocation_zero, r')) /\
     isOpen r' = false /\
     d_log r' = []).
Proof.
  split; [|split].
  - refine (proj1 (nextAllocationRecord_end_of_stream (H := sample_layout)
                     (env := sample_env) false Allocation_zero
                     (sample_reader (sample_FRAME_PUSH 7 2)) _
                     ltac:(eapply turns_round;
                           [vm_compute; reflexivity | apply turns_here])) _).
    right. vm_compute. reflexivity.
  - destruct (proj2 (nextAllocationRecord_end_of_stream (H := sample_layout)
                       (env := sample_env) false Allocation_zero
                       (sample_reader (sample_FRAME_PUSH 7 2
                          ++ take 6 (sample_ALLOCATION 7 256 64 12))) _
                       ltac:(eapply turns_round;
                             [vm_compute; reflexivity | apply turns_here]))
                ["A"%byte] (drop 1 (take 6 (sample_ALLOCATION 7 256 64 12)))
                ltac:(vm_compute; reflexivity) ltac:(vm_compute; reflexivity)
                ltac:(vm_compute; reflexivity) ltac:(vm_compute; reflexivity))
      as (r' & Hnext & Hopen & Hlog).
    exists r'. split; [exact Hnext|]. split; [exact Hopen|].
    rewrite Hlog, Hopen. reflexivity.
  - destruct (proj2 (nextAllocationRecord_end_of_stream (H := sample_layout)
                       (env := sample_teardown) false Allocation_zero
                       (sample_reader (sample_FRAME_PUSH 7 2
                          ++ take 6 (sample_ALLOCATION 7 256 64 12))) _
                       ltac:(eapply turns_round;
                             [vm_compute; reflexivity | apply turns_here]))
                ["A"%byte] (drop 1 (take 6 (sample_ALLOCATION 7 256 64 12)))
                ltac:(vm_compute; reflexivity) ltac:(vm_compute; reflexivity)
                ltac:(vm_compute; reflexivity) ltac:(vm_compute; reflexivity))
      as (r' & Hnext & Hopen & Hlog).
    exists r'. split; [exact Hnext|]. split; [exact Hopen|].
    rewrite Hlog, Hopen. reflexivity.
Defined.

(** C7 as stated fails.  A stream that ends right after the payload of a
    SEGMENT_HEADER announcing one segment ends at a tag boundary: the read
    that fails is the read of the tag of the SEGMENT, in [parseSegment].
    [nextAllocationRecord] returns [false], but not without a log: the
    source being open, it logs the failure of the segment header. *)
Lemma end_of_stream_at_SEGMENT_tag_is_logged :
  read_obj (env := sample_env) (@RecordType_codec sample_layout)
    (sample_source []) = (None, sample_source []) /\
  exists r',
    nextAllocationRecord (H := sample_layout) (env := sample_env) false
      Allocation_zero
      (sample_reader (["H"; "l"; "i"; "b"; x00]%byte ++ N_le 8 1 ++ N_le 8 4096)) =
      Some (Ret (false, Allocation_zero, r')) /\
    d_input r' = sample_source [] /\
    d_log r' = ["Failed to parse segment header"].
Proof.
  split; [vm_compute; reflexivity|].
  eexists. split; [vm_compute; reflexivity|]. split; reflexivity.
Qed.

(** C6 as stated fails: on a stream that opens with a byte naming no record
    type, [nextAllocationRecord] does not end in an exception; it returns
    [false] and leaves the caller's allocation untouched, exactly as it
    does on a stream that has ended. *)
Lemma unknown_tag_returns_like_end_of_stream :
  (exists r',
     nextAllocationRecord (H := sample_layout) (env := sample_env) false Allocation_zero
       (sample_reader ["Z"%byte]) = Some (Ret (false, Allocation_zero, r')))
  /\
  (exists r',
     nextAllocationRecord (H := sample_layout) (env := sample_env) false Allocation_zero
       (sample_reader []) = Some (Ret (false, Allocation_zero, r'))).
Proof.
  split.
  - eexists. vm_compute. reflexivity.
  - eexists. vm_compute. reflexivity.
Qed.

Lemma nextAllocationRecord_invalid_record_type_witness :
  exists r',
    nextAllocationRecord (H := sample_layout) (env := sample_env) false Allocation_zero
      (sample_reader (sample_FRAME_PUSH 7 2 ++ ["Z"%byte])) =
      Some (Ret (false, Allocation_zero, r')) /\
    d_input r' = sample_source [] /\
    d_log r' = ["Invalid record type"].
Proof.
  refine (nextAllocationRecord_invalid_record_type (H := sample_layout) (env := sample_env)
            false Allocation_zero _ _ (RecordType_other 90) _ _ _ _).
  - eapply turns_round; [vm_compute; reflexivity | apply turns_here].
  - vm_compute. reflexivity.
  - right. eexists. reflexivity.
Defined.

(** ** The per-thread stacks *)

Lemma pop_back_n_S (n : nat) (tid : thread_id_t)
    (traces : gmap thread_id_t (list frame_id_t)) :
  pop_back_n (S n) tid traces =
  match default [] (traces !! tid) with
  | [] => Undefined
  | x :: stack =>
      pop_back_n n tid
        (<[tid := take (length stack) (x :: stack)]> traces)
  end.
Proof.
  cbn [pop_back_n]. destruct (default [] (traces !! tid)) as [|x stack];
    [reflexivity|].
  now rewrite removelast_firstn_len.
Qed.

Lemma pop_back_n_Ret (n : nat) (tid : thread_id_t)
    (traces traces' : gmap thread_id_t (list frame_id_t)) :
  pop_back_n n tid traces = Ret traces' ->
  (n <= length (default [] (traces !! tid)))%nat /\
  forall t,
    default [] (traces' !! t) =
    if decide (tid = t)
    then take (length (default [] (traces !! tid)) - n) (default [] (traces !! tid))
    else default [] (traces !! t).
Proof.
  revert traces. induction n as [|n IH]; intros traces.
  - intros [= <-]. split; [lia|]. intros t.
    destruct (decide (tid = t)) as [<-|]; [|reflexivity].
    now rewrite Nat.sub_0_r, firstn_all.
  - rewrite pop_back_n_S.
    destruct (default [] (traces !! tid)) as [|x stack] eqn:Hstack; [discriminate|].
    intros E. apply IH in E. destruct E as [Hle Hall].
    rewrite lookup_insert_eq in Hle, Hall. cbn [from_option id] in Hle, Hall.
    rewrite length_take in Hle, Hall. cbn [length] in *.
    split; [lia|]. intros t. rewrite Hall.
    destruct (decide (tid = t)) as [<-|Hne].
    + rewrite take_take. f_equal. lia.
    + now rewrite lookup_insert_ne.
Qed.

Lemma pop_back_n_within (n : nat) (tid : thread_id_t)
    (traces : gmap thread_id_t (list frame_id_t)) :
  (n <= length (default [] (traces !! tid)))%nat ->
  exists traces', pop_back_n n tid traces = Ret traces'.
Proof.
  revert traces. induction n as [|n IH]; intros traces Hle; [simpl; eauto|].
  rewrite pop_back_n_S.
  destruct (default [] (traces !! tid)) as [|x stack] eqn:Hstack;
    [simpl in Hle; lia|].
  apply IH. rewrite lookup_insert_eq. cbn [from_option id].
  rewrite length_take. cbn [length] in *. lia.
Qed.

Lemma pop_back_n_past_empty (n : nat) (tid : thread_id_t)
    (traces : gmap thread_id_t (list frame_id_t)) :
  (length (default [] (traces !! tid)) < n)%nat ->
  pop_back_n n tid traces = Undefined.
Proof.
  revert traces. induction n as [|n IH]; intros traces Hlt; [lia|].
  rewrite pop_back_n_S.
  destruct (default [] (traces !! tid)) as [|x stack] eqn:Hstack; [reflexivity|].
  apply IH. rewrite lookup_insert_eq. cbn [from_option id].
  rewrite length_take. cbn [length] in *. lia.
Qed.

Section Stacks.
Context `{WireLayout} {env : Environment}.
Variable ndebug : bool.

Lemma stack_of_insert (t t' : thread_id_t) (stack : list frame_id_t) (r r' : RecordReader) :
  d_stack_traces r' = <[t' := stack]> (d_stack_traces r) ->
  stack_of t r' = if decide (t' = t) then stack else stack_of t r.
Proof.
  intros E. unfold stack_of. rewrite E. destruct (decide (t' = t)) as [->|Hne].
  - now rewrite lookup_insert_eq.
  - now rewrite lookup_insert_ne.
Qed.

Lemma stack_of_same (t : thread_id_t) (r' r : RecordReader) :
  d_stack_traces r' = d_stack_traces r -> stack_of t r' = stack_of t r.
Proof. unfold stack_of. now intros ->. Qed.

Lemma parseFramePush_true (r r' : RecordReader) :
  parseFramePush r = Ret (true, r') ->
  exists rec input,
    read_obj FramePush_codec (d_input r) = (Some rec, input) /\
    d_stack_traces r' =
      <[push_tid rec := stack_of (push_tid rec) r ++ [push_frame_id rec]]>
        (d_stack_traces r).
Proof.
  unfold parseFramePush.
  destruct (read_obj FramePush_codec (d_input r)) as [[rec|] input] eqn:E;
    intros [= <-]. eauto.
Qed.

Lemma parseFramePop_true (r r' : RecordReader) :
  parseFramePop ndebug r = Ret (true, r') ->
  exists rec input,
    read_obj FramePop_codec (d_input r) = (Some rec, input) /\
    (N.to_nat (pop_count rec) <= length (stack_of (pop_tid rec) r))%nat /\
    forall t,
      stack_of t r' =
      if decide (pop_tid rec = t)
      then take (length (stack_of (pop_tid rec) r) - N.to_nat (pop_count rec))
                (stack_of (pop_tid rec) r)
      else stack_of t r.
Proof.
  unfold parseFramePop.
  destruct (read_obj FramePop_codec (d_input r)) as [[rec|] input] eqn:E;
    [|discriminate].
  destruct (c_assert _ _); simpl; try discriminate.
  destruct (pop_back_n _ _ _) as [traces| | |] eqn:Hpop; simpl; try discriminate.
  intros [= <-]. apply pop_back_n_Ret in Hpop. destruct Hpop as [Hle Hall].
  exists rec, input. auto.
Qed.

Lemma parseFrameIndex_stacks (r r' : RecordReader) (b : bool) :
  parseFrameIndex r = Ret (b, r') -> d_stack_traces r' = d_stack_traces r.
Proof.
  unfold parseFrameIndex.
  match goal with |- context [pbind ?p ?k (d_input r)] =>
    destruct (pbind p k (d_input r)) as [[[id frame]|] input] end.
  - destruct (d_frame_map r !! id); [discriminate|]. now intros [= <- <-].
  - now intros [= <- <-].
Qed.

Lemma parseNativeFrameIndex_stacks (r r' : RecordReader) (b : bool) :
  parseNativeFrameIndex r = Ret (b, r') -> d_stack_traces r' = d_stack_traces r.
Proof.
  unfold parseNativeFrameIndex.
  destruct (read_obj UnresolvedNativeFrame_codec (d_input r)) as [[rec|] input];
    now intros [= <- <-].
Qed.

Lemma parseSegment_stacks (r r' : RecordReader) (b : bool) (seg seg' : Segment) :
  parseSegment ndebug seg r = Ret (b, seg', r') ->
  d_stack_traces r' = d_stack_traces r.
Proof.
  unfold parseSegment.
  destruct (read_obj RecordType_codec (d_input r)) as [[ty|] input].
  - destruct (c_assert _ _); simpl; try discriminate.
    destruct (read_obj Segment_codec input) as [[x|] input'];
      now intros [= <- <- <-].
  - now intros [= <- <- <-].
Qed.

Lemma parseSegments_stacks (n : nat) (segs : list Segment) (r r' : RecordReader)
    (o : option (list Segment)) :
  parseSegments ndebug n segs r = Ret (o, r') ->
  d_stack_traces r' = d_stack_traces r.
Proof.
  revert segs r. induction n as [|n IH]; simpl; intros segs r.
  - now intros [= <- <-].
  - destruct (parseSegment ndebug Segment_zero r) as [[[ok seg] r1]| | |] eqn:E;
      simpl; try discriminate.
    apply parseSegment_stacks in E. destruct ok.
    + intros E2. apply IH in E2. congruence.
    + now intros [= <- <-].
Qed.

Lemma parseSegmentHeader_stacks (r r' : RecordReader) (b : bool) :
  parseSegmentHeader ndebug r = Ret (b, r') ->
  d_stack_traces r' = d_stack_traces r.
Proof.
  unfold parseSegmentHeader.
  match goal with |- context [pbind ?p ?k (d_input r)] =>
    destruct (pbind p k (d_input r)) as [[[[fn num] addr]|] input] end.
  - destruct (Segment_vector_new num); [discriminate|].
    destruct (parseSegments _ _ _ _) as [[o r1]| | |] eqn:E2; simpl; try discriminate.
    apply parseSegments_stacks in E2. simpl in E2.
    destruct o; now intros [= <- <-].
  - now intros [= <- <-].
Qed.

Lemma parseThreadRecord_stacks (r r' : RecordReader) (b : bool) :
  parseThreadRecord r = Ret (b, r') -> d_stack_traces r' = d_stack_traces r.
Proof.
  unfold parseThreadRecord.
  match goal with |- context [pbind ?p ?k (d_input r)] =>
    destruct (pbind p k (d_input r)) as [[[t name]|] input] end;
    now intros [= <- <-].
Qed.

Lemma correctAllocationFrame_length (stack stack' : list frame_id_t) (l : Z)
    (r r' : RecordReader) :
  correctAllocationFrame stack l r = Ret (stack', r') ->
  length stack' = length stack /\ d_stack_traces r' = d_stack_traces r.
Proof.
  unfold correctAllocationFrame.
  destruct (last stack) as [top|] eqn:Hlast; [|now intros [= <- <-]].
  destruct (d_frame_map r !! top); [|discriminate].
  destruct (getIndex _ _) as [[i new] frames].
  assert (Hlen : length (removelast stack ++ [i]) = length stack).
  { rewrite length_app, removelast_firstn_len, length_take. simpl.
    destruct stack; [discriminate|]. simpl. lia. }
  destruct new; now intros [= <- <-].
Qed.

Lemma getAllocationFrameIndex_length (rec : AllocationRecord) (r r' : RecordReader)
    (i : N) (t : thread_id_t) :
  getAllocationFrameIndex rec r = Ret (i, r') ->
  length (stack_of t r') = length (stack_of t r).
Proof.
  unfold getAllocationFrameIndex.
  destruct (d_stack_traces r !! tid rec) as [stack|] eqn:Hstack;
    [|now intros [= <- <-]].
  destruct (correctAllocationFrame _ _ _) as [[stack' r1]| | |] eqn:E; simpl;
    try discriminate.
  apply correctAllocationFrame_length in E. destruct E as [Hlen Hsame].
  destruct (getTraceIndex _ _) as [idx tree]. intros [= <- <-].
  rewrite (stack_of_insert t (tid rec) stack' r1) by reflexivity.
  destruct (decide (tid rec = t)) as [<-|Hne].
  - unfold stack_of. rewrite Hstack. exact Hlen.
  - now rewrite (stack_of_same t r1 r).
Qed.

(** What one decoded record does to the stack of a thread. *)
Lemma body_stack_length (t : thread_id_t) (a : Allocation) (r r' : RecordReader) :
  (nextAllocationRecord_body ndebug a r = Ret (Continue r') \/
   exists a', nextAllocationRecord_body ndebug a r = Ret (Return true a' r')) ->
  (length (stack_of t r') + frames_popped t r =
   length (stack_of t r) + frames_pushed t r)%nat.
Proof.
  unfold nextAllocationRecord_body, frames_popped, frames_pushed.
  destruct (read_obj RecordType_codec (d_input r)) as [[ty|] input] eqn:E.
  2:{ intros [Hb|[a' Hb]]; discriminate. }
  assert (Hin : forall r1, d_stack_traces r1 = d_stack_traces (set_input input r) ->
                           length (stack_of t r1) = length (stack_of t r)).
  { intros r1 Hr1. now rewrite (stack_of_same t r1 r). }
  destruct ty.
  - destruct (parseAllocationRecord _ _) as [[ok rec] r1] eqn:Hp.
    assert (Hr1 : d_stack_traces r1 = d_stack_traces r).
    { unfold parseAllocationRecord in Hp.
      destruct (read_obj AllocationRecord_codec _) as [[x|] i];
        now injection Hp as <- <- <-. }
    destruct ok; simpl; [|intros [Hb|[a' Hb]]; discriminate].
    destruct (getAllocationFrameIndex rec r1) as [[i r2]| | |] eqn:Hg; simpl;
      try (intros [Hb|[a' Hb]]; discriminate).
    intros [Hb|[a' Hb]]; [discriminate|]. injection Hb as _ <-.
    rewrite (getAllocationFrameIndex_length _ _ _ _ t Hg).
    rewrite (stack_of_same t r1 r Hr1). lia.
  - intros [Hb|[a' Hb]];
      [|destruct (parseFrameIndex _) as [[[] ?]| | |]; discriminate].
    apply or_fail_Continue, parseFrameIndex_stacks in Hb. rewrite (Hin _ Hb). lia.
  - intros [Hb|[a' Hb]];
      [|destruct (parseFramePush _) as [[[] ?]| | |]; discriminate].
    apply or_fail_Continue, parseFramePush_true in Hb.
    destruct Hb as (rec & input' & Hread & Hst). simpl in Hread. rewrite Hread.
    rewrite (stack_of_insert t _ _ _ _ Hst).
    destruct (decide (push_tid rec = t)) as [->|Hne].
    + rewrite length_app. simpl. now rewrite (stack_of_same t (set_input input r) r).
    + rewrite (stack_of_same t (set_input input r) r) by reflexivity. lia.
  - intros [Hb|[a' Hb]];
      [|destruct (parseFramePop _ _) as [[[] ?]| | |]; discriminate].
    apply or_fail_Continue, parseFramePop_true in Hb.
    destruct Hb as (rec & input' & Hread & Hle & Hst). simpl in Hread. rewrite Hread.
    rewrite Hst.
    destruct (decide (pop_tid rec = t)) as [Heq|Hne].
    + subst t. rewrite length_take.
      unfold stack_of in *. cbn [d_stack_traces set_input] in *. lia.
    + rewrite (stack_of_same t (set_input input r) r) by reflexivity. lia.
  - intros [Hb|[a' Hb]];
      [|destruct (parseNativeFrameIndex _) as [[[] ?]| | |]; discriminate].
    apply or_fail_Continue, parseNativeFrameIndex_stacks in Hb.
    rewrite (Hin _ Hb). lia.
  - intros [Hb|[a' Hb]]; [|discriminate]. injection Hb as <-.
    rewrite Hin by reflexivity. lia.
  - intros [Hb|[a' Hb]];
      [|destruct (parseSegmentHeader _ _) as [[[] ?]| | |]; discriminate].
    apply or_fail_Continue, parseSegmentHeader_stacks in Hb.
    rewrite (Hin _ Hb). lia.
  - intros [Hb|[a' Hb]]; discriminate.
  - intros [Hb|[a' Hb]];
      [|destruct (parseThreadRecord _) as [[[] ?]| | |]; discriminate].
    apply or_fail_Continue, parseThreadRecord_stacks in Hb.
    rewrite (Hin _ Hb). lia.
  - intros [Hb|[a' Hb]]; discriminate.
Qed.

Lemma decodes_stack_length (t : thread_id_t) (r r1 : RecordReader) (n m : nat) :
  decodes ndebug t r n m r1 ->
  (length (stack_of t r1) + m = length (stack_of t r) + n)%nat.
Proof.
  induction 1 as [r|r n m r1 r2 a _ IH Hb|r n m r1 r2 a a' _ IH Hb]; [lia| |].
  - pose proof (body_stack_length t a r1 r2 (or_introl Hb)). lia.
  - pose proof (body_stack_length t a r1 r2 (or_intror (ex_intro _ a' Hb))) as Hl.
    unfold frames_popped, frames_pushed in Hl.
    unfold nextAllocationRecord_body in Hb.
    destruct (read_obj RecordType_codec (d_input r1)) as [[ty|] input];
      [|discriminate].
    destruct ty; try lia; exfalso; revert Hb; unfold or_fail.
    + destruct (parseFramePush _) as [[[] ?]| | |]; discriminate.
    + destruct (parseFramePop _ _) as [[[] ?]| | |]; discriminate.
Qed.

End Stacks.

Section FramePop.
Context `{WireLayout} {env : Environment}.
Variable ndebug : bool.

Lemma FRAME_POP_within_stack (a : Allocation) (r : RecordReader)
    (input input' : Source) (rec : FramePop) :
  read_obj RecordType_codec (d_input r) = (Some FRAME_POP, input) ->
  read_obj FramePop_codec input = (Some rec, input') ->
  stack_of (pop_tid rec) r <> [] ->
  (N.to_nat (pop_count rec) <= length (stack_of (pop_tid rec) r))%nat ->
  exists r2,
    nextAllocationRecord_body ndebug a r = Ret (Continue r2) /\
    stack_of (pop_tid rec) r2 =
      take (length (stack_of (pop_tid rec) r) - N.to_nat (pop_count rec))
           (stack_of (pop_tid rec) r).
Proof.
  intros E Hread Hne Hle.
  unfold nextAllocationRecord_body. rewrite E.
  unfold or_fail, parseFramePop. cbn [d_input set_input]. rewrite Hread.
  cbn [d_stack_traces set_input]. fold (stack_of (pop_tid rec) r).
  assert (Hassert : c_assert ndebug
            (negb (bool_decide (stack_of (pop_tid rec) r = []))) = Ret tt).
  { unfold c_assert. destruct ndebug; [reflexivity|].
    now rewrite bool_decide_eq_false_2. }
  rewrite Hassert. simpl.
  destruct (pop_back_n_within _ (pop_tid rec) (d_stack_traces r) Hle)
    as [traces Hpop].
  rewrite Hpop. simpl. eexists. split; [reflexivity|].
  apply pop_back_n_Ret in Hpop. destruct Hpop as [_ Hall].
  unfold stack_of. cbn [d_stack_traces set_stack_traces].
  rewrite Hall. now rewrite decide_True.
Qed.

(** The amended C4.  Over any run of records the decoder decodes without
    failing, holding [n] FRAME_PUSH records for a thread and FRAME_POP
    records for it whose counts sum to [m], the thread's stack ends
    [n - m] entries longer than it began.  Where the run ends, a FRAME_POP
    for the thread is decoded without failing when the thread's stack is
    not empty and holds at least [count] entries; it takes [count] entries
    off the stack and, with a count of zero, leaves the stack as it was. *)
Theorem frame_stack_after_pushes_and_pops
    (t : thread_id_t) (r r1 : RecordReader) (n m : nat) :
  decodes ndebug t r n m r1 ->
  (length (stack_of t r1) + m = length (stack_of t r) + n)%nat /\
  forall a input input' rec,
    read_obj RecordType_codec (d_input r1) = (Some FRAME_POP, input) ->
    read_obj FramePop_codec input = (Some rec, input') ->
    pop_tid rec = t ->
    stack_of t r1 <> [] ->
    (N.to_nat (pop_count rec) <= length (stack_of t r1))%nat ->
    exists r2,
      nextAllocationRecord_body ndebug a r1 = Ret (Continue r2) /\
      decodes ndebug t r n (m + N.to_nat (pop_count rec)) r2 /\
      stack_of t r2 =
        take (length (stack_of t r1) - N.to_nat (pop_count rec)) (stack_of t r1) /\
      (pop_count rec = 0%N -> stack_of t r2 = stack_of t r1).
Proof.
  intros Hrun. split; [exact (decodes_stack_length ndebug _ _ _ _ _ Hrun)|].
  intros a input input' rec E Hread <- Hne Hle.
  destruct (FRAME_POP_within_stack a r1 input input' rec E Hread Hne Hle)
    as (r2 & Hbody & Hstack).
  exists r2. split; [exact Hbody|]. split; [|split; [exact Hstack|]].
  - pose proof (decodes_round ndebug _ _ _ _ _ _ a Hrun Hbody) as Hrun'.
    unfold frames_pushed, frames_popped in Hrun'. rewrite E, Hread in Hrun'.
    rewrite decide_True in Hrun' by reflexivity.
    now rewrite Nat.add_0_r in Hrun'.
  - intros Hzero. rewrite Hstack, Hzero. simpl.
    now rewrite Nat.sub_0_r, firstn_all.
Qed.

(** A FRAME_POP whose count exceeds the length of the thread's stack
    neither returns nor throws: it fails the assertion or pops an empty
    vector. *)
Lemma parseFramePop_past_stack (r : RecordReader) (input : Source) (rec : FramePop) :
  read_obj FramePop_codec (d_input r) = (Some rec, input) ->
  (length (stack_of (pop_tid rec) r) < N.to_nat (pop_count rec))%nat ->
  parseFramePop ndebug r = AssertFail \/ parseFramePop ndebug r = Undefined.
Proof.
  intros Hread Hlt. unfold parseFramePop. rewrite Hread.
  fold (stack_of (pop_tid rec) r).
  unfold c_assert. destruct ndebug; simpl.
  - right. now rewrite pop_back_n_past_empty.
  - destruct (bool_decide _); simpl; [now left|].
    right. now rewrite pop_back_n_past_empty.
Qed.

(** C3.  Wherever in the stream the loop of [nextAllocationRecord] has got
    to: an ALLOCATION record whose payload can be read, for a thread whose
    stack is empty (or that has none), is delivered -- the function returns
    [true] -- with [frame_index] 0; the stack stays empty and the tree is
    not touched. *)
Theorem nextAllocationRecord_empty_stack
    (a : Allocation) (r r1 : RecordReader) (tagbytes payload rest : list byte) :
  turns ndebug a r r1 ->
  src_open (d_input r1) = true ->
  src_data (d_input r1) = tagbytes ++ payload ++ rest ->
  length tagbytes = sizeof RecordType_codec ->
  decode RecordType_codec tagbytes = ALLOCATION ->
  length payload = sizeof AllocationRecord_codec ->
  stack_of (tid (decode AllocationRecord_codec payload)) r1 = [] ->
  exists r',
    nextAllocationRecord ndebug a r =
      Some (Ret (true,
                 {| record := decode AllocationRecord_codec payload;
                    frame_index := 0%N;
                    native_segment_generation :=
                      currentSegmentGeneration (d_symbol_resolver r1) |},
                 r')) /\
    stack_of (tid (decode AllocationRecord_codec payload)) r' = [] /\
    d_tree r' = d_tree r1.
Proof.
  intros Hturns Hopen Hdata Htag Hty Hpay Hempty.
  rewrite (turns_nextAllocationRecord _ _ _ _ Hturns).
  set (rec := decode AllocationRecord_codec payload) in *.
  set (input := {| src_data := rest; src_open := true |}).
  assert (Hbody : exists r',
    nextAllocationRecord_body ndebug a r1 =
      Ret (Return true
             {| record := rec; frame_index := 0%N;
                native_segment_generation :=
                  currentSegmentGeneration (d_symbol_resolver r1) |} r') /\
    stack_of (tid rec) r' = [] /\ d_tree r' = d_tree r1).
  { unfold nextAllocationRecord_body.
    rewrite (read_obj_app RecordType_codec _ tagbytes (payload ++ rest)
               Hopen Hdata Htag), Hty.
    unfold parseAllocationRecord. cbn [d_input set_input].
    rewrite (read_obj_app AllocationRecord_codec
               {| src_data := payload ++ rest; src_open := true |}
               payload rest eq_refl eq_refl Hpay).
    fold rec input. cbn [negb].
    unfold getAllocationFrameIndex. cbn [d_stack_traces set_input].
    unfold stack_of in Hempty.
    destruct (d_stack_traces r1 !! tid rec) as [stack|] eqn:Hstack.
    - simpl in Hempty. subst stack. simpl.
      eexists. split; [reflexivity|]. split; [|reflexivity].
      unfold stack_of. simpl. now rewrite lookup_insert_eq.
    - simpl. eexists. split; [reflexivity|]. split; [|reflexivity].
      unfold stack_of. simpl. now rewrite Hstack. }
  destruct Hbody as (r' & Hbody & Hrest). exists r'. split; [|exact Hrest].
  now apply nextAllocationRecord_Return.
Qed.

End FramePop.

Lemma nextAllocationRecord_empty_stack_witness :
  exists r',
    nextAllocationRecord (H := sample_layout) (env := sample_env) false Allocation_zero
      (sample_reader (sample_FRAME_INDEX 2 "f" "a.py" 10
                      ++ sample_ALLOCATION 7 256 64 12)) =
      Some (Ret (true,
                 {| record :=
                      {| tid := 7%N; address := 256%N; size := 64%N;
                         allocator := 1%N; py_lineno := 12%Z;
                         native_frame_id := 0%N |};
                    frame_index := 0%N;
                    native_segment_generation := 0%N |},
                 r')) /\
    stack_of 7%N r' = [] /\
    d_tree r' = FrameTree_init.
Proof.
  edestruct (nextAllocationRecord_empty_stack (H := sample_layout) (env := sample_env) false
               Allocation_zero
               (sample_reader (sample_FRAME_INDEX 2 "f" "a.py" 10
                               ++ sample_ALLOCATION 7 256 64 12)) _
               ["A"%byte] (drop 1 (sample_ALLOCATION 7 256 64 12)) []
               ltac:(eapply turns_round;
                     [vm_compute; reflexivity | apply turns_here]))
    as (r' & H1 & H2 & H3).
  - reflexivity.
  - vm_compute. reflexivity.
  - reflexivity.
  - reflexivity.
  - reflexivity.
  - vm_compute. reflexivity.
  - exists r'. split; [exact H1|]. split; [exact H2 | exact H3].
Defined.

(** C4 as stated fails: a FRAME_POP of one frame followed by a FRAME_PUSH
    for the same thread has [N = 1] and [M = 1 <= N], yet the decoder does
    not arrive at a stack of length 0: it fails the assertion of
    [parseFramePop], or without assertions pops an empty vector.  And with
    assertions a FRAME_POP with a count of zero for a thread whose stack is
    empty fails that assertion too. *)
Lemma FRAME_POP_before_FRAME_PUSH_fails :
  nextAllocationRecord (H := sample_layout) (env := sample_env) false Allocation_zero
    (sample_reader (sample_FRAME_POP 7 1 ++ sample_FRAME_PUSH 7 2)) =
    Some AssertFail
  /\
  nextAllocationRecord (H := sample_layout) (env := sample_env) true Allocation_zero
    (sample_reader (sample_FRAME_POP 7 1 ++ sample_FRAME_PUSH 7 2)) =
    Some Undefined
  /\
  nextAllocationRecord (H := sample_layout) (env := sample_env) false Allocation_zero
    (sample_reader (sample_FRAME_POP 7 0)) = Some AssertFail.
Proof. repeat split; vm_compute; reflexivity. Qed.

Lemma frame_stack_after_pushes_and_pops_witness :
  exists r1,
    decodes (H := sample_layout) (env := sample_env) false 7%N
      (sample_reader (sample_FRAME_PUSH 7 2 ++ sample_FRAME_PUSH 7 4
                      ++ sample_FRAME_POP 7 1 ++ sample_FRAME_POP 7 0))
      2 1 r1 /\
    (length (stack_of 7%N r1) + 1 = 0 + 2)%nat /\
    exists r2,
      nextAllocationRecord_body (H := sample_layout) (env := sample_env) false Allocation_zero r1 =
        Ret (Continue r2) /\
      stack_of 7%N r2 = stack_of 7%N r1.
Proof.
  eassert (D : decodes (H := sample_layout) (env := sample_env) false 7%N
                 (sample_reader (sample_FRAME_PUSH 7 2 ++ sample_FRAME_PUSH 7 4
                                 ++ sample_FRAME_POP 7 1 ++ sample_FRAME_POP 7 0))
                 _ _ _).
  { eapply decodes_round with (a := Allocation_zero);
      [eapply decodes_round with (a := Allocation_zero);
         [eapply decodes_round with (a := Allocation_zero);
            [apply decodes_none|]|]|].
    - vm_compute. reflexivity.
    - vm_compute. reflexivity.
    - vm_compute. reflexivity. }
  destruct (frame_stack_after_pushes_and_pops _ _ _ _ _ _ D) as [Hlen Hpop].
  eexists. split; [exact D|]. split; [exact Hlen|].
  edestruct (Hpop Allocation_zero) as (r2 & Hbody & _ & _ & Hzero).
  - vm_compute. reflexivity.
  - vm_compute. reflexivity.
  - reflexivity.
  - vm_compute. discriminate.
  - vm_compute. lia.
  - exists r2. split; [exact Hbody|]. apply Hzero. reflexivity.
Defined.

(** C5, the code at an under-pop: with one frame on the stack of thread 7,
    a FRAME_POP of two frames passes the assertion of [parseFramePop] (the
    stack is not empty) and pops an empty vector; [nextAllocationRecord]
    neither returns [false] nor throws, with assertions or without. *)
Lemma FRAME_POP_past_empty_is_undefined :
  nextAllocationRecord (H := sample_layout) (env := sample_env) false Allocation_zero
    (sample_reader (sample_FRAME_PUSH 7 2 ++ sample_FRAME_POP 7 2)) =
    Some Undefined
  /\
  nextAllocationRecord (H := sample_layout) (env := sample_env) true Allocation_zero
    (sample_reader (sample_FRAME_PUSH 7 2 ++ sample_FRAME_POP 7 2)) =
    Some Undefined.
Proof. split; vm_compute; reflexivity. Qed.

(** ** Allocation frames *)

Lemma fc_find_snoc (frame g : Frame) (n : frame_id_t) (l : list (Frame * frame_id_t)) :
  fc_find frame (l ++ [(g, n)]) =
  match fc_find frame l with
  | Some i => Some i
  | None => if decide (g = frame) then Some n else None
  end.
Proof.
  induction l as [|[f i] l IH]; simpl; [reflexivity|].
  destruct (decide (f = frame)); [reflexivity|exact IH].
Qed.

Lemma getIndex_interned (frame : Frame) (c c' : FrameCollection)
    (i : frame_id_t) (new : bool) :
  getIndex frame c = ((i, new), c') ->
  fc_find frame (fc_frames c') = Some i /\
  (new = true <-> fc_find frame (fc_frames c) = None) /\
  (forall f j, fc_find f (fc_frames c) = Some j ->
               fc_find f (fc_frames c') = Some j).
Proof.
  unfold getIndex. destruct (fc_find frame (fc_frames c)) as [j|] eqn:E.
  - intros [= <- <- <-]. split; [exact E|]. split; [|auto].
    split; discriminate.
  - intros [= <- <- <-]. simpl. split; [|split].
    + rewrite fc_find_snoc, E. now rewrite decide_True.
    + tauto.
    + intros f j Hf. now rewrite fc_find_snoc, Hf.
Qed.

Lemma getIndex_injective (frame : Frame) (c c' : FrameCollection)
    (i : frame_id_t) (new : bool) :
  getIndex frame c = ((i, new), c') ->
  fc_fresh c -> fc_injective c -> fc_fresh c' /\ fc_injective c'.
Proof.
  unfold getIndex. destruct (fc_find frame (fc_frames c)) as [j|] eqn:E.
  - intros Heq. injection Heq as Hi Hn Hc. subst. auto.
  - intros Heq [Hpos Hfresh] Hinj. injection Heq as Hi Hn Hc. subst. split.
    + split; [exact Hpos|]. simpl. intros f j. rewrite fc_find_snoc.
      destruct (fc_find f (fc_frames c)) as [k|] eqn:Ef.
      * intros [= <-]. specialize (Hfresh _ _ Ef). lia.
      * destruct (decide (frame = f)); [|discriminate]. intros [= <-]. lia.
    + intros f1 f2 j. simpl. rewrite !fc_find_snoc.
      destruct (fc_find f1 (fc_frames c)) as [k1|] eqn:E1;
        destruct (fc_find f2 (fc_frames c)) as [k2|] eqn:E2.
      * intros [= <-] [= <-]. eapply Hinj; eauto.
      * intros [= <-]. destruct (decide (frame = f2)); [|discriminate].
        intros [= <-]. specialize (Hfresh _ _ E1). lia.
      * destruct (decide (frame = f1)); [|discriminate].
        intros [= <-] [= ->]. specialize (Hfresh _ _ E2). lia.
      * destruct (decide (frame = f1)); [|discriminate].
        destruct (decide (frame = f2)); [|discriminate]. congruence.
Qed.

Section AllocationFrames.
Context `{WireLayout} {env : Environment}.
Variable ndebug : bool.

(** C2.  Wherever in the stream the loop of [nextAllocationRecord] has got
    to: for an ALLOCATION record whose payload can be read, of a thread
    whose stack is not empty and whose top frame [frame_map] knows, the top
    id of that stack is replaced by the id the allocation-frame interner
    gives the clone of the top frame with [lineno] set to the record's
    [py_lineno]; the interner stays injective; the clone goes into
    [frame_map] (by [emplace]) only when the interner reports it new; and
    the allocation is delivered with the stack-tree index of the corrected
    stack as its [frame_index]. *)
Theorem allocation_frame_specialization
    (a : Allocation) (r r1 : RecordReader) (tagbytes payload rest : list byte)
    (stack : list frame_id_t) (top : frame_id_t) (partial_frame : Frame) :
  turns ndebug a r r1 ->
  src_open (d_input r1) = true ->
  src_data (d_input r1) = tagbytes ++ payload ++ rest ->
  length tagbytes = sizeof RecordType_codec ->
  decode RecordType_codec tagbytes = ALLOCATION ->
  length payload = sizeof AllocationRecord_codec ->
  d_stack_traces r1 !! tid (decode AllocationRecord_codec payload) = Some stack ->
  last stack = Some top ->
  d_frame_map r1 !! top = Some partial_frame ->
  exists (id : frame_id_t) (is_new : bool) (r' : RecordReader),
    let record := decode AllocationRecord_codec payload in
    let clone :=
      {| function_name := function_name partial_frame;
         filename := filename partial_frame;
         parent_lineno := parent_lineno partial_frame;
         lineno := py_lineno record |} in
    let corrected := removelast stack ++ [id] in
    getIndex clone (d_allocation_frames r1) = ((id, is_new), d_allocation_frames r') /\
    fc_find clone (fc_frames (d_allocation_frames r')) = Some id /\
    (is_new = true <-> fc_find clone (fc_frames (d_allocation_frames r1)) = None) /\
    (fc_fresh (d_allocation_frames r1) -> fc_injective (d_allocation_frames r1) ->
     fc_fresh (d_allocation_frames r') /\ fc_injective (d_allocation_frames r')) /\
    d_frame_map r' =
      (if is_new then map_emplace id clone (d_frame_map r1) else d_frame_map r1) /\
    stack_of (tid record) r' = corrected /\
    d_tree r' = snd (getTraceIndex corrected (d_tree r1)) /\
    nextAllocationRecord ndebug a r =
      Some (Ret (true,
                 {| record := record;
                    frame_index := fst (getTraceIndex corrected (d_tree r1));
                    native_segment_generation :=
                      currentSegmentGeneration (d_symbol_resolver r1) |},
                 r')).
Proof.
  intros Hturns Hopen Hdata Htag Hty Hpay Hstack Hlast Hframe.
  rewrite (turns_nextAllocationRecord _ _ _ _ Hturns).
  set (rec := decode AllocationRecord_codec payload) in *.
  set (clone := {| function_name := function_name partial_frame;
                   filename := filename partial_frame;
                   parent_lineno := parent_lineno partial_frame;
                   lineno := py_lineno rec |}).
  destruct (getIndex clone (d_allocation_frames r1)) as [[id is_new] frames] eqn:Hidx.
  destruct (getIndex_interned _ _ _ _ _ Hidx) as (Hfind & Hnew & _).
  destruct (getTraceIndex (removelast stack ++ [id]) (d_tree r1))
    as [index tree] eqn:Htree.
  set (input := {| src_data := rest; src_open := true |}).
  set (r1a := set_input input r1).
  set (r1b := set_allocation_frames frames r1a).
  set (r1c := if is_new
              then set_frame_map (map_emplace id clone (d_frame_map r1b)) r1b
              else r1b).
  set (r' := set_tree tree
               (set_stack_traces
                  (<[tid rec := removelast stack ++ [id]]> (d_stack_traces r1c)) r1c)).
  exists id, is_new, r'. cbn zeta. fold rec clone.
  rewrite Hidx, !Htree. cbn [fst snd].
  split; [|split; [|split; [|split; [|split; [|split; [|split]]]]]].
  - f_equal. subst r' r1c r1b r1a; now destruct is_new.
  - subst r' r1c r1b r1a; now destruct is_new.
  - exact Hnew.
  - intros Hf Hi.
    replace (d_allocation_frames r') with frames
      by (subst r' r1c r1b r1a; now destruct is_new).
    eapply getIndex_injective; eauto.
  - subst r' r1c r1b r1a; now destruct is_new.
  - unfold stack_of. subst r'. cbn [d_stack_traces set_tree set_stack_traces].
    now rewrite lookup_insert_eq.
  - reflexivity.
  - apply nextAllocationRecord_Return. unfold nextAllocationRecord_body.
    rewrite (read_obj_app RecordType_codec _ tagbytes (payload ++ rest)
               Hopen Hdata Htag), Hty.
    unfold parseAllocationRecord. cbn [d_input set_input].
    rewrite (read_obj_app AllocationRecord_codec
               {| src_data := payload ++ rest; src_open := true |}
               payload rest eq_refl eq_refl Hpay).
    fold rec input r1a. cbn [negb].
    unfold getAllocationFrameIndex. cbn [d_stack_traces set_input r1a].
    rewrite Hstack. unfold correctAllocationFrame. rewrite Hlast.
    cbn [d_frame_map set_input r1a]. rewrite Hframe.
    cbn [d_allocation_frames set_input]. fold clone. rewrite Hidx.
    fold r1a r1b. fold r1c. cbn [result_bind].
    replace (d_tree (set_stack_traces
               (<[tid rec:=removelast stack ++ [id]]> (d_stack_traces r1c)) r1c))
      with (d_tree r1) by (subst r1c r1b r1a; now destruct is_new).
    rewrite Htree. subst r' r1c r1b r1a. destruct is_new; reflexivity.
Qed.

End AllocationFrames.

Lemma allocation_frame_specialization_witness :
  exists r',
    nextAllocationRecord (H := sample_layout) (env := sample_env) false Allocation_zero
      (sample_reader (sample_FRAME_INDEX 2 "f" "a.py" 10
                      ++ sample_FRAME_PUSH 7 2
                      ++ sample_ALLOCATION 7 256 64 12)) =
      Some (Ret (true,
                 {| record :=
                      {| tid := 7%N; address := 256%N; size := 64%N;
                         allocator := 1%N; py_lineno := 12%Z;
                         native_frame_id := 0%N |};
                    frame_index := 1%N;
                    native_segment_generation := 0%N |},
                 r')) /\
    stack_of 7%N r' = [1%N] /\
    d_frame_map r' !! 1%N =
      Some {| function_name := "f"; filename := "a.py";
              parent_lineno := 10; lineno := 12 |}.
Proof.
  edestruct (allocation_frame_specialization (H := sample_layout) (env := sample_env) false
               Allocation_zero
               (sample_reader (sample_FRAME_INDEX 2 "f" "a.py" 10
                               ++ sample_FRAME_PUSH 7 2
                               ++ sample_ALLOCATION 7 256 64 12)) _
               ["A"%byte] (drop 1 (sample_ALLOCATION 7 256 64 12)) []
               [2%N] 2%N
               {| function_name := "f"; filename := "a.py";
                  parent_lineno := 10; lineno := 0 |}
               ltac:(eapply turns_round;
                     [vm_compute; reflexivity
                     |eapply turns_round;
                        [vm_compute; reflexivity | apply turns_here]]))
    as (id & is_new & r' & Hidx & _ & _ & _ & Hmap & Hstack & _ & Hnext).
  - reflexivity.
  - vm_compute. reflexivity.
  - reflexivity.
  - reflexivity.
  - reflexivity.
  - vm_compute. reflexivity.
  - reflexivity.
  - vm_compute. reflexivity.
  - vm_compute in Hidx. injection Hidx as <- <- _.
    exists r'. split; [exact Hnext|]. split; [exact Hstack|].
    rewrite Hmap. vm_compute. reflexivity.
Defined.

(** ** Stack traces *)

Section StackFrameFacts.
Context {PyObject : Type}.
Variable toPythonObject : Frame -> Z -> option PyObject.

Lemma Py_GetStackFrame_loop_calls (remaining : nat) (index : index_t)
    (lineno : Z) (acc objs : list PyObject) (r : RecordReader) :
  Py_GetStackFrame_loop toPythonObject remaining index lineno acc r = Ret (Some objs) ->
  exists (objs' : list PyObject) (calls : list (Frame * Z)),
    objs = acc ++ objs' /\
    Forall2 (fun o c => toPythonObject c.1 c.2 = Some o) objs' calls /\
    (length calls <= remaining)%nat /\
    (forall k f l, calls !! k = Some (f, l) ->
       exists i node,
         ancestor (d_tree r) k index = Some i /\ i <> 0%N /\
         d_tree r !! N.to_nat i = Some node /\
         d_frame_map r !! node_frame_id node = Some f) /\
    (forall f l, calls !! 0%nat = Some (f, l) -> l = lineno) /\
    (forall k f l f' l',
       calls !! k = Some (f, l) -> calls !! S k = Some (f', l') ->
       l' = parent_lineno f) /\
    (length calls = remaining \/
     ancestor (d_tree r) (length calls) index = Some 0%N).
Proof.
  revert index lineno acc.
  induction remaining as [|remaining IH]; intros index lineno acc; simpl.
  - intros Hret. exists [], [].
    assert (objs = acc) as -> by (destruct (index =? 0)%N; congruence).
    rewrite app_nil_r. repeat split; auto; try (intros; discriminate).
  - destruct (N.eqb_spec index 0) as [->|Hne].
    + intros [= <-]. exists [], []. rewrite app_nil_r.
      repeat split; auto; try (intros; discriminate). simpl. lia.
    + unfold nextNode.
      destruct (d_tree r !! N.to_nat index) as [node|] eqn:Hnode; simpl;
        [|discriminate].
      destruct (d_frame_map r !! node_frame_id node) as [frame|] eqn:Hframe;
        [|discriminate].
      destruct (toPythonObject frame lineno) as [pyframe|] eqn:Hpy; [|discriminate].
      intros Hret. apply IH in Hret.
      destruct Hret as (objs' & calls & -> & Hall & Hlen & Hwalk & Hfirst & Hnext & Hend).
      exists (pyframe :: objs'), ((frame, lineno) :: calls).
      split; [now rewrite <- app_assoc|].
      split; [constructor; assumption|].
      split; [simpl; lia|].
      split; [|split; [|split]].
      * intros [|k] f l; simpl.
        -- intros [= <- <-]. exists index, node. auto.
        -- intros Hk. rewrite Hnode. exact (Hwalk _ _ _ Hk).
      * now intros f l [= <- <-].
      * intros [|k] f l f' l'; simpl.
        -- intros [= <- <-] Hk. now apply Hfirst in Hk.
        -- apply Hnext.
      * simpl. rewrite Hnode. destruct Hend as [->|Hend]; auto.
Qed.

(** On a tree whose nodes up the walk exist and have their frames in
    [frame_map], and with a [toPythonObject] that does not fail, the walk
    returns its list. *)
Lemma Py_GetStackFrame_loop_returns (remaining : nat) (index : index_t)
    (lineno : Z) (acc : list PyObject) (r : RecordReader) :
  (forall f l, is_Some (toPythonObject f l)) ->
  (forall k i, ancestor (d_tree r) k index = Some i -> i <> 0%N ->
     exists node f,
       d_tree r !! N.to_nat i = Some node /\
       d_frame_map r !! node_frame_id node = Some f) ->
  exists objs,
    Py_GetStackFrame_loop toPythonObject remaining index lineno acc r =
      Ret (Some objs).
Proof.
  intros Htotal. revert index lineno acc.
  induction remaining as [|remaining IH]; intros index lineno acc Hwf; simpl.
  - destruct (index =? 0)%N; eauto.
  - destruct (N.eqb_spec index 0) as [->|Hne]; [eauto|].
    destruct (Hwf 0%nat index eq_refl Hne) as (node & f & Hnode & Hframe).
    unfold nextNode. rewrite Hnode. simpl. rewrite Hframe.
    destruct (Htotal f lineno) as [pyframe ->].
    apply IH. intros k i Hk. apply (Hwf (S k)). simpl. now rewrite Hnode.
Qed.

(** The amended C8.  [Py_GetStackFrame] walks from [index] toward the root
    of the stack tree and renders at most [max_stacks] frames, stopping
    early only at the root; the frame of the node it starts at is rendered
    with the line -1, and every frame after it with the [parent_lineno]
    stored in the frame rendered just before it, that of the child of its
    node on the walk: a frame is shown at the line at which it called the
    frame above it. *)
Theorem Py_GetStackFrame_linenos
    (index : N) (max_stacks : nat) (r : RecordReader) (objs : list PyObject) :
  Py_GetStackFrame toPythonObject index max_stacks r = Ret (Some objs) ->
  exists calls : list (Frame * Z),
    Forall2 (fun o c => toPythonObject c.1 c.2 = Some o) objs calls /\
    (length calls <= max_stacks)%nat /\
    (forall k f l, calls !! k = Some (f, l) ->
       exists i node,
         ancestor (d_tree r) k index = Some i /\ i <> 0%N /\
         d_tree r !! N.to_nat i = Some node /\
         d_frame_map r !! node_frame_id node = Some f) /\
    (forall f l, calls !! 0%nat = Some (f, l) -> l = (-1)%Z) /\
    (forall k f l f' l',
       calls !! k = Some (f, l) -> calls !! S k = Some (f', l') ->
       l' = parent_lineno f) /\
    (length calls = max_stacks \/
     ancestor (d_tree r) (length calls) index = Some 0%N).
Proof.
  intros Hret. apply Py_GetStackFrame_loop_calls in Hret.
  destruct Hret as (objs' & calls & -> & Hrest). exists calls. exact Hrest.
Qed.

End StackFrameFacts.

Lemma Py_GetStackFrame_linenos_witness :
  exists calls : list (Frame * Z),
    Forall2 (fun o c => frame_at_line c.1 c.2 = Some o)
      [(frame_inner, (-1)%Z); (frame_middle, 30%Z)] calls /\
    (length calls <= 2)%nat.
Proof.
  destruct (Py_GetStackFrame_linenos frame_at_line 3%N 2 sample_tree_reader
              [(frame_inner, (-1)%Z); (frame_middle, 30%Z)])
    as (calls & Hall & Hlen & _).
  - vm_compute. reflexivity.
  - exists calls. split; [exact Hall | exact Hlen].
Defined.

(** C8 as stated fails.  On the stack [outer] > [middle] > [inner], walked
    from [inner], [middle] is shown at line 30, the [parent_lineno] of
    [inner], the frame above it; not at line 10, the [parent_lineno] stored
    in its parent frame [outer], nor at line 20, the line in its caller at
    which [middle] itself was called. *)
Lemma stack_frame_line_is_not_from_parent_frame :
  Py_GetStackFrame frame_at_line 3%N 10 sample_tree_reader =
    Ret (Some [(frame_inner, (-1)%Z); (frame_middle, 30%Z); (frame_outer, 20%Z)])
  /\
  ~ (forall calls k f l i node parent_node parent_frame,
       Py_GetStackFrame frame_at_line 3%N 10 sample_tree_reader = Ret (Some calls) ->
       calls !! S k = Some (f, l) ->
       ancestor (d_tree sample_tree_reader) (S k) 3%N = Some i ->
       d_tree sample_tree_reader !! N.to_nat i = Some node ->
       d_tree sample_tree_reader !! N.to_nat (node_parent_index node) =
         Some parent_node ->
       d_frame_map sample_tree_reader !! node_frame_id parent_node =
         Some parent_frame ->
       l = parent_lineno parent_frame)
  /\
  ~ (forall calls k f l,
       Py_GetStackFrame frame_at_line 3%N 10 sample_tree_reader = Ret (Some calls) ->
       calls !! S k = Some (f, l) ->
       l = parent_lineno f).
Proof.
  split; [vm_compute; reflexivity|]. split.
  - intros Hclaim.
    specialize (Hclaim _ 0%nat frame_middle 30%Z 2%N
                  {| node_frame_id := 4%N; node_parent_index := 1%N |}
                  {| node_frame_id := 2%N; node_parent_index := 0%N |}
                  frame_outer eq_refl eq_refl eq_refl eq_refl eq_refl eq_refl).
    discriminate Hclaim.
  - intros Hclaim.
    specialize (Hclaim _ 0%nat frame_middle 30%Z eq_refl eq_refl).
    discriminate Hclaim.
Qed.

(** ** Hybrid stack traces *)

Lemma hybrid_loop_last_python_frame
    (pre post : list pyframe) (trampoline : pyframe) (python_stack : list pyframe) :
  _is_eval_frame trampoline.1.1 = true ->
  S (eval_frames pre) = length python_stack ->
  hybrid_loop (pre ++ trampoline :: post) python_stack
    (Some (Z.of_nat (length python_stack))) =
  hybrid_loop (pre ++ [trampoline]) python_stack
    (Some (Z.of_nat (length python_stack))) /\
  snd (hybrid_loop (pre ++ [trampoline]) python_stack
         (Some (Z.of_nat (length python_stack)))) = Ret tt /\
  length (fst (hybrid_loop (pre ++ [trampoline]) python_stack
                 (Some (Z.of_nat (length python_stack))))) = S (length pre).
Proof.
  intros Heval. revert python_stack.
  induction pre as [|frame pre IH]; intros python_stack Hcount.
  - destruct python_stack as [|p [|q ps]]; try discriminate Hcount.
    destruct trampoline as [[symbol file] line]. simpl in *. rewrite Heval.
    simpl. now destruct post.
  - assert (Hleft : bool_decide
              (Some (Z.of_nat (length python_stack)) = Some 0%Z) = false).
    { apply bool_decide_eq_false_2. intros [= Hz].
      destruct python_stack; [discriminate Hcount | discriminate Hz]. }
    cbn [app hybrid_loop]. rewrite Hleft.
    destruct frame as [[symbol file] line].
    unfold eval_frames in Hcount. cbn [filter list_filter] in Hcount.
    destruct (_is_eval_frame symbol) eqn:Hsym.
    + rewrite decide_True in Hcount by (simpl; exact Hsym).
      destruct python_stack as [|p ps]; [discriminate Hcount|].
      injection Hcount as Hcount.
      replace (Z.of_nat (length (p :: ps)) - 1)%Z with (Z.of_nat (length ps))
        by (simpl length; lia).
      destruct (IH ps Hcount) as (H1 & H2 & H3).
      unfold yield. cbn [fst snd]. rewrite H1. repeat split; auto.
      simpl. now rewrite H3.
    + rewrite decide_False in Hcount by (simpl; rewrite Hsym; discriminate).
      destruct (IH python_stack Hcount) as (H1 & H2 & H3).
      unfold yield. cbn [fst snd]. rewrite H1. repeat split; auto.
      simpl. now rewrite H3.
Qed.

Section HybridFacts.
Variable reader_Py_GetStackFrame : N -> option nat -> list pyframe.
Variable reader_Py_GetNativeStackFrame : N -> N -> option nat -> list pyframe.

(** C9.  When the pure-Python stack of an allocation record is not empty
    and the native trace holds as many eval-frame trampolines as the
    pure-Python stack has frames, [hybrid_stack_trace] yields up to the
    trampoline that takes the last pure-Python frame and ends there: it
    yields what it would if the native trace stopped at that trampoline,
    one frame per native frame up to it, and none of the native frames
    that follow. *)
Theorem hybrid_stack_trace_drops_frames_after_last_python_frame
    (self self1 self2 : PyAllocationRecord) (max_stacks : option nat)
    (python_stack pre post : list pyframe) (trampoline : pyframe) :
  _pure_python_stack_trace reader_Py_GetStackFrame self max_stacks =
    Ret (python_stack, self1) ->
  python_stack <> [] ->
  native_stack_trace reader_Py_GetNativeStackFrame self1 max_stacks =
    Ret (pre ++ trampoline :: post, self2) ->
  _is_eval_frame trampoline.1.1 = true ->
  S (eval_frames pre) = length python_stack ->
  hybrid_stack_trace reader_Py_GetStackFrame reader_Py_GetNativeStackFrame
      self max_stacks =
    hybrid_loop (pre ++ [trampoline]) python_stack
      (Some (Z.of_nat (length python_stack))) /\
  snd (hybrid_stack_trace reader_Py_GetStackFrame reader_Py_GetNativeStackFrame
         self max_stacks) = Ret tt /\
  length (fst (hybrid_stack_trace reader_Py_GetStackFrame
                 reader_Py_GetNativeStackFrame self max_stacks)) =
    S (length pre).
Proof.
  intros Hpure Hne Hnative Heval Hcount.
  destruct (hybrid_loop_last_python_frame pre post trampoline python_stack
              Heval Hcount) as (H1 & H2 & H3).
  assert (Hrun :
    hybrid_stack_trace reader_Py_GetStackFrame reader_Py_GetNativeStackFrame
      self max_stacks =
    hybrid_loop (pre ++ [trampoline]) python_stack
      (Some (Z.of_nat (length python_stack)))).
  { unfold hybrid_stack_trace. rewrite Hpure. cbn [gen_call].
    rewrite Hnative. cbn [gen_call].
    destruct python_stack; [contradiction|]. exact H1. }
  rewrite Hrun. auto.
Qed.

End HybridFacts.

Lemma hybrid_stack_trace_drops_frames_after_last_python_frame_witness :
  hybrid_stack_trace
    (fun _ _ => [("f", "a.py", 12%Z); ("glue", "x.pyx", 3%Z)])
    (fun _ _ _ => [("malloc", "libc.so", 0%Z);
                   ("_PyEval_EvalFrameDefault", "ceval.c", 0%Z);
                   ("Py_RunMain", "main.c", 0%Z);
                   ("_start", "crt0", 0%Z)])
    {| _tuple := sample_tuple Allocation_zero; _stack_trace := None;
       _native_stack_trace := None; _has_reader := true |} None
  = ([("malloc", "libc.so", 0%Z); ("f", "a.py", 12%Z)], Ret tt).
Proof.
  refine (proj1 (hybrid_stack_trace_drops_frames_after_last_python_frame
            _ _ _ _ _ None [("f", "a.py", 12%Z)]
            [("malloc", "libc.so", 0%Z)]
            [("Py_RunMain", "main.c", 0%Z); ("_start", "crt0", 0%Z)]
            ("_PyEval_EvalFrameDefault", "ceval.c", 0%Z) _ _ _ _ _)).
  - vm_compute. reflexivity.
  - discriminate.
  - vm_compute. reflexivity.
  - vm_compute. reflexivity.
  - vm_compute. reflexivity.
Defined.

(** ** The bounds on the loops are never reached *)

Section Totality.
Context `{WireLayout} {env : Environment}.
Variable ndebug : bool.

Lemma or_fail_not_true (msg : string) (a a' : Allocation)
    (parsed : result (bool * RecordReader)) (r' : RecordReader) :
  or_fail msg a parsed <> Ret (Return true a' r').
Proof.
  unfold or_fail. destruct parsed as [[[] r1]| | |]; simpl; discriminate.
Qed.

(** A turn that delivers an allocation has consumed the type tag at least. *)
Lemma body_Return_true (a a' : Allocation) (r r' : RecordReader) :
  nextAllocationRecord_body ndebug a r = Ret (Return true a' r') ->
  (length (src_data (d_input r')) < length (src_data (d_input r)))%nat.
Proof.
  unfold nextAllocationRecord_body.
  destruct (read_obj RecordType_codec (d_input r)) as [[ty|] input] eqn:E;
    [|discriminate].
  destruct (read_obj_inv _ _ _ _ E) as (_ & buf & _ & _ & _ & Hdata & Hlen).
  pose proof RecordType_sizeof_pos as Hpos.
  assert (Hlt : (length (src_data input) < length (src_data (d_input r)))%nat)
    by (rewrite Hdata, length_app; lia).
  destruct ty; intros Hbody;
    try discriminate; try (now apply or_fail_not_true in Hbody).
  destruct (parseAllocationRecord _ _) as [[ok rec] r1] eqn:Hp.
  apply parseAllocationRecord_quiet in Hp. destruct Hp as (_ & _ & Hp).
  destruct ok; simpl in Hbody; [|discriminate].
  destruct (getAllocationFrameIndex rec r1) as [[i r2]| | |] eqn:Hg;
    simpl in Hbody; try discriminate.
  apply getAllocationFrameIndex_quiet in Hg. destruct Hg as (_ & _ & Hg).
  injection Hbody as _ <-. simpl in Hp. lia.
Qed.

Lemma loop_delivers_shorter (fuel : nat) (a a' : Allocation) (r r' : RecordReader) :
  nextAllocationRecord_loop ndebug fuel a r = Some (Ret (true, a', r')) ->
  (length (src_data (d_input r')) < length (src_data (d_input r)))%nat.
Proof.
  revert r. induction fuel as [|fuel IH]; intros r; [discriminate|].
  simpl.
  destruct (nextAllocationRecord_body ndebug a r) as [[r1|ret a1 r1]| | |] eqn:E;
    try discriminate.
  - intros Hloop. apply IH in Hloop. apply body_Continue in E. lia.
  - intros [= -> -> ->]. now apply body_Return_true in E.
Qed.

Lemma populate_loop_returns (fuel : nat) (a : Allocation)
    (allocations : list Allocation) (r : RecordReader) :
  (length (src_data (d_input r)) < fuel)%nat ->
  exists x, populate_loop ndebug fuel a allocations r = Some x.
Proof.
  revert a allocations r.
  induction fuel as [|fuel IH]; intros a allocations r Hlt; [lia|].
  simpl. destruct (nextAllocationRecord_returns ndebug a r) as [x Hx].
  rewrite Hx. destruct x as [[[[] a'] r']| | |]; eauto.
  apply IH. apply loop_delivers_shorter in Hx. lia.
Qed.

Lemma _populate_allocations_returns (self : FileReader) :
  exists x, _populate_allocations ndebug self = Some x.
Proof.
  unfold _populate_allocations.
  destruct (negb _); [eauto|].
  destruct (_get_reader self) as [reader| | |]; cbn [bounded_bind]; eauto.
  destruct (Allocation_vector_reserve _); [eauto|].
  destruct (populate_loop_returns (S (length (src_data (d_input reader))))
              Allocation_zero (_native_allocations self) reader) as [x Hx]; [lia|].
  rewrite Hx. destruct x as [[allocations reader']| | |]; cbn [bounded_bind]; eauto.
Qed.

(** The two snapshot queries answer every resumption. *)
Lemma get_leaked_allocation_records_returns
    (snapshot : list Allocation -> N -> bool -> list AllocationTuple)
    (self : FileReader) (st : snapshot_query_state) :
  exists x, get_leaked_allocation_records ndebug snapshot self st = Some x.
Proof.
  destruct st as [merge_threads|inner]; simpl; [|eauto].
  destruct (_ensure_reader_is_open self); simpl; eauto.
  destruct (_populate_allocations_returns self) as [x Hx]. rewrite Hx.
  destruct x; simpl; eauto.
Qed.

Lemma get_high_watermark_allocation_records_returns
    (watermark : list Allocation -> HighWatermark)
    (snapshot : list Allocation -> N -> bool -> list AllocationTuple)
    (self : FileReader) (st : snapshot_query_state) :
  exists x,
    get_high_watermark_allocation_records ndebug watermark snapshot self st = Some x.
Proof.
  destruct st as [merge_threads|inner]; simpl; [|eauto].
  destruct (_ensure_reader_is_open self); simpl; eauto.
  destruct (_populate_allocations_returns self) as [x Hx]. rewrite Hx.
  destruct x as [self1| | |]; simpl; eauto.
  unfold _get_high_watermark.
  destruct (_high_watermark self1); simpl; eauto.
  destruct (_populate_allocations_returns self1) as [y Hy]. rewrite Hy.
  destruct y; simpl; eauto.
Qed.

End Totality.

(** ** FileReader *)

Section FileReaderFacts.
Context `{WireLayout} {env : Environment}.
Variable ndebug : bool.
Variable getHighWatermark : list Allocation -> HighWatermark.
Variable Py_GetSnapshotAllocationRecords :
  list Allocation -> N -> bool -> list AllocationTuple.

Lemma FileReader_close_closes (self self' : FileReader) :
  FileReader_close self = Ret self' ->
  exists reader, _reader self' = Some reader /\ isOpen reader = false.
Proof.
  unfold FileReader_close, _get_reader.
  destruct (_reader self) as [reader|]; simpl; [|discriminate].
  intros [= <-]. simpl. eauto.
Qed.


Lemma nextAllocationRecord_not_open (a : Allocation) (r : RecordReader) :
  isOpen r = false ->
  nextAllocationRecord ndebug a r = Some (Ret (false, a, r)).
Proof.
  intros Hclosed. apply nextAllocationRecord_Return.
  unfold nextAllocationRecord_body, read_obj, pbind, Source_read.
  unfold isOpen, Source_is_open in Hclosed. rewrite Hclosed. simpl.
  now rewrite set_input_same.
Qed.



End FileReaderFacts.



(** * Further properties *)

(** ** Reads only consume *)

Lemma bytes_eqb_eq (a b : list byte) : bytes_eqb a b = true <-> a = b.
Proof.
  split; [|intros ->; apply bytes_eqb_refl].
  revert b. induction a as [|x a IH]; intros [|y b]; simpl; try discriminate; auto.
  intros Hb. apply andb_true_iff in Hb. destruct Hb as [Hxy Hab].
  apply byte_dec_bl in Hxy. apply IH in Hab. congruence.
Qed.

Lemma split_at_sep_inv (sep : byte) (l line rest : list byte) :
  split_at_sep sep l = Some (line, rest) ->
  l = line ++ sep :: rest /\ sep ∉ line.
Proof.
  revert line rest. induction l as [|b l IH]; simpl; intros line rest; [discriminate|].
  destruct (Byte.eqb b sep) eqn:Hb.
  - intros [= <- <-]. apply byte_dec_bl in Hb. subst. split; [reflexivity|].
    apply not_elem_of_nil.
  - destruct (split_at_sep sep l) as [[line' rest']|]; [|discriminate].
    intros [= <- <-]. destruct (IH _ _ eq_refl) as [-> Hnot].
    split; [reflexivity|]. apply not_elem_of_cons. split; [|exact Hnot].
    intros <-. apply eqb_false in Hb. contradiction.
Qed.

Lemma split_at_sep_app (sep : byte) (line rest : list byte) :
  sep ∉ line -> split_at_sep sep (line ++ sep :: rest) = Some (line, rest).
Proof.
  induction line as [|b line IH]; simpl; intros Hnot.
  - now rewrite (byte_dec_lb eq_refl).
  - apply not_elem_of_cons in Hnot. destruct Hnot as [Hne Hnot].
    destruct (Byte.eqb b sep) eqn:Hb.
    + apply byte_dec_bl in Hb. congruence.
    + now rewrite IH.
Qed.

Section Consuming.
Context {env : Environment}.

Lemma Source_getline_app (sep : byte) (s : Source) (line rest : list byte) :
  src_open s = true -> src_data s = line ++ sep :: rest -> sep ∉ line ->
  Source_getline sep s =
    (Some (string_of_list_byte line), {| src_data := rest; src_open := true |}).
Proof.
  intros Hopen Hdata Hnot. unfold Source_getline.
  now rewrite Hopen, Hdata, split_at_sep_app.
Qed.

Lemma consuming_pret {A} (a : A) : consuming (pret a).
Proof. intros s o s' [= <- <-]. split; [reflexivity | split; auto]. Qed.

Lemma consuming_pbind {A B} (p : parser A) (k : A -> parser B) :
  consuming p -> (forall a, consuming (k a)) -> consuming (pbind p k).
Proof.
  intros Hp Hk s o s'. unfold pbind.
  destruct (p s) as [[a|] s1] eqn:E; intros Hq.
  - destruct (Hp _ _ _ E) as (H1 & H2 & H3).
    destruct (Hk a _ _ _ Hq) as (H4 & H5 & H6).
    split; [etrans; eassumption|]. split; [auto|].
    intros Hc. rewrite H6, H3; auto.
  - injection Hq as <- <-. exact (Hp _ _ _ E).
Qed.

Lemma consuming_Source_dry (s : Source) :
  src_data (Source_dry s) `suffix_of` src_data s /\
  (src_open (Source_dry s) = true -> src_open s = true) /\
  (closed_from_outside = false -> src_open (Source_dry s) = src_open s).
Proof.
  unfold Source_dry. destruct closed_from_outside; simpl.
  - repeat split; [reflexivity | discriminate | discriminate].
  - repeat split; auto.
Qed.

Lemma consuming_Source_read (n : nat) : consuming (Source_read n).
Proof.
  intros s o s'. unfold Source_read.
  destruct (src_open s) eqn:Hopen.
  - destruct (n <=? length (src_data s))%nat.
    + intros [= <- <-]. simpl. split; [|split; auto].
      rewrite <- (take_drop n (src_data s)) at 2. now apply suffix_app_r.
    + intros [= <- <-]. destruct (consuming_Source_dry s) as (A & B & C).
      split; [exact A|]. split; [auto|]. intros Hc. rewrite C; auto.
  - intros [= <- <-]. split; [reflexivity | split; [congruence | auto]].
Qed.

Lemma consuming_Source_getline (sep : byte) : consuming (Source_getline sep).
Proof.
  intros s o s'. unfold Source_getline.
  destruct (src_open s) eqn:Hopen.
  - destruct (split_at_sep sep (src_data s)) as [[line rest]|] eqn:E.
    + intros [= <- <-]. simpl. apply split_at_sep_inv in E. destruct E as [-> _].
      split; [|split; auto]. apply suffix_app_r, suffix_cons_r. reflexivity.
    + intros [= <- <-]. destruct (consuming_Source_dry s) as (A & B & C).
      split; [exact A|]. split; [auto|]. intros Hc. rewrite C; auto.
  - intros [= <- <-]. split; [reflexivity | split; [congruence | auto]].
Qed.

Lemma consuming_read_obj {A} (c : codec A) : consuming (read_obj c).
Proof.
  unfold read_obj. apply consuming_pbind; [apply consuming_Source_read|].
  intros buf. apply consuming_pret.
Qed.

Lemma further_refl (r : RecordReader) : further r r.
Proof. split; [reflexivity|]. split; [reflexivity | split; auto]. Qed.

Lemma further_trans (r1 r2 r3 : RecordReader) :
  further r1 r2 -> further r2 r3 -> further r1 r3.
Proof.
  intros (A & B & C & D) (E & F & G & I).
  split; [congruence|]. split; [etrans; eassumption|]. split; [auto|].
  intros Hc. rewrite I, D; auto.
Qed.

Lemma further_consuming {A} (p : parser A) (r r' : RecordReader)
    (o : option A) (input : Source) :
  consuming p -> p (d_input r) = (o, input) ->
  d_header r' = d_header r -> d_input r' = input -> further r r'.
Proof.
  intros Hp E Hh Hin. destruct (Hp _ _ _ E) as (H1 & H2 & H3).
  subst input. repeat split; auto.
Qed.

End Consuming.

Ltac consuming :=
  repeat first
    [ apply consuming_pret | apply consuming_Source_read
    | apply consuming_Source_getline | apply consuming_read_obj
    | (apply consuming_pbind; [|intros ?]) ].

(** ** The header *)

Section HeaderMore.
Context `{WireLayout} {env : Environment}.

(** X1.  The constructor throws "does not look like a binary generated by
    pensieve" exactly when the source is closed or its data does not begin
    with the magic bytes. *)
Theorem RecordReader_new_bad_magic (header0 : HeaderRecord) (source : Source) :
  RecordReader_new header0 source =
    Throw (ios_failure
      "The provided input file does not look like a binary generated by pensieve.")
  <-> ~ (src_open source = true /\ exists rest, src_data source = MAGIC ++ rest).
Proof.
  unfold RecordReader_new, readHeader.
  destruct (Source_read (length MAGIC) source) as [[m|] input1] eqn:E.
  - destruct (Source_read_inv _ _ _ _ E) as (_ & Hopen & _ & Hdata & Hlen).
    simpl. destruct (bytes_eqb m MAGIC) eqn:Hm; simpl.
    + apply bytes_eqb_eq in Hm. subst m. split.
      * destruct (read_obj version_codec input1) as [v input2].
        destruct (negb _); [discriminate|].
        match goal with |- context [pbind ?p ?k input2] =>
          destruct (pbind p k input2) as [[[[nt st] cl]|] input3] end;
          [|discriminate].
        destruct (read_obj pid_codec input3) as [[p|] input4]; discriminate.
      * intros Hnot. exfalso. apply Hnot. eauto.
    + split; [|reflexivity]. intros _ (_ & rest & Hrest).
      assert (m = MAGIC); [|subst; now rewrite bytes_eqb_refl in Hm].
      rewrite Hdata in Hrest.
      apply (f_equal (take (length MAGIC))) in Hrest.
      rewrite <- Hlen in Hrest at 1. now rewrite !take_app_length in Hrest.
  - simpl. split; [|reflexivity]. intros _ (Hopen & rest & Hrest).
    rewrite (Source_read_app source MAGIC rest Hopen Hrest) in E. discriminate.
Qed.

(** X2.  A reader the constructor returns has read the magic bytes and the
    current version: its header holds both, its source is open, and what
    it has left to read is the end of the stream it was given. *)
Theorem RecordReader_new_Ret
    (header0 : HeaderRecord) (source : Source) (r : RecordReader) :
  RecordReader_new header0 source = Ret r ->
  magic (getHeader r) = MAGIC /\
  version (getHeader r) = CURRENT_HEADER_VERSION /\
  isOpen r = true /\
  src_data (d_input r) `suffix_of` src_data source /\
  d_frame_map r = ∅ /\ d_stack_traces r = ∅ /\ d_log r = [].
Proof.
  unfold RecordReader_new, readHeader.
  destruct (Source_read (length MAGIC) source) as [[m|] input1] eqn:E1;
    [|discriminate].
  simpl. destruct (bytes_eqb m MAGIC) eqn:Hm; [|discriminate]. simpl.
  apply bytes_eqb_eq in Hm. subst m.
  destruct (read_obj version_codec input1) as [v input2] eqn:E2.
  destruct (Z.eqb_spec (default (version header0) v) CURRENT_HEADER_VERSION)
    as [Hv|]; [|discriminate]. simpl.
  match goal with |- context [pbind ?p ?k input2] =>
    destruct (pbind p k input2) as [[[[nt st] cl]|] input3] eqn:E3 end;
    [|discriminate].
  destruct (read_obj pid_codec input3) as [[p|] input4] eqn:E4; [|discriminate].
  simpl. intros [= <-]. simpl.
  destruct (consuming_Source_read _ _ _ _ E1) as (S1 & _ & _).
  destruct (consuming_read_obj _ _ _ _ E2) as (S2 & _ & _).
  assert (C3 : consuming
    (let? nt := read_obj native_traces_codec in
     let? st := read_obj stats_codec in
     let? cl := Source_getline x00 in pret (nt, st, cl))) by consuming.
  destruct (C3 _ _ _ E3) as (S3 & _ & _).
  destruct (consuming_read_obj _ _ _ _ E4) as (S4 & _ & _).
  destruct (read_obj_inv _ _ _ _ E4) as (_ & buf & _ & _ & Hopen4 & _).
  repeat split; auto.
  do 3 (etrans; [eassumption|]). assumption.
Qed.

(** X3.  On a stream made of the magic bytes, the current version, the
    native-traces flag, the statistics, a command line ended by NUL (which
    may be empty) and the pid, the constructor returns a reader whose
    header holds those fields decoded, positioned right after the pid, with
    no frames, stacks, threads or native frames yet. *)
Theorem RecordReader_new_well_formed
    (header0 : HeaderRecord) (source : Source)
    (vb ntb stb cmd pidb rest : list byte) :
  src_open source = true ->
  src_data source = MAGIC ++ vb ++ ntb ++ stb ++ cmd ++ x00 :: pidb ++ rest ->
  length vb = sizeof version_codec ->
  decode version_codec vb = CURRENT_HEADER_VERSION ->
  length ntb = sizeof native_traces_codec ->
  length stb = sizeof stats_codec ->
  x00 ∉ cmd ->
  length pidb = sizeof pid_codec ->
  RecordReader_new header0 source =
    Ret {| d_input := {| src_data := rest; src_open := true |};
           d_header :=
             {| magic := MAGIC; version := CURRENT_HEADER_VERSION;
                native_traces := decode native_traces_codec ntb;
                stats := decode stats_codec stb;
                command_line := string_of_list_byte cmd;
                pid := decode pid_codec pidb |};
           d_frame_map := ∅;
           d_allocation_frames := allocation_frames_init;
           d_stack_traces := ∅; d_tree := FrameTree_init;
           d_native_frames := [];
           d_symbol_resolver := SymbolResolver_init;
           d_thread_names := ∅; d_log := [] |}.
Proof.
  intros Hopen Hdata Hvb Hv Hntb Hstb Hcmd Hpidb.
  unfold RecordReader_new, readHeader.
  rewrite (Source_read_app source MAGIC _ Hopen Hdata). simpl.
  rewrite bytes_eqb_refl. simpl.
  rewrite (read_obj_app version_codec {| src_data := _; src_open := true |}
             vb _ eq_refl eq_refl Hvb). simpl.
  rewrite Hv, Z.eqb_refl. simpl. unfold pbind at 1.
  rewrite (read_obj_app native_traces_codec {| src_data := _; src_open := true |}
             ntb _ eq_refl eq_refl Hntb). unfold pbind at 1.
  rewrite (read_obj_app stats_codec {| src_data := _; src_open := true |}
             stb _ eq_refl eq_refl Hstb). unfold pbind at 1.
  rewrite (Source_getline_app x00 {| src_data := _; src_open := true |}
             cmd (pidb ++ rest) eq_refl eq_refl Hcmd). unfold pret.
  rewrite (read_obj_app pid_codec {| src_data := _; src_open := true |}
             pidb rest eq_refl eq_refl Hpidb).
  reflexivity.
Qed.

End HeaderMore.

Lemma RecordReader_new_bad_magic_witness :
  RecordReader_new (H := sample_layout) (env := sample_env) HeaderRecord_zero
    (sample_source (list_byte_of_string "not a capture")) =
  Throw (ios_failure
    "The provided input file does not look like a binary generated by pensieve.").
Proof.
  apply (proj2 (RecordReader_new_bad_magic (H := sample_layout) (env := sample_env) HeaderRecord_zero
                  (sample_source (list_byte_of_string "not a capture")))).
  intros (_ & rest & Hrest). vm_compute in Hrest. discriminate Hrest.
Defined.

Lemma RecordReader_new_Ret_witness :
  exists r,
    RecordReader_new (H := sample_layout) (env := sample_env) HeaderRecord_zero
      (sample_source (sample_header 1 ++ sample_FRAME_PUSH 7 2)) = Ret r /\
    version (getHeader r) = 1%Z /\ isOpen r = true.
Proof.
  eexists. split; [vm_compute; reflexivity|].
  edestruct (RecordReader_new_Ret (H := sample_layout) (env := sample_env) HeaderRecord_zero
               (sample_source (sample_header 1 ++ sample_FRAME_PUSH 7 2)))
    as (_ & Hv & Ho & _).
  - vm_compute. reflexivity.
  - split; [exact Hv | exact Ho].
Defined.

Lemma RecordReader_new_well_formed_witness :
  exists r,
    RecordReader_new (H := sample_layout) (env := sample_env) HeaderRecord_zero
      (sample_source (list_byte_of_string "pensiev" ++ [x00] ++ Z_le 2 1 ++ [x01]
                      ++ N_le 32 0 ++ x00 :: Z_le 4 42 ++ sample_FRAME_PUSH 7 2))
      = Ret r /\
    command_line (getHeader r) = "" /\ pid (getHeader r) = 42%Z /\
    src_data (d_input r) = sample_FRAME_PUSH 7 2.
Proof.
  eexists. split.
  - apply (RecordReader_new_well_formed (H := sample_layout) (env := sample_env) HeaderRecord_zero
             _ (Z_le 2 1) [x01] (N_le 32 0) [] (Z_le 4 42) (sample_FRAME_PUSH 7 2));
      try reflexivity.
    apply not_elem_of_nil.
  - vm_compute. auto.
Defined.

(** ** What decoding keeps *)

Lemma keeps_refl (r : RecordReader) : keeps r r.
Proof. split; reflexivity. Qed.

Lemma keeps_trans (r1 r2 r3 : RecordReader) : keeps r1 r2 -> keeps r2 r3 -> keeps r1 r3.
Proof. intros [A B] [C D]. split; etrans; eassumption. Qed.

Lemma map_emplace_subseteq {V} (k : N) (v : V) (m : gmap N V) :
  m ⊆ map_emplace k v m.
Proof.
  unfold map_emplace. destruct (m !! k) eqn:E; [reflexivity|].
  now apply insert_subseteq.
Qed.

Section Advance.
Context `{WireLayout} {env : Environment}.
Variable ndebug : bool.

Ltac parsed_further E :=
  eapply further_consuming; [| exact E | reflexivity | reflexivity]; consuming.

Lemma parseFramePush_advance (r r' : RecordReader) (b : bool) :
  parseFramePush r = Ret (b, r') -> further r r' /\ keeps r r'.
Proof.
  unfold parseFramePush.
  destruct (read_obj FramePush_codec (d_input r)) as [[rec|] input] eqn:E;
    intros [= <- <-]; (split; [parsed_further E | (split; reflexivity)]).
Qed.

Lemma parseFramePop_advance (r r' : RecordReader) (b : bool) :
  parseFramePop ndebug r = Ret (b, r') -> further r r' /\ keeps r r'.
Proof.
  unfold parseFramePop.
  destruct (read_obj FramePop_codec (d_input r)) as [[rec|] input] eqn:E.
  - destruct (c_assert _ _); simpl; try discriminate.
    destruct (pop_back_n _ _ _); simpl; try discriminate.
    intros [= <- <-]; (split; [parsed_further E | (split; reflexivity)]).
  - intros [= <- <-]; (split; [parsed_further E | (split; reflexivity)]).
Qed.

Lemma parseFrameIndex_advance (r r' : RecordReader) (b : bool) :
  parseFrameIndex r = Ret (b, r') -> further r r' /\ keeps r r'.
Proof.
  unfold parseFrameIndex.
  match goal with |- context [pbind ?p ?k (d_input r)] =>
    destruct (pbind p k (d_input r)) as [[[id frame]|] input] eqn:E end.
  - destruct (d_frame_map r !! id) eqn:Hid; [discriminate|].
    intros [= <- <-]. split; [parsed_further E|].
    split; simpl; [now apply insert_subseteq | reflexivity].
  - intros [= <- <-]; (split; [parsed_further E | (split; reflexivity)]).
Qed.

Lemma parseNativeFrameIndex_advance (r r' : RecordReader) (b : bool) :
  parseNativeFrameIndex r = Ret (b, r') -> further r r' /\ keeps r r'.
Proof.
  unfold parseNativeFrameIndex.
  destruct (read_obj UnresolvedNativeFrame_codec (d_input r)) as [[rec|] input] eqn:E;
    intros [= <- <-]; (split; [parsed_further E|]).
  - split; simpl; [reflexivity | now apply prefix_app_r].
  - (split; reflexivity).
Qed.

Lemma parseAllocationRecord_advance (r r' : RecordReader) (b : bool)
    (rec rec' : AllocationRecord) :
  parseAllocationRecord rec r = (b, rec', r') -> further r r' /\ keeps r r'.
Proof.
  unfold parseAllocationRecord.
  destruct (read_obj AllocationRecord_codec (d_input r)) as [[x|] input] eqn:E;
    intros [= <- <- <-]; (split; [parsed_further E | (split; reflexivity)]).
Qed.

Lemma parseAllocationRecord_open (r r' : RecordReader)
    (rec rec' : AllocationRecord) (b : bool) :
  parseAllocationRecord rec r = (b, rec', r') ->
  b = true -> src_open (d_input r') = true.
Proof.
  unfold parseAllocationRecord.
  destruct (read_obj AllocationRecord_codec (d_input r)) as [[x|] input] eqn:E;
    intros [= <- <- <-]; [|discriminate].
  intros _. destruct (read_obj_inv _ _ _ _ E) as (_ & buf & _ & _ & Ho & _).
  exact Ho.
Qed.

Lemma getAllocationFrameIndex_input (rec : AllocationRecord)
    (r r' : RecordReader) (i : N) :
  getAllocationFrameIndex rec r = Ret (i, r') -> d_input r' = d_input r.
Proof.
  unfold getAllocationFrameIndex.
  destruct (d_stack_traces r !! tid rec) as [stack|]; [|now intros [= <- <-]].
  unfold correctAllocationFrame.
  destruct (last stack) as [top|].
  - destruct (d_frame_map r !! top) as [frame|]; [|discriminate].
    destruct (getIndex _ _) as [[id new] frames]. simpl.
    destruct (getTraceIndex _ _) as [idx tree].
    destruct new; now intros [= <- <-].
  - simpl. destruct (getTraceIndex _ _) as [idx tree]. now intros [= <- <-].
Qed.

Lemma parseSegment_advance (r r' : RecordReader) (b : bool) (seg seg' : Segment) :
  parseSegment ndebug seg r = Ret (b, seg', r') ->
  further r r' /\ keeps r r' /\ d_symbol_resolver r' = d_symbol_resolver r.
Proof.
  unfold parseSegment.
  destruct (read_obj RecordType_codec (d_input r)) as [[ty|] input] eqn:E.
  - destruct (c_assert _ _); simpl; try discriminate.
    destruct (read_obj Segment_codec input) as [[x|] input'] eqn:E';
      intros [= <- <- <-];
      (split; [|split; [(split; reflexivity) | reflexivity]]);
      (eapply (further_consuming
                 (let? _ := read_obj RecordType_codec in read_obj Segment_codec));
       [consuming | unfold pbind; rewrite E; exact E' | reflexivity | reflexivity]).
  - intros [= <- <- <-].
    split; [parsed_further E | split; [(split; reflexivity) | reflexivity]].
Qed.

Lemma parseSegments_advance (n : nat) (segs : list Segment) (r r' : RecordReader)
    (o : option (list Segment)) :
  parseSegments ndebug n segs r = Ret (o, r') ->
  further r r' /\ keeps r r' /\ d_symbol_resolver r' = d_symbol_resolver r /\
  match o with
  | Some segs' => exists parsed, segs' = segs ++ parsed /\ length parsed = n
  | None => True
  end.
Proof.
  revert segs r. induction n as [|n IH]; simpl; intros segs r.
  - intros [= <- <-]. split; [apply further_refl|]. split; [(split; reflexivity)|].
    split; [reflexivity|]. exists []. now rewrite app_nil_r.
  - destruct (parseSegment ndebug Segment_zero r) as [[[ok seg] r1]| | |] eqn:E;
      simpl; try discriminate.
    apply parseSegment_advance in E. destruct E as (F1 & K1 & S1). destruct ok.
    + intros E2. apply IH in E2. destruct E2 as (F2 & K2 & S2 & Ho).
      split; [eapply further_trans; eauto|].
      split; [eapply keeps_trans; eauto|]. split; [congruence|].
      destruct o as [segs'|]; [|exact I].
      destruct Ho as (parsed & -> & Hlen). exists (seg :: parsed).
      split; [now rewrite <- app_assoc | simpl; lia].
    + intros [= <- <-]. auto.
Qed.

Lemma parseSegmentHeader_advance (r r' : RecordReader) (b : bool) :
  parseSegmentHeader ndebug r = Ret (b, r') -> further r r' /\ keeps r r'.
Proof.
  unfold parseSegmentHeader.
  match goal with |- context [pbind ?p ?k (d_input r)] =>
    destruct (pbind p k (d_input r)) as [[[[fn num] addr]|] input] eqn:E end.
  - destruct (Segment_vector_new num); [discriminate|].
    destruct (parseSegments _ _ _ _) as [[o r1]| | |] eqn:E2; simpl; try discriminate.
    apply parseSegments_advance in E2. destruct E2 as (F2 & K2 & _).
    assert (F1 : further r (set_input input r)) by parsed_further E.
    destruct o; intros [= <- <-].
    + split; [eapply further_trans; [exact F1 | exact F2] | exact K2].
    + split; [eapply further_trans; eauto | exact K2].
  - intros [= <- <-]; (split; [parsed_further E | (split; reflexivity)]).
Qed.

Lemma parseThreadRecord_advance (r r' : RecordReader) (b : bool) :
  parseThreadRecord r = Ret (b, r') -> further r r' /\ keeps r r'.
Proof.
  unfold parseThreadRecord.
  match goal with |- context [pbind ?p ?k (d_input r)] =>
    destruct (pbind p k (d_input r)) as [[[t name]|] input] eqn:E end;
    intros [= <- <-]; (split; [parsed_further E | (split; reflexivity)]).
Qed.

Lemma getAllocationFrameIndex_advance (rec : AllocationRecord)
    (r r' : RecordReader) (i : N) :
  getAllocationFrameIndex rec r = Ret (i, r') ->
  further r r' /\ keeps r r' /\ d_symbol_resolver r' = d_symbol_resolver r.
Proof.
  unfold getAllocationFrameIndex.
  destruct (d_stack_traces r !! tid rec) as [stack|].
  2:{ intros [= <- <-].
      split; [apply further_refl | split; [(split; reflexivity) | reflexivity]]. }
  unfold correctAllocationFrame.
  destruct (last stack) as [top|].
  - destruct (d_frame_map r !! top) as [frame|]; [|discriminate].
    destruct (getIndex _ _) as [[id new] frames]. simpl.
    destruct (getTraceIndex _ _) as [idx tree].
    destruct new; intros [= <- <-]; simpl;
      (split; [exact (further_refl r)|]); (split; [|reflexivity]);
      split; simpl; try reflexivity.
    apply map_emplace_subseteq.
  - simpl. destruct (getTraceIndex _ _) as [idx tree]. intros [= <- <-].
    split; [exact (further_refl r) | split; [(split; reflexivity) | reflexivity]].
Qed.

Lemma log_error_if_open_facts (msg : string) (r : RecordReader) :
  further r (log_error_if_open msg r) /\ keeps r (log_error_if_open msg r) /\
  d_log (log_error_if_open msg r) =
    if Source_is_open (d_input r) then d_log r ++ [msg] else d_log r.
Proof.
  unfold log_error_if_open.
  destruct (Source_is_open (d_input r)); simpl;
    (split; [exact (further_refl r) | split; [(split; reflexivity) | reflexivity]]).
Qed.

Lemma or_fail_turn_ok (msg : string) (a : Allocation) (r0 r : RecordReader)
    (parsed : result (bool * RecordReader)) (it : iteration) :
  further r0 r -> keeps r0 r -> d_log r = d_log r0 ->
  (forall b r', parsed = Ret (b, r') -> (further r r' /\ keeps r r') /\ quiet r r') ->
  or_fail msg a parsed = Ret it -> turn_ok a r0 it.
Proof.
  intros F K L Hp. unfold or_fail.
  destruct parsed as [[ok r1]| | |]; simpl; try discriminate.
  destruct (Hp _ _ eq_refl) as ((F1 & K1) & (Q1 & Q2 & _)).
  destruct ok; intros [= <-]; simpl.
  - split; [eapply further_trans; eauto|]. split; [eapply keeps_trans; eauto|].
    congruence.
  - destruct (log_error_if_open_facts msg r1) as (F2 & K2 & L2).
    split; [eapply further_trans; [exact F|eapply further_trans; eauto]|].
    split; [eapply keeps_trans; [exact K|eapply keeps_trans; eauto]|].
    split; [reflexivity|]. rewrite L2. unfold Source_is_open, isOpen.
    destruct F as (_ & _ & F & _). destruct F1 as (_ & _ & F1 & _).
    unfold Source_is_open.
    destruct (src_open (d_input r1)) eqn:Ho.
    + right. split; [auto|]. exists msg. congruence.
    + left. congruence.
Qed.

Lemma body_turn_ok (a : Allocation) (r : RecordReader) (it : iteration) :
  nextAllocationRecord_body ndebug a r = Ret it -> turn_ok a r it.
Proof.
  unfold nextAllocationRecord_body.
  destruct (read_obj RecordType_codec (d_input r)) as [[ty|] input] eqn:E.
  2:{ intros [= <-]. simpl.
      split; [eapply further_consuming; [| exact E | reflexivity | reflexivity];
              consuming|].
      split; [(split; reflexivity)|]. auto. }
  assert (F : further r (set_input input r)) by
    (eapply further_consuming; [| exact E | reflexivity | reflexivity]; consuming).
  assert (K : keeps r (set_input input r)) by (split; reflexivity).
  assert (L : d_log (set_input input r) = d_log r) by reflexivity.
  destruct ty.
  - destruct (parseAllocationRecord _ _) as [[ok rec] r1] eqn:Hp.
    pose proof (parseAllocationRecord_quiet _ _ _ _ _ Hp) as (Q1 & Q2 & _).
    pose proof (parseAllocationRecord_open _ _ _ _ _ Hp) as Hopen1.
    apply parseAllocationRecord_advance in Hp. destruct Hp as [F1 K1].
    destruct ok; simpl.
    + destruct (getAllocationFrameIndex rec r1) as [[i r2]| | |] eqn:Hg;
        simpl; try discriminate.
      pose proof (getAllocationFrameIndex_quiet _ _ _ _ Hg) as (Q3 & _).
      pose proof (getAllocationFrameIndex_input _ _ _ _ Hg) as Hin2.
      apply getAllocationFrameIndex_advance in Hg. destruct Hg as (F2 & K2 & _).
      intros [= <-]. simpl.
      split; [eapply further_trans; [exact F|eapply further_trans; eauto]|].
      split; [eapply keeps_trans; [exact K|eapply keeps_trans; eauto]|].
      split; [congruence|]. split; [|reflexivity].
      rewrite Hin2. exact (Hopen1 eq_refl).
    + intros [= <-]. simpl.
      destruct (log_error_if_open_facts "Failed to parse allocation record" r1)
        as (F2 & K2 & L2).
      split; [eapply further_trans; [exact F|eapply further_trans; eauto]|].
      split; [eapply keeps_trans; [exact K|eapply keeps_trans; eauto]|].
      split; [reflexivity|]. rewrite L2. unfold Source_is_open, isOpen.
      destruct F as (_ & _ & F & _). destruct F1 as (_ & _ & F1 & _).
      unfold Source_is_open.
      destruct (src_open (d_input r1)) eqn:Ho.
      * cbn [d_input d_log set_input] in *.
        right. split; [auto|]. eexists. rewrite Q1. reflexivity.
      * cbn [d_input d_log set_input] in *. left. congruence.
  - apply (or_fail_turn_ok _ _ _ _ _ _ F K L). intros b r' Hp.
    split; [now apply parseFrameIndex_advance in Hp
           | now apply parseFrameIndex_quiet in Hp].
  - apply (or_fail_turn_ok _ _ _ _ _ _ F K L). intros b r' Hp.
    split; [now apply parseFramePush_advance in Hp
           | now apply parseFramePush_quiet in Hp].
  - apply (or_fail_turn_ok _ _ _ _ _ _ F K L). intros b r' Hp.
    split; [now apply parseFramePop_advance in Hp
           | now apply parseFramePop_quiet in Hp].
  - apply (or_fail_turn_ok _ _ _ _ _ _ F K L). intros b r' Hp.
    split; [now apply parseNativeFrameIndex_advance in Hp
           | now apply parseNativeFrameIndex_quiet in Hp].
  - intros [= <-]. simpl. split; [|split; [|reflexivity]].
    + exact F.
    + exact K.
  - apply (or_fail_turn_ok _ _ _ _ _ _ F K L). intros b r' Hp.
    split; [now apply parseSegmentHeader_advance in Hp
           | now apply parseSegmentHeader_quiet in Hp].
  - intros [= <-]. simpl.
    destruct (log_error_if_open_facts "Invalid record type" (set_input input r))
      as (F2 & K2 & L2).
    split; [eapply further_trans; eauto|]. split; [exact K2|].
    split; [reflexivity|]. rewrite L2. cbn [d_input d_log set_input].
    destruct (read_obj_inv _ _ _ _ E) as (_ & buf & _ & Ht & Ho & _).
    unfold isOpen, Source_is_open. rewrite Ho, Ht.
    right. split; [reflexivity|]. eexists. reflexivity.
  - apply (or_fail_turn_ok _ _ _ _ _ _ F K L). intros b r' Hp.
    split; [now apply parseThreadRecord_advance in Hp
           | now apply parseThreadRecord_quiet in Hp].
  - intros [= <-]. simpl.
    destruct (log_error_if_open_facts "Invalid record type" (set_input input r))
      as (F2 & K2 & L2).
    split; [eapply further_trans; eauto|]. split; [exact K2|].
    split; [reflexivity|]. rewrite L2. cbn [d_input d_log set_input].
    destruct (read_obj_inv _ _ _ _ E) as (_ & buf & _ & Ht & Ho & _).
    unfold isOpen, Source_is_open. rewrite Ho, Ht.
    right. split; [reflexivity|]. eexists. reflexivity.
Qed.

Lemma loop_turn_ok (fuel : nat) (a a' : Allocation) (r r' : RecordReader) (b : bool) :
  nextAllocationRecord_loop ndebug fuel a r = Some (Ret (b, a', r')) ->
  turn_ok a r (Return b a' r').
Proof.
  revert r. induction fuel as [|fuel IH]; intros r; [discriminate|]. simpl.
  destruct (nextAllocationRecord_body ndebug a r) as [[r1|ret a1 r1]| | |] eqn:E;
    try discriminate.
  - intros Hloop. apply IH in Hloop. apply body_turn_ok in E.
    destruct E as (F & K & L).
    destruct b; simpl in *; unfold isOpen, Source_is_open in *.
    + destruct Hloop as (F1 & K1 & L1 & G).
      split; [eapply further_trans; eauto|]. split; [eapply keeps_trans; eauto|].
      split; [congruence | exact G].
    + destruct Hloop as (F1 & K1 & Ha & Hl).
      split; [eapply further_trans; eauto|]. split; [eapply keeps_trans; eauto|].
      split; [exact Ha|]. destruct F as (_ & _ & Fo & _).
      destruct Hl as [Hl|[Ho [msg Hl]]]; [left; congruence|].
      right. split; [auto|]. exists msg. congruence.
  - intros [= -> -> ->]. now apply body_turn_ok in E.
Qed.

(** X4.  What a caller can rely on when [nextAllocationRecord] returns:
    on [true] nothing was logged and the allocation carries the resolver
    generation current at its return; on [false] the caller's allocation is
    as it was and at most one error was logged, and none when the source
    was not open. *)
Theorem nextAllocationRecord_contract
    (a a' : Allocation) (r r' : RecordReader) (b : bool) :
  nextAllocationRecord ndebug a r = Some (Ret (b, a', r')) ->
  (b = true ->
     d_log r' = d_log r /\
     native_segment_generation a' =
       currentSegmentGeneration (d_symbol_resolver r')) /\
  (b = false ->
     a' = a /\
     (d_log r' = d_log r \/
      isOpen r = true /\ exists msg, d_log r' = d_log r ++ [msg])).
Proof.
  intros Hnext. apply loop_turn_ok in Hnext.
  split; intros ->; simpl in Hnext; tauto.
Qed.

(** X5.  [nextAllocationRecord] only moves forward: when it returns, the
    header is what it was and what is left to read is the end of what was
    left before.  It never opens its source: a source open afterwards was
    open before, and it is after a [true].  A source that was open is
    found closed afterwards only when it has been closed from outside:
    where that does not happen it is as open as it was. *)
Theorem nextAllocationRecord_only_consumes
    (a a' : Allocation) (r r' : RecordReader) (b : bool) :
  nextAllocationRecord ndebug a r = Some (Ret (b, a', r')) ->
  getHeader r' = getHeader r /\
  src_data (d_input r') `suffix_of` src_data (d_input r) /\
  (isOpen r' = true -> isOpen r = true) /\
  (b = true -> isOpen r' = true) /\
  (closed_from_outside = false -> isOpen r' = isOpen r).
Proof.
  intros Hnext. apply loop_turn_ok in Hnext.
  assert (F : further r r') by (destruct b; simpl in Hnext; tauto).
  destruct F as (F1 & F2 & F3 & F4).
  split; [exact F1|]. split; [exact F2|]. split; [exact F3|]. split; [|exact F4].
  intros ->. simpl in Hnext. tauto.
Qed.

(** X6.  Decoding never redefines or forgets a frame: whatever records
    [nextAllocationRecord] goes through, every id [frame_map] knew still
    stands for the same frame, and every native frame is still where it
    was in [d_native_frames]. *)
Theorem nextAllocationRecord_keeps_frames
    (a a' : Allocation) (r r' : RecordReader) (b : bool) :
  nextAllocationRecord ndebug a r = Some (Ret (b, a', r')) ->
  (forall id frame, d_frame_map r !! id = Some frame ->
                    d_frame_map r' !! id = Some frame) /\
  (forall i frame, d_native_frames r !! i = Some frame ->
                   d_native_frames r' !! i = Some frame).
Proof.
  intros Hnext. apply loop_turn_ok in Hnext.
  assert (K : keeps r r') by (destruct b; simpl in Hnext; tauto).
  destruct K as [Km Kn]. split.
  - intros id frame Hid. eapply lookup_weaken; eauto.
  - intros i frame Hi. eapply prefix_lookup_Some; eauto.
Qed.

End Advance.

Lemma nextAllocationRecord_contract_witness :
  exists a' r',
    nextAllocationRecord (H := sample_layout) (env := sample_env) false Allocation_zero
      (sample_reader (sample_FRAME_INDEX 2 "f" "a.py" 10 ++ sample_FRAME_PUSH 7 2
                      ++ sample_ALLOCATION 7 256 64 12)) =
      Some (Ret (true, a', r')) /\
    d_log r' = [] /\
    native_segment_generation a' = currentSegmentGeneration (d_symbol_resolver r').
Proof.
  eassert (Hn : nextAllocationRecord (H := sample_layout) (env := sample_env) false Allocation_zero
                  (sample_reader (sample_FRAME_INDEX 2 "f" "a.py" 10
                                  ++ sample_FRAME_PUSH 7 2
                                  ++ sample_ALLOCATION 7 256 64 12)) =
                Some (Ret (_, _, _))) by (vm_compute; reflexivity).
  eexists _, _. split; [exact Hn|].
  exact (proj1 (nextAllocationRecord_contract _ _ _ _ _ _ Hn) eq_refl).
Defined.

Lemma nextAllocationRecord_only_consumes_witness :
  exists a' r',
    nextAllocationRecord (H := sample_layout) (env := sample_env) false Allocation_zero
      (sample_reader (sample_FRAME_INDEX 2 "f" "a.py" 10 ++ sample_FRAME_PUSH 7 2
                      ++ sample_ALLOCATION 7 256 64 12 ++ sample_FRAME_POP 7 1)) =
      Some (Ret (true, a', r')) /\
    isOpen r' = true /\
    src_data (d_input r') `suffix_of`
      (sample_FRAME_INDEX 2 "f" "a.py" 10 ++ sample_FRAME_PUSH 7 2
       ++ sample_ALLOCATION 7 256 64 12 ++ sample_FRAME_POP 7 1).
Proof.
  eassert (Hn : nextAllocationRecord (H := sample_layout) (env := sample_env) false Allocation_zero
                  (sample_reader (sample_FRAME_INDEX 2 "f" "a.py" 10
                                  ++ sample_FRAME_PUSH 7 2
                                  ++ sample_ALLOCATION 7 256 64 12
                                  ++ sample_FRAME_POP 7 1)) =
                Some (Ret (_, _, _))) by (vm_compute; reflexivity).
  eexists _, _. split; [exact Hn|].
  destruct (nextAllocationRecord_only_consumes _ _ _ _ _ _ Hn)
    as (_ & Hsuffix & _ & Hopen & _).
  split; [exact (Hopen eq_refl) | exact Hsuffix].
Defined.

Lemma nextAllocationRecord_keeps_frames_witness :
  exists a' r',
    nextAllocationRecord (H := sample_layout) (env := sample_env) false Allocation_zero
      (set_frame_map (<[2%N := frame_outer]> ∅)
         (sample_reader (sample_FRAME_INDEX 4 "middle" "a.py" 20
                         ++ sample_FRAME_PUSH 7 2
                         ++ sample_ALLOCATION 7 256 64 12))) =
      Some (Ret (true, a', r')) /\
    d_frame_map r' !! 2%N = Some frame_outer.
Proof.
  eassert (Hn : nextAllocationRecord (H := sample_layout) (env := sample_env) false Allocation_zero
                  (set_frame_map (<[2%N := frame_outer]> ∅)
                     (sample_reader (sample_FRAME_INDEX 4 "middle" "a.py" 20
                                     ++ sample_FRAME_PUSH 7 2
                                     ++ sample_ALLOCATION 7 256 64 12))) =
                Some (Ret (_, _, _))) by (vm_compute; reflexivity).
  eexists _, _. split; [exact Hn|].
  apply (proj1 (nextAllocationRecord_keeps_frames _ _ _ _ _ _ Hn)).
  reflexivity.
Defined.

(** ** Single records *)

Section Records.
Context `{WireLayout} {env : Environment}.
Variable ndebug : bool.

Lemma nextAllocationRecord_Throw (a : Allocation) (r : RecordReader) (e : exn) :
  nextAllocationRecord_body ndebug a r = Throw e ->
  nextAllocationRecord ndebug a r = Some (Throw e).
Proof. intros E. unfold nextAllocationRecord. simpl. now rewrite E. Qed.

(** X7.  A FRAME_INDEX record whose payload can be read defines its id
    once: if [frame_map] has no frame under the id, the record puts its
    frame there and the loop goes on; if it has one, whether from an
    earlier FRAME_INDEX or from an allocation frame, [nextAllocationRecord]
    throws [std::runtime_error]. *)
Theorem FRAME_INDEX_defines_once
    (a : Allocation) (r r1 : RecordReader)
    (tagb idb fn file plb rest : list byte) :
  turns ndebug a r r1 ->
  src_open (d_input r1) = true ->
  src_data (d_input r1) = tagb ++ idb ++ fn ++ x00 :: file ++ x00 :: plb ++ rest ->
  length tagb = sizeof RecordType_codec ->
  decode RecordType_codec tagb = FRAME_INDEX ->
  length idb = sizeof frame_id_codec ->
  x00 ∉ fn -> x00 ∉ file ->
  length plb = sizeof int_codec ->
  match d_frame_map r1 !! decode frame_id_codec idb with
  | Some _ =>
      nextAllocationRecord ndebug a r =
        Some (Throw (runtime_error "Two entries with the same ID found!"))
  | None =>
      exists r2,
        nextAllocationRecord_body ndebug a r1 = Ret (Continue r2) /\
        d_frame_map r2 =
          <[decode frame_id_codec idb :=
              {| function_name := string_of_list_byte fn;
                 filename := string_of_list_byte file;
                 parent_lineno := decode int_codec plb;
                 lineno := Frame_lineno_unset |}]> (d_frame_map r1) /\
        d_input r2 = {| src_data := rest; src_open := true |}
  end.
Proof.
  intros Hturns Hopen Hdata Htag Hty Hid Hfn Hfile Hpl.
  assert (Hbody : nextAllocationRecord_body ndebug a r1 =
            or_fail "Failed to parse frame index" a
              (match d_frame_map r1 !! decode frame_id_codec idb with
               | Some _ => Throw (runtime_error "Two entries with the same ID found!")
               | None =>
                   Ret (true,
                        set_frame_map
                          (<[decode frame_id_codec idb :=
                               {| function_name := string_of_list_byte fn;
                                  filename := string_of_list_byte file;
                                  parent_lineno := decode int_codec plb;
                                  lineno := Frame_lineno_unset |}]> (d_frame_map r1))
                          (set_input {| src_data := rest; src_open := true |} r1))
               end)).
  { unfold nextAllocationRecord_body.
    rewrite (read_obj_app RecordType_codec _ tagb _ Hopen Hdata Htag), Hty.
    unfold parseFrameIndex. cbn [d_input set_input]. unfold pbind at 1.
    rewrite (read_obj_app frame_id_codec {| src_data := _; src_open := true |}
               idb _ eq_refl eq_refl Hid). unfold pbind at 1.
    rewrite (Source_getline_app x00 {| src_data := _; src_open := true |}
               fn _ eq_refl eq_refl Hfn). unfold pbind at 1.
    rewrite (Source_getline_app x00 {| src_data := _; src_open := true |}
               file _ eq_refl eq_refl Hfile). unfold pbind at 1.
    rewrite (read_obj_app int_codec {| src_data := _; src_open := true |}
               plb rest eq_refl eq_refl Hpl). unfold pret.
    cbn [d_frame_map set_input].
    destruct (d_frame_map r1 !! decode frame_id_codec idb); reflexivity. }
  destruct (d_frame_map r1 !! decode frame_id_codec idb) as [old|].
  - rewrite (turns_nextAllocationRecord _ _ _ _ Hturns).
    apply nextAllocationRecord_Throw. exact Hbody.
  - eexists. split; [exact Hbody|]. split; reflexivity.
Qed.

Lemma FRAME_PUSH_body (a : Allocation) (r : RecordReader)
    (tagb payload rest : list byte) :
  src_open (d_input r) = true ->
  src_data (d_input r) = tagb ++ payload ++ rest ->
  length tagb = sizeof RecordType_codec ->
  decode RecordType_codec tagb = FRAME_PUSH ->
  length payload = sizeof FramePush_codec ->
  nextAllocationRecord_body ndebug a r =
    Ret (Continue
           (set_stack_traces
              (<[push_tid (decode FramePush_codec payload) :=
                   stack_of (push_tid (decode FramePush_codec payload)) r ++
                   [push_frame_id (decode FramePush_codec payload)]]>
                 (d_stack_traces r))
              (set_input {| src_data := rest; src_open := true |} r))).
Proof.
  intros Hopen Hdata Htag Hty Hpay. unfold nextAllocationRecord_body.
  rewrite (read_obj_app RecordType_codec _ tagb _ Hopen Hdata Htag), Hty.
  unfold or_fail, parseFramePush. cbn [d_input set_input].
  rewrite (read_obj_app FramePush_codec {| src_data := _; src_open := true |}
             payload rest eq_refl eq_refl Hpay).
  reflexivity.
Qed.

(** X8.  A FRAME_PUSH record whose payload can be read never fails: the
    loop goes on with the record's frame id appended to the stack of the
    record's thread, a thread not seen before starting from an empty
    stack, and with the stack of every other thread as it was. *)
Theorem FRAME_PUSH_appends
    (a : Allocation) (r : RecordReader) (tagb payload rest : list byte) :
  src_open (d_input r) = true ->
  src_data (d_input r) = tagb ++ payload ++ rest ->
  length tagb = sizeof RecordType_codec ->
  decode RecordType_codec tagb = FRAME_PUSH ->
  length payload = sizeof FramePush_codec ->
  exists r2,
    nextAllocationRecord_body ndebug a r = Ret (Continue r2) /\
    d_input r2 = {| src_data := rest; src_open := true |} /\
    forall t,
      stack_of t r2 =
      if decide (push_tid (decode FramePush_codec payload) = t)
      then stack_of t r ++ [push_frame_id (decode FramePush_codec payload)]
      else stack_of t r.
Proof.
  intros Hopen Hdata Htag Hty Hpay.
  eexists. split;
    [exact (FRAME_PUSH_body a r tagb payload rest Hopen Hdata Htag Hty Hpay)|].
  split; [reflexivity|].
  intros t. erewrite stack_of_insert by reflexivity.
  destruct (decide _) as [<-|]; reflexivity.
Qed.

(** X9.  A FRAME_PUSH followed by a FRAME_POP of one frame for the same
    thread is decoded without failing, with assertions or without, and
    leaves the stack of every thread as it was before the two records. *)
Theorem FRAME_PUSH_then_FRAME_POP
    (a : Allocation) (r : RecordReader)
    (tagP push tagO pop rest : list byte) :
  src_open (d_input r) = true ->
  src_data (d_input r) = tagP ++ push ++ tagO ++ pop ++ rest ->
  length tagP = sizeof RecordType_codec ->
  decode RecordType_codec tagP = FRAME_PUSH ->
  length push = sizeof FramePush_codec ->
  length tagO = sizeof RecordType_codec ->
  decode RecordType_codec tagO = FRAME_POP ->
  length pop = sizeof FramePop_codec ->
  pop_tid (decode FramePop_codec pop) = push_tid (decode FramePush_codec push) ->
  pop_count (decode FramePop_codec pop) = 1%N ->
  exists r2 r3,
    nextAllocationRecord_body ndebug a r = Ret (Continue r2) /\
    nextAllocationRecord_body ndebug a r2 = Ret (Continue r3) /\
    d_input r3 = {| src_data := rest; src_open := true |} /\
    forall t, stack_of t r3 = stack_of t r.
Proof.
  intros Hopen Hdata HtagP HtyP Hpush HtagO HtyO Hpop Htid Hcount.
  pose proof (FRAME_PUSH_body a r tagP push (tagO ++ pop ++ rest)
                Hopen Hdata HtagP HtyP Hpush) as Hb2.
  match type of Hb2 with _ = Ret (Continue ?x) => set (r2 := x) in * end.
  assert (Hin2 : d_input r2 = {| src_data := tagO ++ pop ++ rest; src_open := true |})
    by reflexivity.
  assert (Hst2 : forall t,
            stack_of t r2 =
            if decide (push_tid (decode FramePush_codec push) = t)
            then stack_of t r ++ [push_frame_id (decode FramePush_codec push)]
            else stack_of t r).
  { intros t. unfold r2. erewrite stack_of_insert by reflexivity.
    destruct (decide _) as [<-|]; reflexivity. }
  clearbody r2.
  set (t0 := push_tid (decode FramePush_codec push)) in *.
  assert (Hopen2 : src_open (d_input r2) = true) by now rewrite Hin2.
  assert (Hdata2 : src_data (d_input r2) = tagO ++ pop ++ rest) by now rewrite Hin2.
  assert (Hr1 : read_obj RecordType_codec (d_input r2) =
                  (Some FRAME_POP, {| src_data := pop ++ rest; src_open := true |})).
  { rewrite (read_obj_app RecordType_codec _ tagO _ Hopen2 Hdata2 HtagO).
    now rewrite HtyO. }
  assert (Hr2 : read_obj FramePop_codec {| src_data := pop ++ rest; src_open := true |}
                = (Some (decode FramePop_codec pop),
                   {| src_data := rest; src_open := true |}))
    by now apply read_obj_app.
  assert (Htop : stack_of (pop_tid (decode FramePop_codec pop)) r2 =
                 stack_of t0 r ++ [push_frame_id (decode FramePush_codec push)]).
  { rewrite Htid, Hst2. now rewrite decide_True. }
  assert (Hbody : exists r3,
            nextAllocationRecord_body ndebug a r2 = Ret (Continue r3) /\
            d_input r3 = {| src_data := rest; src_open := true |} /\
            forall t, stack_of t r3 =
              if decide (pop_tid (decode FramePop_codec pop) = t)
              then take (length (stack_of (pop_tid (decode FramePop_codec pop)) r2) - 1)
                        (stack_of (pop_tid (decode FramePop_codec pop)) r2)
              else stack_of t r2).
  { unfold nextAllocationRecord_body. rewrite Hr1.
    unfold or_fail, parseFramePop. cbn [d_input set_input]. rewrite Hr2.
    cbn [d_stack_traces set_input].
    fold (stack_of (pop_tid (decode FramePop_codec pop)) r2).
    assert (Hassert : c_assert ndebug
              (negb (bool_decide
                 (stack_of (pop_tid (decode FramePop_codec pop)) r2 = []))) = Ret tt).
    { unfold c_assert. destruct ndebug; [reflexivity|].
      rewrite bool_decide_eq_false_2; [reflexivity|].
      rewrite Htop. now destruct (stack_of t0 r). }
    rewrite Hassert. simpl result_bind.
    destruct (pop_back_n_within (N.to_nat (pop_count (decode FramePop_codec pop)))
                (pop_tid (decode FramePop_codec pop)) (d_stack_traces r2))
      as [traces Htr].
    { fold (stack_of (pop_tid (decode FramePop_codec pop)) r2).
      rewrite Htop, Hcount, length_app. simpl. lia. }
    rewrite Htr. simpl. eexists. split; [reflexivity|]. split; [reflexivity|].
    apply pop_back_n_Ret in Htr. destruct Htr as [_ Hall].
    intros t. unfold stack_of in *. cbn [d_stack_traces set_stack_traces].
    rewrite Hall, Hcount. reflexivity. }
  destruct Hbody as (r3 & Hb3 & Hin3 & Hst3).
  exists r2, r3. split; [exact Hb2|]. split; [exact Hb3|]. split; [exact Hin3|].
  intros t. rewrite Hst3, Htid. fold t0.
  destruct (decide (t0 = t)) as [<-|Hne].
  - rewrite Hst2, decide_True by reflexivity.
    rewrite length_app. simpl.
    replace (length (stack_of t0 r) + 1 - 1)%nat with (length (stack_of t0 r)) by lia.
    now rewrite take_app_length.
  - rewrite Hst2. now rewrite decide_False.
Qed.

(** X10.  Delivering an allocation changes at most the top of the stack
    of the allocation's own thread: every stack keeps its height and
    everything below its top, and the stacks of the other threads are
    untouched. *)
Theorem ALLOCATION_changes_only_the_top
    (a a' : Allocation) (r r' : RecordReader) :
  nextAllocationRecord_body ndebug a r = Ret (Return true a' r') ->
  forall t,
    length (stack_of t r') = length (stack_of t r) /\
    removelast (stack_of t r') = removelast (stack_of t r) /\
    (t <> tid (record a') -> stack_of t r' = stack_of t r).
Proof.
  unfold nextAllocationRecord_body.
  destruct (read_obj RecordType_codec (d_input r)) as [[ty|] input] eqn:E;
    [|discriminate].
  destruct ty; intros Hbody;
    try discriminate; try (now apply or_fail_not_true in Hbody).
  destruct (parseAllocationRecord _ _) as [[ok rec] r1] eqn:Hp.
  assert (Hr1 : d_stack_traces r1 = d_stack_traces r /\ d_frame_map r1 = d_frame_map r).
  { unfold parseAllocationRecord in Hp.
    destruct (read_obj AllocationRecord_codec _) as [[x|] i];
      injection Hp as <- <- <-; now split. }
  destruct Hr1 as [Hr1 _].
  destruct ok; simpl in Hbody; [|discriminate].
  unfold getAllocationFrameIndex in Hbody.
  destruct (d_stack_traces r1 !! tid rec) as [stack|] eqn:Hstack.
  2:{ simpl in Hbody. injection Hbody as <- <-. intros t.
      rewrite (stack_of_same t r1 r Hr1). auto. }
  unfold correctAllocationFrame in Hbody.
  destruct (last stack) as [top|] eqn:Hlast.
  - destruct (d_frame_map r1 !! top) as [frame|]; [|discriminate].
    destruct (getIndex _ _) as [[id new] frames].
    simpl in Hbody. destruct (getTraceIndex _ _) as [idx tree].
    assert (Hne : stack <> []) by (intros ->; discriminate).
    assert (Hst : forall t, stack_of t r' =
              if decide (tid rec = t) then removelast stack ++ [id]
              else stack_of t r).
    { intros t. destruct new; injection Hbody as <- <-;
        (erewrite stack_of_insert by reflexivity);
        destruct (decide _); try reflexivity;
        apply stack_of_same; exact Hr1. }
    assert (Hrec : record a' = rec) by (injection Hbody as <- _; reflexivity).
    intros t. rewrite Hst, Hrec.
    destruct (decide (tid rec = t)) as [<-|Hn].
    + assert (Hs : stack_of (tid rec) r = stack)
        by (unfold stack_of; now rewrite <- Hr1, Hstack).
      rewrite Hs. split; [|split; [|congruence]].
      * rewrite length_app, removelast_firstn_len, length_take. simpl.
        destruct stack; [contradiction|simpl; lia].
      * now rewrite removelast_last.
    + auto.
  - simpl in Hbody. destruct (getTraceIndex _ _) as [idx tree].
    injection Hbody as <- <-. intros t.
    erewrite stack_of_insert by reflexivity.
    destruct (decide (tid rec = t)) as [<-|Hn].
    + assert (Hs : stack_of (tid rec) r = stack)
        by (unfold stack_of; now rewrite <- Hr1, Hstack).
      rewrite Hs. auto.
    + rewrite (stack_of_same t r1 r Hr1). auto.
Qed.

End Records.

Ltac no_x00 :=
  let Hin := fresh "Hin" in
  intros Hin;
  repeat (apply elem_of_cons in Hin as [Hin|Hin]; [discriminate Hin|]);
  inversion Hin.

Lemma FRAME_INDEX_defines_once_witness :
  nextAllocationRecord (H := sample_layout) (env := sample_env) false Allocation_zero
    (sample_reader (sample_FRAME_INDEX 2 "f" "a.py" 10
                    ++ sample_FRAME_INDEX 2 "g" "b.py" 11)) =
    Some (Throw (runtime_error "Two entries with the same ID found!")).
Proof.
  exact (FRAME_INDEX_defines_once (H := sample_layout) (env := sample_env) false Allocation_zero
           (sample_reader (sample_FRAME_INDEX 2 "f" "a.py" 10
                           ++ sample_FRAME_INDEX 2 "g" "b.py" 11)) _
           ["I"%byte] (N_le 8 2) ["g"%byte] ["b"; "."; "p"; "y"]%byte (Z_le 4 11) []
           ltac:(eapply turns_round; [vm_compute; reflexivity | apply turns_here])
           ltac:(vm_compute; reflexivity) ltac:(vm_compute; reflexivity)
           ltac:(vm_compute; reflexivity) ltac:(vm_compute; reflexivity)
           ltac:(vm_compute; reflexivity) ltac:(no_x00) ltac:(no_x00)
           ltac:(vm_compute; reflexivity)).
Defined.

Lemma FRAME_PUSH_appends_witness :
  exists r2,
    nextAllocationRecord_body (H := sample_layout) (env := sample_env) false Allocation_zero
      (sample_stack_reader (sample_FRAME_PUSH 7 6 ++ sample_FRAME_PUSH 8 2)) =
      Ret (Continue r2) /\
    stack_of 7%N r2 = [2%N; 4%N; 6%N] /\ stack_of 8%N r2 = [].
Proof.
  destruct (FRAME_PUSH_appends (H := sample_layout) (env := sample_env) false Allocation_zero
              (sample_stack_reader (sample_FRAME_PUSH 7 6 ++ sample_FRAME_PUSH 8 2))
              ["P"%byte] (N_le 8 6 ++ N_le 8 7) (sample_FRAME_PUSH 8 2)
              ltac:(vm_compute; reflexivity) ltac:(vm_compute; reflexivity)
              ltac:(vm_compute; reflexivity) ltac:(vm_compute; reflexivity)
              ltac:(vm_compute; reflexivity)) as (r2 & Hb & _ & Hst).
  exists r2. split; [exact Hb|].
  split; rewrite Hst; vm_compute; reflexivity.
Defined.

Lemma FRAME_PUSH_then_FRAME_POP_witness :
  exists r2 r3,
    nextAllocationRecord_body (H := sample_layout) (env := sample_env) false Allocation_zero
      (sample_stack_reader (sample_FRAME_PUSH 7 6 ++ sample_FRAME_POP 7 1)) =
      Ret (Continue r2) /\
    nextAllocationRecord_body (H := sample_layout) (env := sample_env) false Allocation_zero r2 =
      Ret (Continue r3) /\
    stack_of 7%N r3 = [2%N; 4%N].
Proof.
  destruct (FRAME_PUSH_then_FRAME_POP (H := sample_layout) (env := sample_env) false Allocation_zero
              (sample_stack_reader (sample_FRAME_PUSH 7 6 ++ sample_FRAME_POP 7 1))
              ["P"%byte] (N_le 8 6 ++ N_le 8 7) ["O"%byte] (N_le 8 7 ++ N_le 2 1) []
              ltac:(vm_compute; reflexivity) ltac:(vm_compute; reflexivity)
              ltac:(vm_compute; reflexivity) ltac:(vm_compute; reflexivity)
              ltac:(vm_compute; reflexivity) ltac:(vm_compute; reflexivity)
              ltac:(vm_compute; reflexivity) ltac:(vm_compute; reflexivity)
              ltac:(vm_compute; reflexivity) ltac:(vm_compute; reflexivity))
    as (r2 & r3 & Hb2 & Hb3 & _ & Hst).
  exists r2, r3. split; [exact Hb2|]. split; [exact Hb3|].
  rewrite Hst. vm_compute. reflexivity.
Defined.

Lemma ALLOCATION_changes_only_the_top_witness :
  exists a' r',
    nextAllocationRecord_body (H := sample_layout) (env := sample_env) false Allocation_zero
      (sample_stack_reader (sample_ALLOCATION 7 256 64 12)) =
      Ret (Return true a' r') /\
    removelast (stack_of 7%N r') = [2%N] /\
    length (stack_of 7%N r') = 2.
Proof.
  eassert (Hb : nextAllocationRecord_body (H := sample_layout) (env := sample_env) false Allocation_zero
                  (sample_stack_reader (sample_ALLOCATION 7 256 64 12)) =
                Ret (Return _ _ _)) by (vm_compute; reflexivity).
  eexists _, _. split; [exact Hb|].
  destruct (ALLOCATION_changes_only_the_top _ _ _ _ _ Hb 7%N) as (Hlen & Hrest & _).
  split; [exact Hrest | exact Hlen].
Defined.

Section Segments.
Context `{WireLayout} {env : Environment}.
Variable ndebug : bool.

Lemma parseSegments_run (segments : list (list byte * list byte))
    (collected : list Segment) (rest : list byte) (r : RecordReader) :
  src_open (d_input r) = true ->
  src_data (d_input r) =
    concat (map (fun seg => seg.1 ++ seg.2) segments) ++ rest ->
  Forall (fun seg =>
            length seg.1 = sizeof RecordType_codec /\
            (ndebug = true \/ decode RecordType_codec seg.1 = SEGMENT) /\
            length seg.2 = sizeof Segment_codec)
         segments ->
  parseSegments ndebug (length segments) collected r =
    Ret (Some (collected ++ map (fun seg => decode Segment_codec seg.2) segments),
         set_input {| src_data := rest; src_open := true |} r).
Proof.
  revert collected r.
  induction segments as [|[tagb segb] segments IH]; intros collected r Hopen Hdata Hall.
  - cbn [length parseSegments map concat app] in *. rewrite app_nil_r.
    destruct r as [[data open] ?]. cbn in *. subst. reflexivity.
  - apply Forall_cons in Hall. destruct Hall as [(Htag & Hty & Hseg) Hall].
    cbn [fst snd] in *. cbn [map concat] in Hdata. rewrite <- !app_assoc in Hdata.
    cbn [length parseSegments]. unfold parseSegment.
    rewrite (read_obj_app RecordType_codec _ tagb _ Hopen Hdata Htag).
    assert (Hc : c_assert ndebug
                   (bool_decide (decode RecordType_codec tagb = SEGMENT)) = Ret tt).
    { unfold c_assert. destruct Hty as [->|Hty]; [reflexivity|].
      rewrite bool_decide_eq_true_2 by exact Hty. now destruct ndebug. }
    rewrite Hc. cbn [result_bind].
    rewrite (read_obj_app Segment_codec {| src_data := _; src_open := true |}
               segb _ eq_refl eq_refl Hseg).
    cbn [result_bind].
    rewrite (IH (collected ++ [decode Segment_codec segb])
               (set_input
                  {| src_data :=
                       concat (map (fun seg => seg.1 ++ seg.2) segments) ++ rest;
                     src_open := true |} r) eq_refl eq_refl Hall).
    cbn [map fst snd]. now rewrite <- app_assoc.
Qed.

(** X11.  A SEGMENT_HEADER whose payload can be read, announcing [n]
    segments, followed by [n] SEGMENT records (their tags being SEGMENT,
    which is asserted): if the vector of [n] segments cannot be made,
    [parseSegmentHeader] throws what the vector throws, before it reads a
    segment.  Otherwise it returns [true], having read the records, and
    the object it registers under the header's file name and address
    holds [2 * n] segments: [n] zero segments, from the vector made with
    [n] elements, followed by the [n] segments of the records, in their
    order. *)
Theorem SEGMENT_HEADER_registers
    (r : RecordReader) (fn nb ab rest : list byte)
    (segments : list (list byte * list byte)) :
  src_open (d_input r) = true ->
  src_data (d_input r) =
    fn ++ x00 :: nb ++ ab ++
    concat (map (fun seg => seg.1 ++ seg.2) segments) ++ rest ->
  x00 ∉ fn ->
  length nb = sizeof size_t_codec ->
  length ab = sizeof uintptr_t_codec ->
  decode size_t_codec nb = N.of_nat (length segments) ->
  Forall (fun seg =>
            length seg.1 = sizeof RecordType_codec /\
            (ndebug = true \/ decode RecordType_codec seg.1 = SEGMENT) /\
            length seg.2 = sizeof Segment_codec)
         segments ->
  parseSegmentHeader ndebug r =
    match Segment_vector_new (decode size_t_codec nb) with
    | Some failure => Throw (alloc_exn failure)
    | None =>
        Ret (true,
             set_symbol_resolver
               (addSegments (string_of_list_byte fn) (decode uintptr_t_codec ab)
                  (replicate (length segments) Segment_zero ++
                   map (fun seg => decode Segment_codec seg.2) segments)
                  (d_symbol_resolver r))
               (set_input {| src_data := rest; src_open := true |} r))
    end.
Proof.
  intros Hopen Hdata Hfn Hnb Hab Hcount Hall. unfold parseSegmentHeader.
  unfold pbind at 1.
  rewrite (Source_getline_app x00 (d_input r) fn _ Hopen Hdata Hfn).
  unfold pbind at 1.
  rewrite (read_obj_app size_t_codec {| src_data := _; src_open := true |}
             nb _ eq_refl eq_refl Hnb).
  unfold pbind at 1.
  rewrite (read_obj_app uintptr_t_codec {| src_data := _; src_open := true |}
             ab _ eq_refl eq_refl Hab).
  unfold pret.
  destruct (Segment_vector_new (decode size_t_codec nb)); [reflexivity|].
  rewrite Hcount, Nat2N.id.
  rewrite (parseSegments_run segments _ rest
             (set_input
                {| src_data :=
                     concat (map (fun seg => seg.1 ++ seg.2) segments) ++ rest;
                   src_open := true |} r) eq_refl eq_refl Hall).
  reflexivity.
Qed.

(** X12.  A THREAD_RECORD whose payload can be read names its thread: from
    then on [getThreadName] gives the record's name for the record's
    thread, replacing a name given before, and for every other thread what
    it gave before, the empty string for a thread never named. *)
Theorem THREAD_RECORD_names_thread
    (a : Allocation) (r : RecordReader) (tagb tidb name rest : list byte) :
  src_open (d_input r) = true ->
  src_data (d_input r) = tagb ++ tidb ++ name ++ x00 :: rest ->
  length tagb = sizeof RecordType_codec ->
  decode RecordType_codec tagb = THREAD_RECORD ->
  length tidb = sizeof thread_id_codec ->
  x00 ∉ name ->
  exists r2,
    nextAllocationRecord_body ndebug a r = Ret (Continue r2) /\
    d_input r2 = {| src_data := rest; src_open := true |} /\
    forall t,
      getThreadName t r2 =
      if decide (decode thread_id_codec tidb = t)
      then string_of_list_byte name
      else getThreadName t r.
Proof.
  intros Hopen Hdata Htag Hty Htid Hname.
  unfold nextAllocationRecord_body.
  rewrite (read_obj_app RecordType_codec _ tagb _ Hopen Hdata Htag), Hty.
  unfold or_fail, parseThreadRecord. cbn [d_input set_input].
  unfold pbind at 1.
  rewrite (read_obj_app thread_id_codec {| src_data := _; src_open := true |}
             tidb _ eq_refl eq_refl Htid).
  unfold pbind at 1.
  rewrite (Source_getline_app x00 {| src_data := _; src_open := true |}
             name rest eq_refl eq_refl Hname).
  unfold pret. simpl result_bind. eexists. split; [reflexivity|].
  split; [reflexivity|].
  intros t. unfold getThreadName. cbn [d_thread_names set_thread_names set_input].
  destruct (decide (decode thread_id_codec tidb = t)) as [<-|Hne].
  - now rewrite lookup_insert_eq.
  - now rewrite lookup_insert_ne.
Qed.

End Segments.

Lemma SEGMENT_HEADER_registers_witness :
  parseSegmentHeader (H := sample_layout) (env := sample_env) false
    (sample_reader (["l"; "i"; "b"; x00]%byte ++ N_le 8 1 ++ N_le 8 4096
                    ++ ["S"%byte] ++ N_le 8 16 ++ N_le 8 32)) =
  Ret (true,
       set_symbol_resolver
         (addSegments "lib" 4096%N
            [Segment_zero; {| vaddr := 16%N; memsz := 32%N |}]
            SymbolResolver_init)
         (sample_reader [])).
Proof.
  exact (SEGMENT_HEADER_registers (H := sample_layout) (env := sample_env) false
           (sample_reader (["l"; "i"; "b"; x00]%byte ++ N_le 8 1 ++ N_le 8 4096
                           ++ ["S"%byte] ++ N_le 8 16 ++ N_le 8 32))
           ["l"; "i"; "b"]%byte (N_le 8 1) (N_le 8 4096) []
           [(["S"%byte], N_le 8 16 ++ N_le 8 32)]
           ltac:(vm_compute; reflexivity) ltac:(vm_compute; reflexivity)
           ltac:(no_x00) ltac:(vm_compute; reflexivity)
           ltac:(vm_compute; reflexivity) ltac:(vm_compute; reflexivity)
           ltac:(repeat constructor; vm_compute; reflexivity)).
Defined.

Lemma THREAD_RECORD_names_thread_witness :
  exists r2,
    nextAllocationRecord_body (H := sample_layout) (env := sample_env) false Allocation_zero
      (set_thread_names (<[7%N := "old"]> ∅)
         (sample_reader (["T"%byte] ++ N_le 8 7 ++ ["m"; "a"; "i"; "n"; x00]%byte))) =
      Ret (Continue r2) /\
    getThreadName 7%N r2 = "main" /\ getThreadName 8%N r2 = "".
Proof.
  destruct (THREAD_RECORD_names_thread (H := sample_layout) (env := sample_env) false Allocation_zero
              (set_thread_names (<[7%N := "old"]> ∅)
                 (sample_reader (["T"%byte] ++ N_le 8 7
                                 ++ ["m"; "a"; "i"; "n"; x00]%byte)))
              ["T"%byte] (N_le 8 7) ["m"; "a"; "i"; "n"]%byte []
              ltac:(vm_compute; reflexivity) ltac:(vm_compute; reflexivity)
              ltac:(vm_compute; reflexivity) ltac:(vm_compute; reflexivity)
              ltac:(vm_compute; reflexivity) ltac:(no_x00))
    as (r2 & Hb & _ & Hname).
  exists r2. split; [exact Hb|].
  split; rewrite Hname; vm_compute; reflexivity.
Defined.

(** ** Native stack traces *)

Section NativeFacts.
Context {NativeFrame PyObject : Type}.
Variable resolve : SymbolResolver -> N -> N -> option (list NativeFrame).
Variable native_toPythonObject : NativeFrame -> option PyObject.

Lemma append_native_frames_Some (frames : list NativeFrame)
    (pylist pylist' : list PyObject) :
  append_native_frames native_toPythonObject frames pylist = Some pylist' ->
  exists group,
    pylist' = pylist ++ group /\
    Forall2 (fun native_frame obj => native_toPythonObject native_frame = Some obj)
      frames group.
Proof.
  revert pylist. induction frames as [|frame frames IH]; simpl; intros pylist.
  - intros [= <-]. exists []. split; [now rewrite app_nil_r | constructor].
  - destruct (native_toPythonObject frame) as [obj|] eqn:E; [|discriminate].
    intros Happ. apply IH in Happ. destruct Happ as (group & -> & Hall).
    exists (obj :: group). split; [now rewrite <- app_assoc | now constructor].
Qed.

Lemma Py_GetNativeStackFrame_loop_frames (remaining : nat) (current_index : index_t)
    (generation : N) (pylist objs : list PyObject) (r : RecordReader) :
  Py_GetNativeStackFrame_loop resolve native_toPythonObject
    remaining current_index generation pylist r = Ret (Some objs) ->
  exists groups,
    objs = pylist ++ concat groups /\
    Forall2 (contributes resolve native_toPythonObject r generation)
      (native_chain (d_native_frames r) remaining current_index) groups.
Proof.
  revert current_index pylist.
  induction remaining as [|remaining IH]; intros current_index pylist; simpl.
  - destruct (current_index =? 0)%N; intros [= <-]; exists [];
      (split; [now rewrite app_nil_r | constructor]).
  - destruct (current_index =? 0)%N.
    { intros [= <-]. exists []. split; [now rewrite app_nil_r | constructor]. }
    destruct (d_native_frames r !! N.to_nat (current_index - 1)) as [frame|];
      [|discriminate].
    destruct (resolve (d_symbol_resolver r) (ip frame) generation)
      as [resolved|] eqn:Hres.
    + destruct (append_native_frames _ resolved pylist) as [pylist'|] eqn:Happ;
        [|discriminate].
      intros Hloop. apply IH in Hloop. destruct Hloop as (groups & -> & Hall).
      apply append_native_frames_Some in Happ. destruct Happ as (group & -> & Hgroup).
      exists (group :: groups). split; [simpl; now rewrite <- app_assoc|].
      constructor; [|exact Hall]. unfold contributes. now rewrite Hres.
    + intros Hloop. apply IH in Hloop. destruct Hloop as (groups & -> & Hall).
      exists ([] :: groups). split; [reflexivity|].
      constructor; [|exact Hall]. unfold contributes. now rewrite Hres.
Qed.

Lemma native_chain_length (frames : list UnresolvedNativeFrame) (n : nat)
    (from : index_t) :
  length (native_chain frames n from) <= n.
Proof.
  revert from. induction n as [|n IH]; intros from; simpl; [lia|].
  destruct (from =? 0)%N; simpl; [lia|].
  destruct (frames !! N.to_nat (from - 1)) as [frame|]; simpl; [|lia].
  specialize (IH (index frame)). lia.
Qed.

(** X13.  The list [Py_GetNativeStackFrame] returns is made of the Python
    objects of the frames that the unresolved frames from [index] towards
    the root resolve to, innermost first: it visits at most [max_stacks]
    unresolved frames, an address the resolver does not know contributes
    nothing but still counts as visited, and an address that resolves to
    several frames contributes all of them. *)
Theorem Py_GetNativeStackFrame_frames
    (index : index_t) (generation : N) (max_stacks : nat) (r : RecordReader)
    (objs : list PyObject) :
  Py_GetNativeStackFrame resolve native_toPythonObject
    index generation max_stacks r = Ret (Some objs) ->
  exists groups,
    objs = concat groups /\
    length groups <= max_stacks /\
    Forall2 (contributes resolve native_toPythonObject r generation)
      (native_chain (d_native_frames r) max_stacks index) groups.
Proof.
  intros Hrun. apply Py_GetNativeStackFrame_loop_frames in Hrun.
  destruct Hrun as (groups & -> & Hall). exists groups.
  split; [reflexivity|]. split; [|exact Hall].
  rewrite <- (Forall2_length _ _ _ Hall). apply native_chain_length.
Qed.

Lemma Py_GetNativeStackFrame_loop_defined (remaining : nat) (current_index : index_t)
    (generation : N) (pylist : list PyObject) (r : RecordReader) :
  (forall i frame, d_native_frames r !! i = Some frame ->
     N.to_nat (index frame) <= i) ->
  N.to_nat current_index <= length (d_native_frames r) ->
  exists o,
    Py_GetNativeStackFrame_loop resolve native_toPythonObject
      remaining current_index generation pylist r = Ret o.
Proof.
  intros Hwf. revert current_index pylist.
  induction remaining as [|remaining IH]; intros current_index pylist Hidx; simpl.
  - destruct (current_index =? 0)%N; eexists; reflexivity.
  - destruct (current_index =? 0)%N eqn:E0; [eexists; reflexivity|].
    apply N.eqb_neq in E0.
    destruct (d_native_frames r !! N.to_nat (current_index - 1)) as [frame|] eqn:E.
    2:{ apply lookup_ge_None in E. lia. }
    assert (Hnext : N.to_nat (index frame) <= length (d_native_frames r)).
    { pose proof (Hwf _ _ E). apply lookup_lt_Some in E. lia. }
    destruct (resolve _ _ _) as [resolved|]; [|now apply IH].
    destruct (append_native_frames _ _ _); [now apply IH | eexists; reflexivity].
Qed.

Lemma Py_GetNativeStackFrame_loop_enough (n m : nat) (current_index : index_t)
    (generation : N) (pylist : list PyObject) (r : RecordReader) :
  (forall i frame, d_native_frames r !! i = Some frame ->
     N.to_nat (index frame) <= i) ->
  N.to_nat current_index <= n -> N.to_nat current_index <= m ->
  Py_GetNativeStackFrame_loop resolve native_toPythonObject
    n current_index generation pylist r =
  Py_GetNativeStackFrame_loop resolve native_toPythonObject
    m current_index generation pylist r.
Proof.
  intros Hwf. revert m current_index pylist.
  induction n as [|n IH]; intros m current_index pylist Hn Hm.
  - assert (current_index = 0%N) as -> by lia. now destruct m.
  - destruct m as [|m].
    { assert (current_index = 0%N) as -> by lia. reflexivity. }
    simpl. destruct (current_index =? 0)%N eqn:E0; [reflexivity|].
    apply N.eqb_neq in E0.
    destruct (d_native_frames r !! N.to_nat (current_index - 1)) as [frame|] eqn:E;
      [|reflexivity].
    pose proof (Hwf _ _ E) as Hle.
    destruct (resolve _ _ _) as [resolved|]; [|apply IH; lia].
    destruct (append_native_frames _ _ _); [apply IH; lia | reflexivity].
Qed.

(** X14.  When every unresolved frame points to a frame read before it
    (its [index] is at most its own position) and [index] is within the
    frames read, [Py_GetNativeStackFrame] stays within [d_native_frames]:
    it returns a list or [nullptr], and it reaches the root within [index]
    steps, so that every [max_stacks] from [index] up gives the same
    trace. *)
Theorem Py_GetNativeStackFrame_within_frames
    (i0 : index_t) (generation : N) (max_stacks : nat) (r : RecordReader) :
  (forall i frame, d_native_frames r !! i = Some frame ->
     N.to_nat (index frame) <= i) ->
  N.to_nat i0 <= length (d_native_frames r) ->
  (exists o,
     Py_GetNativeStackFrame resolve native_toPythonObject
       i0 generation max_stacks r = Ret o) /\
  (N.to_nat i0 <= max_stacks ->
   Py_GetNativeStackFrame resolve native_toPythonObject
     i0 generation max_stacks r =
   Py_GetNativeStackFrame resolve native_toPythonObject
     i0 generation (N.to_nat i0) r).
Proof.
  intros Hwf Hidx. split.
  - now apply Py_GetNativeStackFrame_loop_defined.
  - intros Hmax. unfold Py_GetNativeStackFrame.
    apply Py_GetNativeStackFrame_loop_enough; [exact Hwf | exact Hmax | lia].
Qed.

End NativeFacts.

Lemma Py_GetNativeStackFrame_frames_witness :
  exists objs groups,
    Py_GetNativeStackFrame sample_resolve Some 3%N 5%N 2 sample_native_reader =
      Ret (Some objs) /\
    objs = concat groups /\ length groups <= 2.
Proof.
  eassert (Hrun : Py_GetNativeStackFrame sample_resolve Some 3%N 5%N 2
                    sample_native_reader = Ret (Some _))
    by (vm_compute; reflexivity).
  destruct (Py_GetNativeStackFrame_frames sample_resolve Some 3%N 5%N 2
              sample_native_reader _ Hrun) as (groups & Hobjs & Hlen & _).
  eexists _, groups. split; [exact Hrun|]. split; [exact Hobjs | exact Hlen].
Defined.

Lemma Py_GetNativeStackFrame_within_frames_witness :
  Py_GetNativeStackFrame sample_resolve Some 3%N 5%N 9 sample_native_reader =
  Py_GetNativeStackFrame sample_resolve Some 3%N 5%N 3 sample_native_reader.
Proof.
  refine (proj2 (Py_GetNativeStackFrame_within_frames sample_resolve Some
                   3%N 5%N 9 sample_native_reader _ _) _).
  - intros i frame Hi.
    destruct i as [|[|[|i]]]; vm_compute in Hi; try discriminate;
      injection Hi as <-; vm_compute; lia.
  - vm_compute. lia.
  - vm_compute. lia.
Defined.

(** ** _pensieve.pyx: allocation records *)

Lemma eval_frames_cons (frame : pyframe) (frames : list pyframe) :
  eval_frames (frame :: frames) =
  if _is_eval_frame frame.1.1 then S (eval_frames frames) else eval_frames frames.
Proof.
  unfold eval_frames. cbn [filter list_filter].
  destruct (decide (_is_eval_frame frame.1.1 = true)) as [E|E].
  - now rewrite E.
  - apply not_true_is_false in E. now rewrite E.
Qed.

Lemma hybrid_loop_frame_by_frame (native_frames python_stack : list pyframe) :
  snd (hybrid_loop native_frames python_stack
         (Some (Z.of_nat (length python_stack)))) = Ret tt /\
  length (fst (hybrid_loop native_frames python_stack
                 (Some (Z.of_nat (length python_stack))))) <= length native_frames /\
  (eval_frames native_frames < length python_stack ->
   length (fst (hybrid_loop native_frames python_stack
                  (Some (Z.of_nat (length python_stack))))) = length native_frames) /\
  forall i frame,
    native_frames !! i = Some frame ->
    i < length (fst (hybrid_loop native_frames python_stack
                       (Some (Z.of_nat (length python_stack))))) ->
    fst (hybrid_loop native_frames python_stack
           (Some (Z.of_nat (length python_stack)))) !! i =
    if _is_eval_frame frame.1.1
    then python_stack !! eval_frames (take i native_frames)
    else Some frame.
Proof.
  revert python_stack.
  induction native_frames as [|native_frame native_frames IH]; intros python_stack.
  - simpl. repeat split; auto. intros i frame Hi. now rewrite lookup_nil in Hi.
  - cbn [hybrid_loop].
    destruct python_stack as [|python_frame python_stack].
    { rewrite bool_decide_eq_true_2 by reflexivity. simpl.
      repeat split; try lia. }
    rewrite bool_decide_eq_false_2 by (intros [= Hz]; discriminate Hz).
    rewrite eval_frames_cons.
    destruct native_frame as [[symbol file] line]. cbn [fst snd].
    destruct (_is_eval_frame symbol) eqn:Hsym.
    + replace (Z.of_nat (length (python_frame :: python_stack)) - 1)%Z
        with (Z.of_nat (length python_stack)) by (simpl length; lia).
      destruct (IH python_stack) as (H1 & H2 & H3 & H4).
      unfold yield. cbn [fst snd length]. split; [exact H1|].
      split; [lia|]. split; [intros Hlt; rewrite H3; [reflexivity | lia]|].
      intros [|i] frame Hi Hlt.
      * injection Hi as <-. cbn [fst]. rewrite Hsym. reflexivity.
      * rewrite lookup_cons in Hi. rewrite lookup_cons.
        change (take (S i) ((symbol, file, line) :: native_frames))
          with ((symbol, file, line) :: take i native_frames).
        rewrite eval_frames_cons. cbn [fst]. rewrite Hsym.
        etransitivity; [apply (H4 i frame Hi); lia|].
        destruct (_is_eval_frame frame.1.1); reflexivity.
    + destruct (IH (python_frame :: python_stack)) as (H1 & H2 & H3 & H4).
      unfold yield. cbn [fst snd length] in *. split; [exact H1|].
      split; [lia|]. split; [intros Hlt; rewrite H3; [reflexivity | lia]|].
      intros [|i] frame Hi Hlt.
      * injection Hi as <-. cbn [fst]. rewrite Hsym. reflexivity.
      * rewrite lookup_cons in Hi. rewrite lookup_cons.
        change (take (S i) ((symbol, file, line) :: native_frames))
          with ((symbol, file, line) :: take i native_frames).
        rewrite eval_frames_cons. cbn [fst]. rewrite Hsym.
        apply (H4 i frame Hi). lia.
Qed.

Section RecordFacts.
Variable reader_Py_GetStackFrame : N -> option nat -> list pyframe.
Variable reader_Py_GetNativeStackFrame : N -> N -> option nat -> list pyframe.

(** X15.  When the pure-Python stack of an allocation record is not
    empty, [hybrid_stack_trace] ends without raising and follows the
    native trace frame by frame: what it yields in place [i] is the native
    frame in place [i], unless that is an eval-frame trampoline, for which
    it yields the pure-Python frame numbered by the trampolines before it.
    With fewer trampolines than pure-Python frames, every native frame
    has its place in what is yielded. *)
Theorem hybrid_stack_trace_frame_by_frame
    (self self1 self2 : PyAllocationRecord) (max_stacks : option nat)
    (python_stack native_frames : list pyframe) :
  _pure_python_stack_trace reader_Py_GetStackFrame self max_stacks =
    Ret (python_stack, self1) ->
  python_stack <> [] ->
  native_stack_trace reader_Py_GetNativeStackFrame self1 max_stacks =
    Ret (native_frames, self2) ->
  let run := hybrid_stack_trace reader_Py_GetStackFrame
               reader_Py_GetNativeStackFrame self max_stacks in
  snd run = Ret tt /\
  length (fst run) <= length native_frames /\
  (eval_frames native_frames < length python_stack ->
   length (fst run) = length native_frames) /\
  forall i frame,
    native_frames !! i = Some frame ->
    i < length (fst run) ->
    fst run !! i =
    if _is_eval_frame frame.1.1
    then python_stack !! eval_frames (take i native_frames)
    else Some frame.
Proof.
  intros Hpure Hne Hnative run.
  assert (Hrun : run = hybrid_loop native_frames python_stack
                         (Some (Z.of_nat (length python_stack)))).
  { unfold run, hybrid_stack_trace. rewrite Hpure. cbn [gen_call].
    rewrite Hnative. cbn [gen_call].
    destruct python_stack; [contradiction | reflexivity]. }
  rewrite Hrun. apply hybrid_loop_frame_by_frame.
Qed.

End RecordFacts.

Lemma hybrid_stack_trace_frame_by_frame_witness :
  let run :=
    hybrid_stack_trace
      (fun _ _ => [("f", "a.py", 12%Z); ("glue", "x.pyx", 3%Z); ("g", "a.py", 4%Z)])
      (fun _ _ _ => [("malloc", "libc.so", 0%Z);
                     ("_PyEval_EvalFrameDefault", "ceval.c", 0%Z);
                     ("Py_RunMain", "main.c", 0%Z)])
      {| _tuple := sample_tuple Allocation_zero; _stack_trace := None;
         _native_stack_trace := None; _has_reader := true |} None in
  snd run = Ret tt /\ length (fst run) = 3 /\
  fst run !! 1 = Some ("f", "a.py", 12%Z).
Proof.
  destruct (hybrid_stack_trace_frame_by_frame
              (fun _ _ => [("f", "a.py", 12%Z); ("glue", "x.pyx", 3%Z);
                           ("g", "a.py", 4%Z)])
              (fun _ _ _ => [("malloc", "libc.so", 0%Z);
                             ("_PyEval_EvalFrameDefault", "ceval.c", 0%Z);
                             ("Py_RunMain", "main.c", 0%Z)])
              {| _tuple := sample_tuple Allocation_zero; _stack_trace := None;
                 _native_stack_trace := None; _has_reader := true |}
              _ _ None [("f", "a.py", 12%Z); ("g", "a.py", 4%Z)]
              [("malloc", "libc.so", 0%Z);
               ("_PyEval_EvalFrameDefault", "ceval.c", 0%Z);
               ("Py_RunMain", "main.c", 0%Z)]
              ltac:(vm_compute; reflexivity) ltac:(discriminate)
              ltac:(vm_compute; reflexivity)) as (Hend & _ & Hall & Hat).
  intros run. split; [exact Hend|].
  split; [apply Hall; vm_compute; lia|].
  apply (Hat 1 ("_PyEval_EvalFrameDefault", "ceval.c", 0%Z) eq_refl).
  vm_compute. lia.
Defined.

(** ** _pensieve.pyx: FileReader *)

Section FileReaderMore.
Context `{WireLayout} {env : Environment}.
Variable ndebug : bool.
Variable getHighWatermark : list Allocation -> HighWatermark.
Variable Py_GetSnapshotAllocationRecords :
  list Allocation -> N -> bool -> list AllocationTuple.

(** X16.  On a capture in which [_populate_allocations] finds no
    allocation, [get_leaked_allocation_records] asks the snapshot for
    index [SIZE_MAX]: the [size() - 1] of an empty vector, in [size_t]. *)
Theorem get_leaked_allocation_records_without_allocations
    (self self1 : FileReader) (merge_threads : bool) :
  _ensure_reader_is_open self = Ret tt ->
  _populate_allocations ndebug self = Some (Ret self1) ->
  _native_allocations self1 = [] ->
  get_leaked_allocation_records ndebug Py_GetSnapshotAllocationRecords
      self (sq_created merge_threads) =
    Some (yield_from self1
            (Ret (yield_next
                    (Py_GetSnapshotAllocationRecords [] SIZE_MAX merge_threads)))).
Proof.
  intros Hopen Hpop Hnone. unfold get_leaked_allocation_records.
  rewrite Hopen. cbn [bounded_bind]. rewrite Hpop. cbn [bounded_bind].
  unfold _yield_allocations. rewrite Hnone. reflexivity.
Qed.

(** X17.  [_get_high_watermark], from which [metadata] takes the peak
    memory, does not ask whether the reader is open.  On a [FileReader]
    closed before anything was read it does not raise the [ValueError] of
    a closed reader, as [get_high_watermark_allocation_records] does: it
    reserves room for the allocations the header announces, raising what
    the vector raises if that fails, and then gives, and keeps, the high
    watermark of no allocations. *)
Theorem _get_high_watermark_of_closed_reader
    (self : FileReader) (reader : RecordReader) :
  _reader self = Some reader ->
  isOpen reader = false ->
  _native_allocations self = [] ->
  _high_watermark self = None ->
  _get_high_watermark ndebug getHighWatermark self =
    match Allocation_vector_reserve (n_allocations (stats (_header self))) with
    | Some failure => Some (Throw (alloc_exn failure))
    | None =>
        Some (Ret (getHighWatermark [],
                   {| _reader := Some reader; _native_allocations := [];
                      _high_watermark := Some (getHighWatermark []);
                      _header := _header self |}))
    end /\
  get_high_watermark_allocation_records ndebug getHighWatermark
      Py_GetSnapshotAllocationRecords self (sq_created true) =
    Some (Throw (ValueError "Operation on a closed FileReader")).
Proof.
  intros Hreader Hclosed Hnone Hmark. split.
  - unfold _get_high_watermark. rewrite Hmark.
    unfold _populate_allocations, _get_reader. rewrite Hnone, Hreader.
    rewrite bool_decide_eq_true_2 by reflexivity.
    cbn [negb bounded_bind result_bind].
    destruct (Allocation_vector_reserve _); [reflexivity|].
    cbn [populate_loop].
    rewrite (nextAllocationRecord_not_open ndebug _ _ Hclosed).
    reflexivity.
  - unfold get_high_watermark_allocation_records, _ensure_reader_is_open, _get_reader.
    rewrite Hreader. simpl. now rewrite Hclosed.
Qed.

End FileReaderMore.

Lemma get_leaked_allocation_records_without_allocations_witness :
  exists self1,
    get_leaked_allocation_records (H := sample_layout) (env := sample_env) false sample_snapshot
      (sample_FileReader (sample_FRAME_PUSH 7 2)) (sq_created true) =
    Some (yield_from self1
            (Ret (yield_next
                    (sample_snapshot [] (SIZE_MAX (WireLayout := sample_layout))
                       true)))).
Proof.
  eexists.
  apply (get_leaked_allocation_records_without_allocations (H := sample_layout) (env := sample_env)
           false sample_snapshot (sample_FileReader (sample_FRAME_PUSH 7 2)) _ true).
  - vm_compute. reflexivity.
  - vm_compute. reflexivity.
  - vm_compute. reflexivity.
Defined.

Lemma _get_high_watermark_of_closed_reader_witness :
  _get_high_watermark (H := sample_layout) (env := sample_env) false sample_watermark
    {| _reader := Some (RecordReader_close
                          (sample_reader (sample_ALLOCATION 7 256 64 12)));
       _native_allocations := []; _high_watermark := None;
       _header := HeaderRecord_zero |} =
  Some (Ret (sample_watermark [],
             {| _reader := Some (RecordReader_close
                                   (sample_reader (sample_ALLOCATION 7 256 64 12)));
                _native_allocations := [];
                _high_watermark := Some (sample_watermark []);
                _header := HeaderRecord_zero |})).
Proof.
  exact (proj1 (_get_high_watermark_of_closed_reader (H := sample_layout)
                  (env := sample_env) false
                  sample_watermark sample_snapshot
                  {| _reader := Some (RecordReader_close
                                        (sample_reader (sample_ALLOCATION 7 256 64 12)));
                     _native_allocations := []; _high_watermark := None;
                     _header := HeaderRecord_zero |}
                  (RecordReader_close (sample_reader (sample_ALLOCATION 7 256 64 12)))
                  eq_refl eq_refl eq_refl eq_refl)).
Defined.

Section GetAllocationRecordsFacts.
Context `{WireLayout} {env : Environment}.
Variable ndebug : bool.
Variable Allocation_toPythonObject : Allocation -> AllocationTuple.

Lemma allocation_records_all_populate (header0 : HeaderRecord) (file : Source)
    (fuel : nat) (a : Allocation) (collected allocations : list Allocation)
    (r r' : RecordReader) :
  populate_loop ndebug fuel a collected r = Some (Ret (allocations, r')) ->
  exists delivered,
    allocations = collected ++ delivered /\
    forall yielded,
      allocation_records_all ndebug Allocation_toPythonObject fuel header0 file
        (ar_at_yield r a) yielded =
      Some (Ret (yielded ++ map Allocation_toPythonObject delivered,
                 RecordReader_close r')).
Proof.
  revert a collected r.
  induction fuel as [|fuel IH]; intros a collected r; [discriminate|].
  cbn [populate_loop allocation_records_all get_allocation_records].
  unfold allocation_records_step.
  destruct (nextAllocationRecord ndebug a r) as [[[[[] a1] r1]| | |]|];
    cbn [bounded_bind]; try discriminate.
  - intros Hpop. apply IH in Hpop. destruct Hpop as (delivered & -> & Hall).
    exists (a1 :: delivered). split; [now rewrite <- app_assoc|].
    intros yielded. rewrite Hall. cbn [map]. now rewrite <- app_assoc.
  - intros [= <- <-]. exists []. split; [now rewrite app_nil_r|].
    intros yielded. cbn [map]. now rewrite app_nil_r.
Qed.

(** X18.  [get_allocation_records], resumed until it is exhausted on the
    file a [FileReader] was opened on, yields the Python objects of just
    the allocations that [_populate_allocations] stores in that
    [FileReader] while it is fresh, in the same order, and then closes the
    reader it made for itself: the one of the [FileReader] is not
    touched. *)
Theorem get_allocation_records_yields_what_is_populated
    (header0 : HeaderRecord) (file : Source) (reader : RecordReader)
    (self1 : FileReader) :
  RecordReader_new header0 file = Ret reader ->
  _populate_allocations ndebug
    {| _reader := Some reader; _native_allocations := [];
       _high_watermark := None; _header := getHeader reader |} =
    Some (Ret self1) ->
  exists reader1,
    _reader self1 = Some reader1 /\
    allocation_records_all ndebug Allocation_toPythonObject
      (S (length (src_data (d_input reader)))) header0 file ar_created [] =
    Some (Ret (map Allocation_toPythonObject (_native_allocations self1),
               RecordReader_close reader1)).
Proof.
  intros Hnew. unfold _populate_allocations, _get_reader.
  cbn [_native_allocations _reader _high_watermark _header].
  rewrite bool_decide_eq_true_2 by reflexivity. cbn [negb bounded_bind].
  destruct (Allocation_vector_reserve _); [discriminate|].
  destruct (populate_loop _ _ _ _ _) as [[[allocations reader1]| | |]|] eqn:Hpop;
    cbn [bounded_bind]; try discriminate.
  intros [= <-]. exists reader1. split; [reflexivity|].
  destruct (allocation_records_all_populate header0 file _ _ _ _ _ _ Hpop)
    as (delivered & -> & Hall).
  specialize (Hall []). cbn [app _native_allocations] in *.
  rewrite <- Hall.
  cbn [allocation_records_all get_allocation_records]. rewrite Hnew.
  reflexivity.
Qed.

End GetAllocationRecordsFacts.

Lemma get_allocation_records_yields_what_is_populated_witness :
  exists reader self1 reader1,
    RecordReader_new (H := sample_layout) (env := sample_env) HeaderRecord_zero
      (sample_source (sample_header 1 ++ sample_ALLOCATION 7 256 64 12
                      ++ sample_ALLOCATION 7 512 32 15)) = Ret reader /\
    _populate_allocations (H := sample_layout) (env := sample_env) false
      {| _reader := Some reader; _native_allocations := [];
         _high_watermark := None; _header := getHeader reader |} =
      Some (Ret self1) /\
    length (_native_allocations self1) = 2 /\
    allocation_records_all (H := sample_layout) (env := sample_env) false sample_tuple
      (S (length (src_data (d_input reader)))) HeaderRecord_zero
      (sample_source (sample_header 1 ++ sample_ALLOCATION 7 256 64 12
                      ++ sample_ALLOCATION 7 512 32 15)) ar_created [] =
    Some (Ret (map sample_tuple (_native_allocations self1),
               RecordReader_close reader1)).
Proof.
  eassert (Hnew : RecordReader_new (H := sample_layout) (env := sample_env) HeaderRecord_zero
                    (sample_source (sample_header 1 ++ sample_ALLOCATION 7 256 64 12
                                    ++ sample_ALLOCATION 7 512 32 15)) = Ret _)
    by (vm_compute; reflexivity).
  match type of Hnew with _ = Ret ?r => set (reader := r) in * end.
  eassert (Hpop : _populate_allocations (H := sample_layout) (env := sample_env) false
                    {| _reader := Some reader; _native_allocations := [];
                       _high_watermark := None; _header := getHeader reader |} =
                  Some (Ret _))
    by (vm_compute; reflexivity).
  destruct (get_allocation_records_yields_what_is_populated (H := sample_layout) (env := sample_env)
              false sample_tuple _ _ _ _ Hnew Hpop) as (reader1 & _ & Hall).
  eexists reader, _, reader1. split; [exact Hnew|]. split; [exact Hpop|].
  split; [vm_compute; reflexivity | exact Hall].
Defined.

(** ** _pensieve.pyx: Tracker and SocketReader *)

Section TrackerFacts.
Context {RecordWriter NativeTracker ProfileFunc Sink : Type}.
Variable start_thread_trace : ProfileFunc.
Variable NativeTracker_new : RecordWriter -> bool -> NativeTracker.
Variable NativeTracker_created : NativeTracker -> @hooks ProfileFunc -> @hooks ProfileFunc.
Variable NativeTracker_deleted : NativeTracker -> @hooks ProfileFunc -> @hooks ProfileFunc.
Variable FileSink : string -> Sink.
Variable SocketSink : string -> N -> Sink.
Variable RecordWriter_new : Sink -> string -> bool -> RecordWriter.
Variable py_None : ProfileFunc.
Variable command_line : string.

(** X19.  A [Tracker] is good for one session.  Entering one that
    [__cinit__] has made succeeds when no tracker is active and raises
    [RuntimeError] when one is.  Whatever the native tracker and the code
    under [with] have done to the profile functions, [__exit__] leaves
    both as they were when the tracker was entered, and no tracker active;
    entering the same object again raises [RuntimeError], its output
    handle being gone. *)
Theorem Tracker_is_good_for_one_session
    (file_name : option string) (dest : option destination) (native_traces : bool)
    (self : Tracker) (p : process) :
  Tracker__cinit__ FileSink SocketSink RecordWriter_new py_None command_line
    file_name dest native_traces = inr self ->
  let enter :=
    Tracker__enter__ start_thread_trace NativeTracker_new NativeTracker_created in
  let exit := Tracker__exit__ (RecordWriter := RecordWriter) NativeTracker_deleted in
  match _TRACKER p with
  | Some _ =>
      enter self p =
      inl (RuntimeError
             "No more than one Tracker instance can be active at the same time")
  | None =>
      exists self1 p1,
        enter self p = inr (self1, p1) /\
        _TRACKER p1 <> None /\
        forall p2,
          process_hooks (exit self1 p2) = process_hooks p /\
          _TRACKER (exit self1 p2) = None /\
          enter self1 (exit self1 p2) =
            inl (RuntimeError "Attempting to use stale output handle")
  end.
Proof.
  intros Hinit enter exit. unfold enter, exit, Tracker__enter__.
  destruct (_TRACKER p) as [active|] eqn:Hp; [reflexivity|].
  assert (Hwriter : exists writer, _writer self = Some writer).
  { unfold Tracker__cinit__, _make_writer in Hinit.
    destruct file_name as [path|], dest as [[path'|host port|]|];
      try discriminate; injection Hinit as <-; eexists; reflexivity. }
  destruct Hwriter as [writer ->].
  eexists _, _. split; [reflexivity|]. split; [discriminate|].
  intros p2. unfold Tracker__exit__.
  cbn [process_hooks _TRACKER _previous_profile_func _previous_thread_profile_func
       _writer].
  split; [|split; reflexivity].
  unfold threading_setprofile, sys_setprofile. cbn [sys_profile threading_profile_hook].
  now destruct (process_hooks p).
Qed.

End TrackerFacts.

Lemma Tracker_is_good_for_one_session_witness :
  exists self self1 p1,
    Tracker__cinit__ (fun path => path) (fun host _ => host)
      (fun sink _ _ => sink) "None" "python script.py"
      (Some "out.bin") None false = inr self /\
    Tracker__enter__ "start_thread_trace" (fun writer _ => writer)
      (fun _ h => sys_setprofile "native" h) self
      {| _TRACKER := None;
         process_hooks := {| sys_profile := "mine";
                             threading_profile_hook := "None" |} |} =
      inr (self1, p1) /\
    process_hooks
      (Tracker__exit__ (RecordWriter := string)
         (fun _ h => sys_setprofile "None" h) self1 p1) =
      {| sys_profile := "mine"; threading_profile_hook := "None" |}.
Proof.
  eassert (Hinit : Tracker__cinit__ (fun path => path) (fun host _ => host)
                     (fun sink _ _ => sink) "None" "python script.py"
                     (Some "out.bin") None false = inr _) by reflexivity.
  pose proof (Tracker_is_good_for_one_session
                "start_thread_trace" (fun writer _ => writer)
                (fun _ h => sys_setprofile "native" h)
                (fun _ h => sys_setprofile "None" h)
                (fun path => path) (fun host _ => host) (fun sink _ _ => sink)
                "None" "python script.py" (Some "out.bin") None false _
                {| _TRACKER := None;
                   process_hooks := {| sys_profile := "mine";
                                       threading_profile_hook := "None" |} |}
                Hinit) as (self1 & p1 & Henter & _ & Hexit).
  eexists _, self1, p1. split; [exact Hinit|]. split; [exact Henter|].
  exact (proj1 (Hexit p1)).
Defined.

Section SocketReaderFacts.
Context `{WireLayout} {env : Environment}.
Variable snapshot : bool -> list AllocationTuple.

Lemma RecordReader_new_isOpen (header0 : HeaderRecord) (source : Source)
    (r : RecordReader) :
  RecordReader_new header0 source = Ret r -> isOpen r = true.
Proof.
  unfold RecordReader_new, readHeader.
  destruct (Source_read (length MAGIC) source) as [[m|] input1]; [|discriminate].
  simpl. destruct (bytes_eqb m MAGIC); [|discriminate]. simpl.
  destruct (read_obj version_codec input1) as [v input2].
  destruct (negb _); [discriminate|].
  match goal with |- context [pbind ?p ?k input2] =>
    destruct (pbind p k input2) as [[[[nt st] cl]|] input3] end; [|discriminate].
  destruct (read_obj pid_codec input3) as [[p|] input4] eqn:E4; [|discriminate].
  simpl. intros [= <-].
  destruct (read_obj_inv _ _ _ _ E4) as (_ & buf & _ & _ & Hopen4 & _).
  unfold isOpen, Source_is_open. simpl. exact Hopen4.
Qed.

(** X20.  A [SocketReader] gives snapshots only inside its context.
    Before [__enter__] it has no header and [get_current_snapshot], when
    first resumed, raises [ValueError]; once entered, entering it again
    raises [ValueError] and the snapshot is taken; [__exit__] closes the
    reader, keeps the header, and after it [get_current_snapshot] raises
    [ValueError] again and a second [__exit__] fails its assertion. *)
Theorem SocketReader_snapshots_only_inside_context
    (header0 : HeaderRecord) (source : Source) (self1 : SocketReader)
    (merge_threads : bool) :
  SocketReader__enter__ header0 source SocketReader__init__ = Ret self1 ->
  (get_current_snapshot snapshot SocketReader__init__ merge_threads =
     Throw (ValueError "No active thread to get snapshot from.") /\
   SocketReader_command_line SocketReader__init__ = None /\
   SocketReader_pid SocketReader__init__ = None) /\
  (get_current_snapshot snapshot self1 merge_threads = Ret (snapshot merge_threads) /\
   (exists reader,
      socket_reader self1 = Some reader /\ isOpen reader = true /\
      SocketReader_command_line self1 = Some (command_line (getHeader reader)) /\
      SocketReader_pid self1 = Some (pid (getHeader reader))) /\
   forall header0' source',
     SocketReader__enter__ header0' source' self1 =
     Throw (ValueError
       "Can not enter the context of a SocketReader object more than once, at the same time.")) /\
  (exists self2,
     SocketReader__exit__ self1 = Ret self2 /\
     (exists reader, socket_reader self2 = Some reader /\ isOpen reader = false) /\
     SocketReader_command_line self2 = SocketReader_command_line self1 /\
     SocketReader_pid self2 = SocketReader_pid self1 /\
     get_current_snapshot snapshot self2 merge_threads =
       Throw (ValueError "No active thread to get snapshot from.") /\
     SocketReader__exit__ self2 = Throw (AssertionError "")).
Proof.
  unfold SocketReader__enter__. cbn [_impl SocketReader__init__].
  destruct (RecordReader_new header0 source) as [reader| | |] eqn:Hnew;
    cbn [result_bind]; try discriminate.
  intros [= <-]. split; [repeat split|]. split.
  - split; [reflexivity|]. split; [|reflexivity].
    exists reader. split; [reflexivity|]. split; [|split; reflexivity].
    exact (RecordReader_new_isOpen _ _ _ Hnew).
  - eexists. split; [reflexivity|]. cbn.
    split; [eexists; split; reflexivity|]. repeat split; reflexivity.
Qed.

End SocketReaderFacts.

Lemma SocketReader_snapshots_only_inside_context_witness :
  exists self1 self2,
    SocketReader__enter__ (H := sample_layout) (env := sample_env) HeaderRecord_zero
      (sample_source (sample_header 1)) SocketReader__init__ = Ret self1 /\
    SocketReader__exit__ self1 = Ret self2 /\
    SocketReader_pid self2 = SocketReader_pid self1 /\
    get_current_snapshot (fun _ => []) self2 true =
      Throw (ValueError "No active thread to get snapshot from.").
Proof.
  eassert (Henter : SocketReader__enter__ (H := sample_layout) (env := sample_env) HeaderRecord_zero
                      (sample_source (sample_header 1)) SocketReader__init__ = Ret _)
    by (vm_compute; reflexivity).
  destruct (SocketReader_snapshots_only_inside_context (H := sample_layout) (env := sample_env)
              (fun _ => []) _ _ _ true Henter)
    as (_ & _ & self2 & Hexit & _ & _ & Hpid & Hsnap & _).
  eexists _, self2. split; [exact Henter|]. split; [exact Hexit|].
  split; [exact Hpid | exact Hsnap].
Defined.

Section CacheFacts.
Variable reader_Py_GetStackFrame : N -> option nat -> list pyframe.
Variable reader_Py_GetNativeStackFrame : N -> N -> option nat -> list pyframe.

(** X21.  An allocation record asks its reader for each trace once.  After
    [stack_trace] and [native_stack_trace] have returned, both return the
    same lists again whatever [max_stacks] they are given, and
    [hybrid_stack_trace] is made from those lists: none of the three
    depends on the reader or on [max_stacks] any more. *)
Theorem stack_traces_are_computed_once
    (self self1 self2 : PyAllocationRecord) (m1 m2 : option nat)
    (python_frames native_frames : list pyframe) :
  stack_trace reader_Py_GetStackFrame self m1 = Ret (python_frames, self1) ->
  native_stack_trace reader_Py_GetNativeStackFrame self1 m2 =
    Ret (native_frames, self2) ->
  forall (other_Py_GetStackFrame : N -> option nat -> list pyframe)
         (other_Py_GetNativeStackFrame : N -> N -> option nat -> list pyframe)
         (max_stacks : option nat),
    stack_trace other_Py_GetStackFrame self2 max_stacks =
      Ret (python_frames, self2) /\
    native_stack_trace other_Py_GetNativeStackFrame self2 max_stacks =
      Ret (native_frames, self2) /\
    hybrid_stack_trace other_Py_GetStackFrame other_Py_GetNativeStackFrame
        self2 max_stacks =
      hybrid_loop native_frames (pure_python_frames python_frames)
        (match pure_python_frames python_frames with
         | [] => None
         | _ :: _ => Some (Z.of_nat (length (pure_python_frames python_frames)))
         end).
Proof.
  intros Hpy Hnative other1 other2 max_stacks.
  assert (Hcached : _has_reader self2 = true /\
                    _stack_trace self2 = Some python_frames /\
                    _native_stack_trace self2 = Some native_frames).
  { unfold stack_trace in Hpy. unfold native_stack_trace in Hnative.
    destruct (_has_reader self) eqn:Hr; [|discriminate]. cbn [negb] in Hpy.
    destruct (_stack_trace self) as [t|] eqn:Ht.
    - injection Hpy as <- <-. rewrite Hr in Hnative. cbn [negb] in Hnative.
      destruct (_native_stack_trace self) as [n|] eqn:Hn;
        injection Hnative as <- <-; cbn; auto.
    - injection Hpy as <- <-. cbn [_has_reader negb _native_stack_trace] in Hnative.
      destruct (_native_stack_trace self) as [n|] eqn:Hn;
        injection Hnative as <- <-; cbn; auto. }
  destruct Hcached as (Hr & Ht & Hn).
  assert (H1 : stack_trace other1 self2 max_stacks = Ret (python_frames, self2))
    by (unfold stack_trace; now rewrite Hr, Ht).
  assert (H2 : native_stack_trace other2 self2 max_stacks = Ret (native_frames, self2))
    by (unfold native_stack_trace; now rewrite Hr, Hn).
  split; [exact H1|]. split; [exact H2|].
  unfold hybrid_stack_trace, _pure_python_stack_trace. rewrite H1.
  cbn [result_bind gen_call]. rewrite H2. cbn [gen_call].
  destruct (pure_python_frames python_frames); reflexivity.
Qed.

End CacheFacts.

Lemma stack_traces_are_computed_once_witness :
  exists self1 self2,
    stack_trace (fun _ m => take (default 9 m) [("f", "a.py", 12%Z); ("g", "a.py", 4%Z)])
      {| _tuple := sample_tuple Allocation_zero; _stack_trace := None;
         _native_stack_trace := None; _has_reader := true |} (Some 1) =
      Ret ([("f", "a.py", 12%Z)], self1) /\
    native_stack_trace (fun _ _ _ => [("malloc", "libc.so", 0%Z)]) self1 None =
      Ret ([("malloc", "libc.so", 0%Z)], self2) /\
    stack_trace (fun _ m => take (default 9 m) [("f", "a.py", 12%Z); ("g", "a.py", 4%Z)])
      self2 None = Ret ([("f", "a.py", 12%Z)], self2).
Proof.
  eassert (Hpy : stack_trace
                   (fun _ m => take (default 9 m)
                                 [("f", "a.py", 12%Z); ("g", "a.py", 4%Z)])
                   {| _tuple := sample_tuple Allocation_zero; _stack_trace := None;
                      _native_stack_trace := None; _has_reader := true |} (Some 1) =
                 Ret ([("f", "a.py", 12%Z)], _)) by (vm_compute; reflexivity).
  match type of Hpy with _ = Ret (_, ?r) => set (self1 := r) in * end.
  eassert (Hnative : native_stack_trace (fun _ _ _ => [("malloc", "libc.so", 0%Z)])
                       self1 None = Ret ([("malloc", "libc.so", 0%Z)], _))
    by (vm_compute; reflexivity).
  eexists _, _. split; [exact Hpy|]. split; [exact Hnative|].
  exact (proj1 (stack_traces_are_computed_once _ _ _ _ _ _ _ _ _ Hpy Hnative
                  (fun _ m => take (default 9 m)
                                [("f", "a.py", 12%Z); ("g", "a.py", 4%Z)])
                  (fun _ _ _ => []) None)).
Defined.

(** ** A capture of allocations only *)

Section AllocationStream.
Context `{WireLayout} {env : Environment}.
Variable ndebug : bool.

Lemma ALLOCATION_without_stack (a : Allocation) (r : RecordReader)
    (tagb payload rest : list byte) :
  src_open (d_input r) = true ->
  src_data (d_input r) = tagb ++ payload ++ rest ->
  length tagb = sizeof RecordType_codec ->
  decode RecordType_codec tagb = ALLOCATION ->
  length payload = sizeof AllocationRecord_codec ->
  stack_of (tid (decode AllocationRecord_codec payload)) r = [] ->
  exists r',
    nextAllocationRecord ndebug a r =
      Some (Ret (true,
                 plain_allocation (currentSegmentGeneration (d_symbol_resolver r))
                   payload, r')) /\
    d_input r' = {| src_data := rest; src_open := true |} /\
    d_symbol_resolver r' = d_symbol_resolver r /\
    d_log r' = d_log r /\
    forall t, stack_of t r' = stack_of t r.
Proof.
  intros Hopen Hdata Htag Hty Hpay Hempty.
  set (rec := decode AllocationRecord_codec payload) in *.
  assert (Hbody : exists r',
    nextAllocationRecord_body ndebug a r =
      Ret (Return true
             (plain_allocation (currentSegmentGeneration (d_symbol_resolver r))
                payload) r') /\
    d_input r' = {| src_data := rest; src_open := true |} /\
    d_symbol_resolver r' = d_symbol_resolver r /\
    d_log r' = d_log r /\
    forall t, stack_of t r' = stack_of t r).
  { unfold nextAllocationRecord_body.
    rewrite (read_obj_app RecordType_codec _ tagb (payload ++ rest)
               Hopen Hdata Htag), Hty.
    unfold parseAllocationRecord. cbn [d_input set_input].
    rewrite (read_obj_app AllocationRecord_codec
               {| src_data := payload ++ rest; src_open := true |}
               payload rest eq_refl eq_refl Hpay).
    fold rec. cbn [negb].
    unfold getAllocationFrameIndex. cbn [d_stack_traces set_input].
    unfold stack_of in Hempty.
    destruct (d_stack_traces r !! tid rec) as [stack|] eqn:Hstack.
    - simpl in Hempty. subst stack. simpl.
      eexists. split; [reflexivity|]. repeat split.
      intros t. erewrite stack_of_insert by reflexivity.
      destruct (decide (tid rec = t)) as [<-|]; [|reflexivity].
      unfold stack_of. cbn [d_stack_traces set_input]. now rewrite Hstack.
    - simpl. eexists. split; [reflexivity|]. repeat split. }
  destruct Hbody as (r' & Hbody & Hrest). exists r'. split; [|exact Hrest].
  now apply nextAllocationRecord_Return.
Qed.

Lemma nextAllocationRecord_nothing_left (a : Allocation) (r : RecordReader) :
  src_data (d_input r) = [] ->
  exists r',
    nextAllocationRecord ndebug a r = Some (Ret (false, a, r')) /\
    src_data (d_input r') = [] /\ d_log r' = d_log r.
Proof.
  intros Hdata.
  destruct (read_obj RecordType_codec (d_input r)) as [[ty|] input] eqn:E.
  - destruct (read_obj_inv _ _ _ _ E) as (_ & buf & _ & _ & _ & Hbuf & Hlen).
    pose proof RecordType_sizeof_pos as Hpos.
    rewrite Hdata in Hbuf. destruct buf; [simpl in Hlen; lia | discriminate].
  - destruct (read_obj_inv _ _ _ _ E) as (_ & Hsame & _).
    exists (set_input input r). split; [|split; [|reflexivity]].
    + apply nextAllocationRecord_Return. unfold nextAllocationRecord_body.
      now rewrite E.
    + cbn [d_input set_input]. congruence.
Qed.

Lemma populate_loop_allocation_stream
    (records : list (list byte * list byte)) (fuel : nat) (a : Allocation)
    (collected : list Allocation) (r : RecordReader) :
  length records < fuel ->
  src_open (d_input r) = true ->
  src_data (d_input r) = concat (map (fun rec => rec.1 ++ rec.2) records) ->
  Forall (fun rec =>
            length rec.1 = sizeof RecordType_codec /\
            decode RecordType_codec rec.1 = ALLOCATION /\
            length rec.2 = sizeof AllocationRecord_codec /\
            stack_of (tid (decode AllocationRecord_codec rec.2)) r = [])
         records ->
  exists r',
    populate_loop ndebug fuel a collected r =
      Some (Ret (collected ++
                 map (fun rec =>
                        plain_allocation
                          (currentSegmentGeneration (d_symbol_resolver r)) rec.2)
                     records,
                 r')) /\
    src_data (d_input r') = [] /\ d_log r' = d_log r.
Proof.
  revert fuel a collected r.
  induction records as [|[tagb payload] records IH];
    intros fuel a collected r Hfuel Hopen Hdata Hall.
  - destruct fuel as [|fuel]; [simpl in Hfuel; lia|]. cbn [populate_loop].
    destruct (nextAllocationRecord_nothing_left a r Hdata) as (r' & -> & Hleft & Hlog).
    exists r'. cbn [map]. rewrite app_nil_r. auto.
  - destruct fuel as [|fuel]; [simpl in Hfuel; lia|]. cbn [populate_loop].
    apply Forall_cons in Hall. destruct Hall as [(Htag & Hty & Hpay & Hstack) Hall].
    cbn [fst snd] in *.
    cbn [map concat] in Hdata. rewrite <- app_assoc in Hdata.
    destruct (ALLOCATION_without_stack a r tagb payload _
                Hopen Hdata Htag Hty Hpay Hstack)
      as (r1 & Hnext & Hin & Hres & Hlog & Hstacks).
    rewrite Hnext.
    destruct (IH fuel
                (plain_allocation (currentSegmentGeneration (d_symbol_resolver r))
                   payload)
                (collected ++
                 [plain_allocation (currentSegmentGeneration (d_symbol_resolver r))
                    payload]) r1) as (r' & Hloop & Hleft & Hlog').
    + simpl in Hfuel. lia.
    + now rewrite Hin.
    + now rewrite Hin.
    + eapply Forall_impl; [exact Hall|]. intros rec (A & B & C & D).
      rewrite Hstacks. auto.
    + exists r'. rewrite Hloop, Hres. cbn [map fst snd].
      rewrite <- app_assoc. split; [reflexivity|]. split; [exact Hleft | congruence].
Qed.

(** X22.  On a capture whose records are all ALLOCATION records of
    threads that have no Python frames, once room for the allocations the
    header announces has been reserved, [_populate_allocations] stores one
    allocation for every record, in the order of the stream, each with the
    record's fields, frame index 0 and the resolver's generation; it reads
    the stream to its end and logs nothing.  If the room cannot be
    reserved it raises what the vector raises and reads nothing. *)
Theorem _populate_allocations_allocation_stream
    (self : FileReader) (reader : RecordReader)
    (records : list (list byte * list byte)) :
  _reader self = Some reader ->
  _native_allocations self = [] ->
  isOpen reader = true ->
  src_data (d_input reader) = concat (map (fun rec => rec.1 ++ rec.2) records) ->
  Forall (fun rec =>
            length rec.1 = sizeof RecordType_codec /\
            decode RecordType_codec rec.1 = ALLOCATION /\
            length rec.2 = sizeof AllocationRecord_codec /\
            stack_of (tid (decode AllocationRecord_codec rec.2)) reader = [])
         records ->
  match Allocation_vector_reserve (n_allocations (stats (_header self))) with
  | Some failure =>
      _populate_allocations ndebug self = Some (Throw (alloc_exn failure))
  | None =>
      exists reader',
        _populate_allocations ndebug self =
          Some (Ret {| _reader := Some reader';
                       _native_allocations :=
                         map (fun rec =>
                                plain_allocation
                                  (currentSegmentGeneration
                                     (d_symbol_resolver reader))
                                  rec.2)
                             records;
                       _high_watermark := _high_watermark self;
                       _header := _header self |}) /\
        src_data (d_input reader') = [] /\ d_log reader' = d_log reader
  end.
Proof.
  intros Hreader Hnone Hopen Hdata Hall.
  unfold _populate_allocations, _get_reader. rewrite Hnone, Hreader.
  rewrite bool_decide_eq_true_2 by reflexivity. cbn [negb bounded_bind].
  destruct (Allocation_vector_reserve _); [reflexivity|].
  destruct (populate_loop_allocation_stream records
              (S (length (src_data (d_input reader)))) Allocation_zero [] reader)
    as (reader' & Hloop & Hleft & Hlog); auto.
  { rewrite Hdata. clear Hdata. pose proof RecordType_sizeof_pos as Hpos.
    induction Hall as [|rec records (Htag & _) _ IH]; [simpl; lia|].
    cbn [map concat length]. rewrite !length_app. lia. }
  exists reader'. split; [|auto].
  rewrite Hloop. reflexivity.
Qed.

End AllocationStream.

Lemma _populate_allocations_allocation_stream_witness :
  exists reader',
    _populate_allocations (H := sample_layout) (env := sample_env) false
      (sample_FileReader (sample_ALLOCATION 7 256 64 12
                          ++ sample_ALLOCATION 8 512 32 15)) =
      Some (Ret {| _reader := Some reader';
                   _native_allocations :=
                     [ plain_allocation (H := sample_layout) 0
                         (drop 1 (sample_ALLOCATION 7 256 64 12));
                       plain_allocation (H := sample_layout) 0
                         (drop 1 (sample_ALLOCATION 8 512 32 15)) ];
                   _high_watermark := None;
                   _header := HeaderRecord_zero |}) /\
    src_data (d_input reader') = [].
Proof.
  pose proof (_populate_allocations_allocation_stream (H := sample_layout)
                (env := sample_env) false
                (sample_FileReader (sample_ALLOCATION 7 256 64 12
                                    ++ sample_ALLOCATION 8 512 32 15))
                (sample_reader (sample_ALLOCATION 7 256 64 12
                                ++ sample_ALLOCATION 8 512 32 15))
                [ (["A"%byte], drop 1 (sample_ALLOCATION 7 256 64 12));
                  (["A"%byte], drop 1 (sample_ALLOCATION 8 512 32 15)) ]
                eq_refl eq_refl eq_refl ltac:(vm_compute; reflexivity)
                ltac:(repeat constructor; vm_compute; reflexivity)) as Hpop.
  change (Allocation_vector_reserve (Environment := sample_env)
            (n_allocations (stats (_header (sample_FileReader
               (sample_ALLOCATION 7 256 64 12 ++ sample_ALLOCATION 8 512 32 15))))))
    with (@None alloc_failure) in Hpop.
  destruct Hpop as (reader' & Hpop & Hleft & _).
  exists reader'. split; [exact Hpop | exact Hleft].
Defined.
